(** * gnpy.yang.io: loading and storing the YANG-formatted network description

    A shallow embedding of [src/gnpy/yang/io.py].  Python exceptions are the
    constructors of [exn]; a function that can raise returns a [result].
    Python dictionaries keep their insertion order, so they are association
    lists ([odict]) read by first match.  Python floats and YANG decimal64
    leaves are idealised as exact rationals ([Q]): the development is about
    the structure of the transformation, not about binary64 rounding. *)

From Stdlib Require Import String Ascii List ZArith QArith Qround Lia Bool Arith.
From Stdlib Require Import Permutation Sorted Lqa.
Import ListNotations.

Set Warnings "-register-all".
Open Scope string_scope.
Open Scope list_scope.

(* ================================================================== *)
(** ** Exceptions and the error monad *)

Inductive yang : Type :=
| YStr (s : string)                     (* string, identityref, leafref *)
| YDec (q : Q)                          (* decimal64 *)
| YInt (z : Z)                          (* integer types *)
| YBool (b : bool)
| YNull                                 (* JSON null, as in [[null]] for type empty *)
| YObj (members : list (string * yang)) (* container or list entry *)
| YArr (entries : list yang).           (* list or leaf-list *)

Inductive exn : Type :=
| KeyError (key : string)
| NonexistentInstance (name : string)   (* yangson: member lookup failed *)
| InstanceValueError                    (* yangson: node is not structured *)
| AttributeError (attr : string)
| TypeError (msg : string)
| IndexError (msg : string)
| UnboundLocalError (var : string)
| StopIteration
| RuntimeError (msg : string)
| ValueError (msg : string)
| ValueErrorAbout (msg : string) (subject : yang)
| NotImplementedError (msg : string)
| NetworkTopologyError (msg : string)
| ConfigurationError (msg : string).

Inductive result (A : Type) : Type :=
| Ok (a : A)
| Raise (e : exn).
Arguments Ok {A} a.
Arguments Raise {A} e.

Definition bind {A B} (r : result A) (k : A -> result B) : result B :=
  match r with
  | Ok a => k a
  | Raise e => Raise e
  end.

Notation "x <- r ;; k" := (bind r (fun x => k))
  (at level 61, r at next level, right associativity).
Notation "' pat <- r ;; k" := (bind r (fun x => match x with pat => k end))
  (at level 61, pat pattern, r at next level, right associativity).

Fixpoint mapM {A B} (f : A -> result B) (l : list A) : result (list B) :=
  match l with
  | [] => Ok []
  | a :: l' => b <- f a ;; bs <- mapM f l' ;; Ok (b :: bs)
  end.

Definition is_ok {A} (r : result A) : bool :=
  match r with Ok _ => true | Raise _ => false end.

(* ================================================================== *)
(** ** Insertion-ordered dictionaries *)

Section Odict.
Context {V : Type}.

Definition odict := list (string * V).

Fixpoint dict_get (d : odict) (k : string) : option V :=
  match d with
  | [] => None
  | (k', v) :: d' => if String.eqb k k' then Some v else dict_get d' k
  end.

Definition dict_has (d : odict) (k : string) : bool :=
  match dict_get d k with Some _ => true | None => false end.

(** [d[k] = v]: an existing key keeps its position, a new key goes last. *)
Fixpoint dict_set (d : odict) (k : string) (v : V) : odict :=
  match d with
  | [] => [(k, v)]
  | (k', v') :: d' =>
      if String.eqb k k' then (k', v) :: d' else (k', v') :: dict_set d' k v
  end.

Definition dict_keys (d : odict) : list string := map fst d.

(** [d[k]], raising [KeyError]. *)
Definition dict_item (d : odict) (k : string) : result V :=
  match dict_get d k with
  | Some v => Ok v
  | None => Raise (KeyError k)
  end.
End Odict.
Arguments odict V : clear implicits.

(* ================================================================== *)
(** ** yangson instance nodes *)

(** [key in node] *)
Definition yang_in (key : string) (node : yang) : result bool :=
  match node with
  | YObj ms => Ok (dict_has ms key)
  | YArr _ => Ok false
  | _ => Raise InstanceValueError
  end.

(** [node[key]] *)
Definition yang_member (node : yang) (key : string) : result yang :=
  match node with
  | YObj ms =>
      match dict_get ms key with
      | Some v => Ok v
      | None => Raise (NonexistentInstance key)
      end
  | _ => Raise InstanceValueError
  end.

(** [for x in node] over a list or leaf-list *)
Definition yang_iter (node : yang) : result (list yang) :=
  match node with
  | YArr es => Ok es
  | _ => Raise InstanceValueError
  end.

(** [float(node.value)] *)
Definition yang_float (node : yang) : result Q :=
  match node with
  | YDec q => Ok q
  | YInt z => Ok (inject_Z z)
  | _ => Raise (TypeError "float() argument must be a string or a number")
  end.

(** [int(node.value)]: truncation towards zero *)
Definition yang_int (node : yang) : result Z :=
  match node with
  | YDec q => Ok (Z.quot (Qnum q) (Zpos (Qden q)))
  | YInt z => Ok z
  | _ => Raise (TypeError "int() argument must be a string or a number")
  end.

(** [node.value] of a string-valued leaf *)
Definition yang_str (node : yang) : result string :=
  match node with
  | YStr s => Ok s
  | _ => Raise (TypeError "expected a string value")
  end.

Definition member_float (node : yang) (key : string) : result Q :=
  x <- yang_member node key ;; yang_float x.
Definition member_str (node : yang) (key : string) : result string :=
  x <- yang_member node key ;; yang_str x.

(* ================================================================== *)
(** ** The spectrum interpolator *)

Module Spectrum.

(** [list.sort(key=lambda tup: tup[0])]: a stable sort on the frequency
    (a pair goes before the pairs of the same frequency that followed it). *)
Fixpoint insert_by_freq (p : Z * Q) (l : list (Z * Q)) : list (Z * Q) :=
  match l with
  | [] => [p]
  | q :: l' => if (fst p <=? fst q)%Z then p :: q :: l'
               else q :: insert_by_freq p l'
  end.

Definition sort_by_freq (l : list (Z * Q)) : list (Z * Q) :=
  fold_right insert_by_freq [] l.

(** [numpy.interp] on sample points in non-decreasing order.  With [j]
    the largest index whose sample point is at most [x], the value is
    [fp[j]] when [j] is the last index or [xp[j] = x], and else the value
    at [x] of the line through the samples [j] and [j + 1]; left of the
    first sample point it is the first value.  [interp_from x x0 y0 rest]
    is called with [x0 <= x], on the sample [(x0, y0)] and those after
    it. *)
Fixpoint interp_from (x : Z) (x0 : Z) (y0 : Q) (rest : list (Z * Q)) : Q :=
  match rest with
  | [] => y0
  | (x1, y1) :: rest' =>
      if (x <? x1)%Z
      then if (x =? x0)%Z then y0
           else ((y1 - y0) / inject_Z (x1 - x0)) * inject_Z (x - x0) + y0
      else interp_from x x1 y1 rest'
  end.

Definition interp_at (pts : list (Z * Q)) (x : Z) : Q :=
  match pts with
  | [] => 0
  | (x0, y0) :: rest => if (x <? x0)%Z then y0 else interp_from x x0 y0 rest
  end.

Definition np_interp (xs : list Z) (xp : list Z) (fp : list Q) : result (list Q) :=
  match xp with
  | [] => Raise (ValueError "array of sample points is empty")
  | _ => if Nat.eqb (length xp) (length fp)
         then Ok (map (interp_at (combine xp fp)) xs)
         else Raise (ValueError "fp and xp are not of the same length.")
  end.

(** [int(191.3e12 + channel * 50e9) for channel in range(96)]; both
    products are integers below 2^53, so the float sum is exact. *)
Definition frequencies : list Z :=
  map (fun channel => (191300000000000 + Z.of_nat channel * 50000000000)%Z)
      (seq 0 96).

(** [(int(x['frequency'].value), float(x[key].value)) for x in yang[key]] *)
Definition read_points (key : string) (yang : yang) : result (list (Z * Q)) :=
  lst <- yang_member yang key ;;
  entries <- yang_iter lst ;;
  mapM (fun x =>
          f <- yang_member x "frequency" ;;
          fz <- yang_int f ;;
          v <- member_float x key ;;
          Ok (fz, v)) entries.

Definition _extract_per_spectrum (key : string) (yang : yang) : result (list Q) :=
  present <- yang_in key yang ;;
  if negb present then Ok [0]
  else
    data <- read_points key yang ;;
    let data := sort_by_freq data in
    let keys := map fst data in
    let values := map snd data in
    np_interp frequencies keys values.

End Spectrum.

(* ================================================================== *)
(** ** Equipment-type records *)

(** Attribute values of the equipment-type records. The noise-figure
    models are the named tuples of [gnpy.tools.json_io]. *)
Inductive pyval : Type :=
| VNone
| VBool (b : bool)
| VStr (s : string)
| VFloat (q : Q)
| VFloats (l : list Q)                  (* a tuple or list of floats *)
| Model_dual_stage (preamp_variety booster_variety : string)
| Model_vg (nf1 nf2 delta_p orig_nf_min orig_nf_max : Q)
| Model_fg (nf0 : Q)
| Model_openroadm_ila (nf_coef : list Q)
| Model_openroadm_preamp
| Model_openroadm_booster.

(** An object is its [__dict__]. *)
Definition pyobj := odict pyval.

Definition getattr (o : pyobj) (attr : string) : result pyval :=
  match dict_get o attr with
  | Some v => Ok v
  | None => Raise (AttributeError attr)
  end.

(** Modelled from the spec: the record types of [gnpy.tools.json_io] are
    not in the source tree.  An amplifier type record ("Amplifier type",
    section 3) is built from keyword arguments and carries them as its
    attributes, in the order of the call. *)
Definition Amp (kwargs : odict pyval) : pyobj := kwargs.

(** Modelled from the spec: [gnpy.yang.conversion] is not in the source
    tree; "terahertz -> hertz" of the unit table (section 2). *)
Definition THZ : Q := 1000000000000.

Definition opt_float (o : option Q) : pyval :=
  match o with Some q => VFloat q | None => VNone end.

(** [str(v)], as the leaf the schema reads the text as: a float prints as a
    decimal number, which a decimal64 leaf reads back.  The text of a tuple
    or of a model object is of no consequence here and is left out. *)
Definition py_str (v : pyval) : yang :=
  match v with
  | VFloat q => YDec q
  | VNone => YStr "None"
  | VBool true => YStr "True"
  | VBool false => YStr "False"
  | VStr s => YStr s
  | _ => YStr "<object>"
  end.

Module Edfa_type.
Section Transform.

(** [gnpy.core.science_utils.estimate_nf_model(name, gain_min, gain_max,
    nf_min, nf_max)] is not in the source tree: a parameter. *)
Variable estimate_nf_model : string -> Q -> Q -> Q -> Q -> result (Q * Q * Q).

Definition POLYNOMIAL_NF := "polynomial-NF".
Definition OPENROADM_ILA := "OpenROADM-ILA".
Definition OPENROADM_PREAMP := "OpenROADM-preamp".
Definition OPENROADM_BOOSTER := "OpenROADM-booster".
Definition MIN_MAX_NF := "min-max-NF".
Definition COMPOSITE := "composite".
Definition RAMAN_APPROX := "raman-approximation".
Definition GAIN_RIPPLE := "gain-ripple".
Definition NF_RIPPLE := "nf-ripple".
Definition DYNAMIC_GAIN_TILT := "dynamic-gain-tilt".

Definition unrecognized_model (name : string) : exn :=
  NotImplementedError
    ("Internal error: EDFA model " ++ name ++
     ": unrecognized amplifier NF model for EDFA. Error in the YANG validation code.").

(** The four coefficients [a], [b], [c], [d] of a polynomial model. *)
Definition read_abcd (model : yang) : result (list Q) :=
  a <- member_float model "a" ;;
  b <- member_float model "b" ;;
  c <- member_float model "c" ;;
  d <- member_float model "d" ;;
  Ok [a; b; c; d].

(** The locals a branch of the classification assigns. *)
Record nf_locals := {
  l_type_def : pyval;
  l_nf_model : pyval;
  l_nf_fit_coeff : pyval }.

(** The [if]/[elif] chain of the non-composite branch (lines 110-137). *)
Definition classify_nf (name : string) (edfa : yang) : result nf_locals :=
  p <- yang_in POLYNOMIAL_NF edfa ;;
  if p then
    model <- yang_member edfa POLYNOMIAL_NF ;;
    abcd <- read_abcd model ;;
    Ok {| l_type_def := VStr "advanced_model"; l_nf_model := VNone;
          l_nf_fit_coeff := VFloats abcd |}
  else
  p <- yang_in OPENROADM_ILA edfa ;;
  if p then
    model <- yang_member edfa OPENROADM_ILA ;;
    abcd <- read_abcd model ;;
    Ok {| l_type_def := VStr "openroadm"; l_nf_model := Model_openroadm_ila abcd;
          l_nf_fit_coeff := VNone |}
  else
  p <- yang_in OPENROADM_PREAMP edfa ;;
  if p then
    Ok {| l_type_def := VStr "openroadm_preamp"; l_nf_model := VNone;
          l_nf_fit_coeff := VNone |}
  else
  p <- yang_in OPENROADM_BOOSTER edfa ;;
  if p then
    Ok {| l_type_def := VStr "openroadm_booster"; l_nf_model := VNone;
          l_nf_fit_coeff := VNone |}
  else
  p <- yang_in MIN_MAX_NF edfa ;;
  if p then
    model <- yang_member edfa MIN_MAX_NF ;;
    nf_min <- member_float model "nf-min" ;;
    nf_max <- member_float model "nf-max" ;;
    gmin <- member_float edfa "gain-min" ;;
    gmax <- member_float edfa "gain-flatmax" ;;
    '(nf1, nf2, delta_p) <- estimate_nf_model name gmin gmax nf_min nf_max ;;
    Ok {| l_type_def := VStr "variable_gain";
          l_nf_model := Model_vg nf1 nf2 delta_p nf_min nf_max;
          l_nf_fit_coeff := VNone |}
  else
  p <- yang_in RAMAN_APPROX edfa ;;
  if p then
    model <- yang_member edfa RAMAN_APPROX ;;
    nf <- member_float model "nf" ;;
    Ok {| l_type_def := VStr "advanced_model"; l_nf_model := VNone;
          l_nf_fit_coeff := VFloats [0; 0; 0; nf] |}
  else Raise (unrecognized_model name).

Definition _transform_edfa (edfa : yang) : result pyobj :=
  name <- member_str edfa "type" ;;
  c <- yang_in COMPOSITE edfa ;;
  if c then
    (* postprocessed in _fixup_dual_stage: placeholders only *)
    model <- yang_member edfa COMPOSITE ;;
    preamp <- member_str model "preamp" ;;
    booster <- member_str model "booster" ;;
    gain_min <- member_float edfa "gain-min" ;;
    Ok (Amp [("type_variety", VStr name);
             ("type_def", VStr "dual_stage");
             ("f_min", VNone);
             ("f_max", VNone);
             ("gain_min", VFloat gain_min);
             ("gain_flatmax", VNone);
             ("p_max", VNone);
             ("nf_fit_coeff", VNone);
             ("nf_ripple", VNone);
             ("dgt", VNone);
             ("gain_ripple", VNone);
             ("out_voa_auto", VNone);
             ("allowed_for_design", VBool true);
             ("raman", VBool false);
             ("nf_model", VNone);
             ("dual_stage_model", Model_dual_stage preamp booster)])
  else
    nf <- classify_nf name edfa ;;
    gain_flatmax <- member_float edfa "gain-flatmax" ;;
    f_min <- member_float edfa "frequency-min" ;;
    f_max <- member_float edfa "frequency-max" ;;
    p_max <- member_float edfa "max-power-out" ;;
    gain_ripple <- Spectrum._extract_per_spectrum GAIN_RIPPLE edfa ;;
    dgt <- Spectrum._extract_per_spectrum DYNAMIC_GAIN_TILT edfa ;;
    nf_ripple <- Spectrum._extract_per_spectrum NF_RIPPLE edfa ;;
    gain_min <- member_float edfa "gain-min" ;;
    Ok (Amp [("type_variety", VStr name);
             ("type_def", l_type_def nf);
             ("f_min", VFloat (f_min * THZ));
             ("f_max", VFloat (f_max * THZ));
             ("gain_min", VFloat gain_min);
             ("gain_flatmax", VFloat gain_flatmax);
             ("p_max", VFloat p_max);
             ("nf_fit_coeff", l_nf_fit_coeff nf);
             ("nf_ripple", VFloats nf_ripple);
             ("dgt", VFloats dgt);
             ("gain_ripple", VFloats gain_ripple);
             ("out_voa_auto", VNone);
             ("allowed_for_design", VBool true);
             ("raman", VBool false);
             ("nf_model", l_nf_model nf);
             ("dual_stage_model", VNone)]).

End Transform.

(** *** The dual-stage resolver *)

Definition amp_table := odict pyobj.

(** [setattr(amps[name], attr, v)]: the object is shared with the table,
    so the write is a write to the table's entry. *)
Fixpoint setattr_in (amps : amp_table) (name attr : string) (v : pyval) : amp_table :=
  match amps with
  | [] => []
  | (n, o) :: rest =>
      if String.eqb name n then (n, dict_set o attr v) :: rest
      else (n, o) :: setattr_in rest name attr v
  end.

Definition changed_size := RuntimeError "dictionary changed size during iteration".

(** [for attr in src.__dict__.keys(): setattr(dst, prefix + attr, getattr(src, attr))]
    with [remaining] keys still to visit out of [used].  The key view is
    live: the iterator reads the source object's dictionary at every step
    and raises when its size is no longer [used] (the case [src = dst]). *)
Fixpoint copy_attrs (remaining : nat) (prefix src dst : string) (used : nat)
         (amps : amp_table) : amp_table * result unit :=
  match dict_get amps src with
  | None => (amps, Raise (KeyError src))
  | Some d =>
      if negb (Nat.eqb (length d) used) then (amps, Raise changed_size)
      else
        match remaining with
        | O => (amps, Ok tt)
        | S r =>
            match nth_error d (used - remaining) with
            | None => (amps, Ok tt)
            | Some (attr, v) =>
                copy_attrs r prefix src dst used
                           (setattr_in amps dst (prefix ++ attr) v)
            end
        end
  end.

Definition copy_prefixed (prefix src dst : string) (amps : amp_table)
  : amp_table * result unit :=
  match dict_get amps src with
  | None => (amps, Raise (KeyError src))
  | Some d => copy_attrs (length d) prefix src dst (length d) amps
  end.

(** The body of the loop for the entry [name]. *)
Definition fixup_entry (name : string) (amps : amp_table) : amp_table * result unit :=
  match dict_get amps name with
  | None => (amps, Raise (KeyError name))
  | Some amp =>
      match getattr amp "dual_stage_model" with
      | Raise e => (amps, Raise e)
      | Ok VNone => (amps, Ok tt)
      | Ok (Model_dual_stage preamp_variety booster_variety) =>
          match dict_get amps preamp_variety with
          | None => (amps, Raise (KeyError preamp_variety))
          | Some _ =>
              match dict_get amps booster_variety with
              | None => (amps, Raise (KeyError booster_variety))
              | Some _ =>
                  let '(amps1, r) := copy_prefixed "preamp_" preamp_variety name amps in
                  match r with
                  | Raise e => (amps1, Raise e)
                  | Ok _ => copy_prefixed "booster_" booster_variety name amps1
                  end
              end
          end
      | Ok _ => (amps, Raise (AttributeError "preamp_variety"))
      end
  end.

Fixpoint fixup_loop (names : list string) (amps : amp_table) : amp_table * result unit :=
  match names with
  | [] => (amps, Ok tt)
  | name :: rest =>
      let '(amps1, r) := fixup_entry name amps in
      match r with
      | Raise e => (amps1, Raise e)
      | Ok _ => fixup_loop rest amps1
      end
  end.

(** The table is updated in place: the first component is the table as
    the call leaves it, whether it returns or raises. *)
Definition _fixup_dual_stage (amps : amp_table) : amp_table * result amp_table :=
  let '(amps1, r) := fixup_loop (dict_keys amps) amps in
  (amps1, match r with Ok _ => Ok amps1 | Raise e => Raise e end).

(** *** Storing an amplifier type *)

Definition float_of (v : pyval) : result Q :=
  match v with
  | VFloat q => Ok q
  | _ => Raise (TypeError "unsupported operand type(s)")
  end.

Definition yang_of_flag (v : pyval) : yang :=
  match v with
  | VBool b => YBool b
  | _ => YNull
  end.

Definition coef (l : list Q) (i : nat) : result yang :=
  match nth_error l i with
  | Some q => Ok (YDec q)
  | None => Raise (IndexError "tuple index out of range")
  end.

Definition store_abcd (l : list Q) : result yang :=
  a <- coef l 0 ;; b <- coef l 1 ;; c <- coef l 2 ;; d <- coef l 3 ;;
  Ok (YObj [("a", a); ("b", b); ("c", c); ("d", d)]).

(** The model sub-structure chosen from [edfa.nf_model] (lines 445-479);
    the text ['0'] is the decimal 0. *)
Definition store_nf_model (edfa : pyobj) : result (list (string * yang)) :=
  nf_model <- getattr edfa "nf_model" ;;
  match nf_model with
  | Model_fg nf0 =>
      if Qlt_le_dec nf0 3
      then Ok [("raman-approximation", YObj [("nf", YDec nf0)])]
      else Ok [("polynomial-NF",
                YObj [("a", YDec 0); ("b", YDec 0); ("c", YDec 0); ("d", YDec nf0)])]
  | Model_vg _ _ _ orig_nf_min orig_nf_max =>
      Ok [("min-max-NF", YObj [("nf-min", YDec orig_nf_min); ("nf-max", YDec orig_nf_max)])]
  | Model_openroadm_ila nf_coef =>
      m <- store_abcd nf_coef ;; Ok [("OpenROADM-ILA", m)]
  | Model_openroadm_preamp => Ok [("OpenROADM-preamp", YObj [])]
  | Model_openroadm_booster => Ok [("OpenROADM-booster", YObj [])]
  | _ =>
      type_def <- getattr edfa "type_def" ;;
      match type_def with
      | VStr "advanced_model" =>
          fit <- getattr edfa "nf_fit_coeff" ;;
          match fit with
          | VFloats l => m <- store_abcd l ;; Ok [("polynomial-NF", m)]
          | _ => Raise (TypeError "object is not subscriptable")
          end
      | _ => Ok []
      end
  end.

Definition _store_equipment_edfa (name : string) (edfa : pyobj) : result yang :=
  gain_min <- getattr edfa "gain_min" ;;
  let gain_min := py_str gain_min in
  dual_stage_model <- getattr edfa "dual_stage_model" ;;
  match dual_stage_model with
  | VNone =>
      f_min <- getattr edfa "f_min" ;; f_min <- float_of f_min ;;
      f_max <- getattr edfa "f_max" ;; f_max <- float_of f_max ;;
      gain_flatmax <- getattr edfa "gain_flatmax" ;;
      p_max <- getattr edfa "p_max" ;;
      out_voa_auto <- getattr edfa "out_voa_auto" ;;
      model <- store_nf_model edfa ;;
      Ok (YObj ([("type", YStr name);
                 ("gain-min", gain_min);
                 ("frequency-min", YDec (f_min / THZ));
                 ("frequency-max", YDec (f_max / THZ));
                 ("gain-flatmax", py_str gain_flatmax);
                 ("max-power-out", py_str p_max);
                 ("has-output-voa", yang_of_flag out_voa_auto)] ++ model))
  | Model_dual_stage preamp_variety booster_variety =>
      Ok (YObj [("type", YStr name);
                ("gain-min", gain_min);
                ("composite", YObj [("preamp", YStr preamp_variety);
                                    ("booster", YStr booster_variety)])])
  | _ => Raise (AttributeError "preamp_variety")
  end.

End Edfa_type.

(* ================================================================== *)
(** ** Network elements and the directed graph *)

Record Location := { latitude : Q; longitude : Q }.

Record EdfaOperational := {
  gain_target : option Q;
  tilt_target : option Q;
  out_voa : option Q;
  delta_p : option Q }.

Record RoadmParams := {
  target_pch_out_db : pyval;
  per_degree_pch_out_db : odict pyval }.

Record FiberParams := {
  length_m : Q;                         (* [params.length], in metres *)
  loss_coef : Q;
  att_in : Q;
  con_in : Q;
  con_out : Q;
  dispersion : pyval;
  gamma : pyval;
  pmd_coef : pyval }.

(** Modelled from the spec: [gnpy.core.elements] is not in the source tree.
    The variants of a network element (section 3, "Network graph"), each
    with the attributes [io.py] reads or writes.  [type_variety] is [None]
    when the object has no such attribute ([hasattr] is false); [Unhandled]
    stands for a graph node of any other class. *)
Inductive element : Type :=
| Transceiver (uid : string) (type_variety : option string) (metadata : option Location)
| Edfa (uid : string) (type_variety : option string) (params : pyobj)
       (metadata : option Location) (operational : EdfaOperational)
| Roadm (uid : string) (type_variety : option string) (params : RoadmParams)
        (metadata : option Location)
| Fused (uid : string) (loss : option Q)
| Fiber (uid : string) (type_variety : option string) (params : FiberParams)
        (metadata : option Location)
| Unhandled (uid : string).

Definition uid (n : element) : string :=
  match n with
  | Transceiver u _ _ | Edfa u _ _ _ _ | Roadm u _ _ _ | Fused u _
  | Fiber u _ _ _ | Unhandled u => u
  end.

Definition type_variety (n : element) : option string :=
  match n with
  | Transceiver _ t _ | Edfa _ t _ _ _ | Roadm _ t _ _ | Fiber _ t _ _ => t
  | Fused _ _ | Unhandled _ => None
  end.

Definition metadata (n : element) : option Location :=
  match n with
  | Transceiver _ _ m | Edfa _ _ _ m _ | Roadm _ _ _ m | Fiber _ _ _ m => m
  | Fused _ _ | Unhandled _ => None
  end.

Inductive variant : Type :=
| IsTransceiver | IsEdfa | IsRoadm | IsFused | IsFiber | IsUnhandled.

Definition variant_of (n : element) : variant :=
  match n with
  | Transceiver _ _ _ => IsTransceiver
  | Edfa _ _ _ _ _ => IsEdfa
  | Roadm _ _ _ _ => IsRoadm
  | Fused _ _ => IsFused
  | Fiber _ _ _ _ => IsFiber
  | Unhandled _ => IsUnhandled
  end.

(** [isinstance(n, elements.Fiber)] *)
Definition is_Fiber (n : element) : bool :=
  match n with Fiber _ _ _ _ => true | _ => false end.

(** [networkx.DiGraph] over element objects.  An object is known by its
    position in [g_nodes], the order of [network.nodes()]; [g_edges] keeps
    the edges in the order they were first added, so that the successors
    (predecessors) of a node are the targets (sources) of its edges in that
    order. *)
Record DiGraph := {
  g_nodes : list element;
  g_edges : list (nat * nat * Q) }.

Definition empty_graph : DiGraph := {| g_nodes := []; g_edges := [] |}.

(** [network.add_node(el)] for a fresh object; returns its reference. *)
Definition add_node (g : DiGraph) (el : element) : DiGraph * nat :=
  ({| g_nodes := g_nodes g ++ [el]; g_edges := g_edges g |}, length (g_nodes g)).

Fixpoint set_edge (es : list (nat * nat * Q)) (u v : nat) (w : Q) : list (nat * nat * Q) :=
  match es with
  | [] => [(u, v, w)]
  | (u', v', w') :: rest =>
      if Nat.eqb u u' && Nat.eqb v v' then (u', v', w) :: rest
      else (u', v', w') :: set_edge rest u v w
  end.

(** [network.add_edge(u, v, weight=w)] *)
Definition add_edge (g : DiGraph) (u v : nat) (w : Q) : DiGraph :=
  {| g_nodes := g_nodes g; g_edges := set_edge (g_edges g) u v w |}.

Definition node_at (g : DiGraph) (r : nat) : result element :=
  match nth_error (g_nodes g) r with
  | Some n => Ok n
  | None => Raise (KeyError "node")
  end.

Fixpoint update_nth {A} (l : list A) (i : nat) (f : A -> A) : list A :=
  match l, i with
  | [], _ => []
  | a :: l', O => f a :: l'
  | a :: l', S i' => a :: update_nth l' i' f
  end.

Definition predecessors (g : DiGraph) (n : nat) : list nat :=
  map (fun e => fst (fst e)) (filter (fun e => Nat.eqb (snd (fst e)) n) (g_edges g)).

Definition successors (g : DiGraph) (n : nat) : list nat :=
  map (fun e => snd (fst e)) (filter (fun e => Nat.eqb (fst (fst e)) n) (g_edges g)).

(** [network.edges()]: node by node, each node's out-edges in turn. *)
Definition edges (g : DiGraph) : list (nat * nat) :=
  flat_map (fun u => map (fun v => (u, v)) (successors g u)) (seq 0 (length (g_nodes g))).

(** [next(iter(l))] *)
Definition next {A} (l : list A) : result A :=
  match l with
  | x :: _ => Ok x
  | [] => Raise StopIteration
  end.

Definition equipment := odict (odict pyobj).

(* ================================================================== *)
(** ** The network loader *)

Module Loader.
Section Load.

(** [n.metadata['location']] of a node built without metadata: decided
    by the element classes, which are not in the source tree. *)
Variable default_location : result Location.

Definition location_of (n : element) : result Location :=
  match metadata n with
  | Some l => Ok l
  | None => default_location
  end.

(** [_optional_float(yangish, key, default)] *)
Definition _optional_float (yangish : yang) (key : string) (default : option Q)
  : result (option Q) :=
  p <- yang_in key yangish ;;
  if p then q <- member_float yangish key ;; Ok (Some q) else Ok default.

(** The members of a node of the topology module.  The schema library
    finds a member under its name written with or without the prefix of
    the module: [loc['x']] and [loc['tip-photonic-topology:x']] are one
    member, however the document spells it. *)
Definition local_name (name : string) : string :=
  if String.prefix "tip-photonic-topology:" name
  then String.substring 22 (String.length name - 22) name
  else name.

Definition find_member (ms : odict yang) (name : string) : option yang :=
  match dict_get ms (local_name name) with
  | Some v => Some v
  | None => dict_get ms ("tip-photonic-topology:" ++ local_name name)
  end.

(** [key in loc] *)
Definition topology_in (key : string) (loc : yang) : result bool :=
  match loc with
  | YObj ms => Ok (match find_member ms key with Some _ => true | None => false end)
  | YArr _ => Ok false
  | _ => Raise InstanceValueError
  end.

(** [float(loc[key].value)] *)
Definition topology_float (loc : yang) (key : string) : result Q :=
  match loc with
  | YObj ms =>
      match find_member ms key with
      | Some v => yang_float v
      | None => Raise (NonexistentInstance key)
      end
  | _ => Raise InstanceValueError
  end.

Definition read_location (node : yang) : result (option Location) :=
  g <- yang_in "tip-photonic-topology:geo-location" node ;;
  if g then
    loc <- yang_member node "tip-photonic-topology:geo-location" ;;
    hx <- topology_in "x" loc ;;
    hy <- (if hx then topology_in "y" loc else Ok false) ;;
    if hx && hy then
      lon <- topology_float loc "tip-photonic-topology:x" ;;
      lat <- topology_float loc "tip-photonic-topology:y" ;;
      Ok (Some {| latitude := lat; longitude := lon |})
    else Ok None
  else Ok None.

(** [elements.Roadm(uid, type_variety, metadata, params)]: the parameters
    of a Roadm keep the target power of its equipment record and start
    with an empty per-degree map. *)
Definition new_Roadm (uid type_variety : string) (md : option Location)
           (params : pyobj) : result element :=
  target <- dict_item params "target_pch_out_db" ;;
  Ok (Roadm uid (Some type_variety)
            {| target_pch_out_db := target; per_degree_pch_out_db := [] |} md).

Definition unrecognized_node (node : yang) : exn :=
  ValueErrorAbout "Internal error: unrecognized network node" node.
Definition unrecognized_link (link : yang) : exn :=
  ValueErrorAbout "Internal error: unrecognized network link" link.

(** The body of the loop over the nodes (lines 287-342), up to the
    element it builds. *)
Definition load_node (equipment : equipment) (node : yang) : result element :=
  uid <- member_str node "node-id" ;;
  location <- read_location node ;;
  let metadata := location in
  a <- yang_in "tip-photonic-topology:amplifier" node ;;
  if a then
    amp <- yang_member node "tip-photonic-topology:amplifier" ;;
    type_variety <- member_str amp "model" ;;
    edfas <- dict_item equipment "Edfa" ;;
    spec <- dict_item edfas type_variety ;;
    let params := spec in
    gain_target <- _optional_float amp "gain-target" None ;;
    tilt_target <- _optional_float amp "tilt-target" (Some 0) ;;
    out_voa <- _optional_float amp "out-voa-target" None ;;
    delta_p <- _optional_float amp "delta-p" None ;;
    Ok (Edfa uid (Some type_variety) params metadata
             {| gain_target := gain_target; tilt_target := tilt_target;
                out_voa := out_voa; delta_p := delta_p |})
  else
  r <- yang_in "tip-photonic-topology:roadm" node ;;
  if r then
    roadm <- yang_member node "tip-photonic-topology:roadm" ;;
    type_variety <- member_str roadm "model" ;;
    roadms <- dict_item equipment "Roadm" ;;
    spec <- dict_item roadms type_variety ;;
    let params := spec in
    new_Roadm uid type_variety location params
  else
  t <- yang_in "tip-photonic-topology:transceiver" node ;;
  if t then
    txp <- yang_member node "tip-photonic-topology:transceiver" ;;
    type_variety <- member_str txp "model" ;;
    Ok (Transceiver uid (Some type_variety) location)
  else
  f <- yang_in "tip-photonic-topology:attenuator" node ;;
  if f then
    att <- yang_member node "tip-photonic-topology:attenuator" ;;
    loss <- _optional_float att "attenuation" None ;;
    Ok (Fused uid loss)
  else Raise (unrecognized_node node).

(** The locals of [_load_network] that outlive a loop. *)
Record locals := {
  network : DiGraph;
  nodes : odict nat;                  (* uid -> the object of that uid *)
  fiber : option yang }.              (* unbound until a fiber link is seen *)

(** [network.add_node(el); nodes[el.uid] = el] *)
Definition register (st : locals) (el : element) : locals :=
  let '(g, r) := add_node (network st) el in
  {| network := g; nodes := dict_set (nodes st) (uid el) r; fiber := fiber st |}.

Fixpoint load_nodes (equipment : equipment) (l : list yang) (st : locals) : result locals :=
  match l with
  | [] => Ok st
  | node :: rest =>
      el <- load_node equipment node ;;
      load_nodes equipment rest (register st el)
  end.

(** [nodes[uid]], the object itself. *)
Definition node_named (st : locals) (uid : string) : result element :=
  r <- dict_item (nodes st) uid ;; node_at (network st) r.

Definition link_ends (link : yang) : result (string * string) :=
  s <- yang_member link "source" ;;
  source <- member_str s "source-node" ;;
  d <- yang_member link "destination" ;;
  target <- member_str d "dest-node" ;;
  Ok (source, target).

(** First pass over the links (lines 347-380): the Fiber nodes. *)
Definition create_fiber (equipment : equipment) (link : yang) (st : locals)
  : result locals :=
  '(source, target) <- link_ends link ;;
  f <- yang_in "tip-photonic-topology:fiber" link ;;
  if f then
    fiber <- yang_member link "tip-photonic-topology:fiber" ;;
    length <- member_float fiber "length" ;;
    loss_coef <- member_float fiber "loss-per-km" ;;
    att_in <- member_float fiber "attenuation-in" ;;
    con_in <- member_float fiber "conn-att-in" ;;
    con_out <- member_float fiber "conn-att-out" ;;
    fibers <- dict_item equipment "Fiber" ;;
    type <- member_str fiber "type" ;;
    specs <- dict_item fibers type ;;
    dispersion <- getattr specs "dispersion" ;;
    gamma <- getattr specs "gamma" ;;
    pmd_coef <- getattr specs "pmd_coef" ;;
    s <- node_named st source ;; ls <- location_of s ;;
    t <- node_named st target ;; lt <- location_of t ;;
    let lat := (latitude ls + latitude lt) / 2 in
    s <- node_named st source ;; ls <- location_of s ;;
    t <- node_named st target ;; lt <- location_of t ;;
    let lon := (longitude ls + longitude lt) / 2 in
    let location := {| latitude := lat; longitude := lon |} in
    uid <- member_str link "link-id" ;;
    type_variety <- member_str fiber "type" ;;
    (* length_units is 'km': the element keeps the length in metres *)
    let el := Fiber uid (Some type_variety)
                    {| length_m := length * 1000; loss_coef := loss_coef;
                       att_in := att_in; con_in := con_in; con_out := con_out;
                       dispersion := dispersion; gamma := gamma;
                       pmd_coef := pmd_coef |}
                    (Some location) in
    let st' := register st el in
    Ok {| network := network st'; nodes := nodes st'; fiber := Some fiber |}
  else
  p <- yang_in "tip-photonic-topology:patch" link ;;
  if p then Ok st
  else Raise (unrecognized_link link).

Fixpoint create_fibers (equipment : equipment) (l : list yang) (st : locals)
  : result locals :=
  match l with
  | [] => Ok st
  | link :: rest =>
      st' <- create_fiber equipment link st ;;
      create_fibers equipment rest st'
  end.

(** [nodes[source].params.per_degree_pch_out_db[target] = power] *)
Definition set_per_degree (target : string) (power : Q) (n : element) : element :=
  match n with
  | Roadm u t p m =>
      Roadm u t {| target_pch_out_db := target_pch_out_db p;
                   per_degree_pch_out_db :=
                     dict_set (per_degree_pch_out_db p) target (VFloat power) |} m
  | _ => n
  end.

(** Second pass over the links (lines 383-395): the edges.  [fiber] is
    the local the first pass left behind. *)
Definition add_link (link : yang) (st : locals) : result locals :=
  '(source, target) <- link_ends link ;;
  f <- yang_in "tip-photonic-topology:fiber" link ;;
  if f then
    this_node <- member_str link "link-id" ;;
    u <- dict_item (nodes st) source ;;
    v <- dict_item (nodes st) this_node ;;
    fiber_ <- match fiber st with
              | Some x => Ok x
              | None => Raise (UnboundLocalError "fiber")
              end ;;
    w <- member_float fiber_ "length" ;;
    let g := add_edge (network st) u v w in
    v <- dict_item (nodes st) this_node ;;
    t <- dict_item (nodes st) target ;;
    let g := add_edge g v t (1 # 100) in
    Ok {| network := g; nodes := nodes st; fiber := fiber st |}
  else
  p <- yang_in "tip-photonic-topology:patch" link ;;
  if p then
    u <- dict_item (nodes st) source ;;
    t <- dict_item (nodes st) target ;;
    let g := add_edge (network st) u t (1 # 100) in
    patch <- yang_member link "tip-photonic-topology:patch" ;;
    has <- yang_in "roadm-target-egress-per-channel-power" patch ;;
    if has then
      per_degree_power <- member_float patch "roadm-target-egress-per-channel-power" ;;
      src <- node_at g u ;;
      match src with
      | Roadm _ _ _ _ =>
          Ok {| network := {| g_nodes := update_nth (g_nodes g) u
                                            (set_per_degree target per_degree_power);
                              g_edges := g_edges g |};
                nodes := nodes st; fiber := fiber st |}
      | _ => Raise (AttributeError "per_degree_pch_out_db")
      end
    else Ok {| network := g; nodes := nodes st; fiber := fiber st |}
  else Ok st.

Fixpoint add_links (l : list yang) (st : locals) : result locals :=
  match l with
  | [] => Ok st
  | link :: rest => st' <- add_link link st ;; add_links rest st'
  end.

(** The body of the loop over the networks. *)
Definition load_net (equipment : equipment) (net : yang) (st : locals) : result locals :=
  has_types <- yang_in "network-types" net ;;
  if negb has_types then Ok st else
  types <- yang_member net "network-types" ;;
  photonic <- yang_in "tip-photonic-topology:photonic-topology" types ;;
  if negb photonic then Ok st else
  ns <- yang_member net "ietf-network:node" ;;
  ns <- yang_iter ns ;;
  st <- load_nodes equipment ns st ;;
  links <- yang_member net "ietf-network-topology:link" ;;
  links <- yang_iter links ;;
  st <- create_fibers equipment links st ;;
  links <- yang_member net "ietf-network-topology:link" ;;
  links <- yang_iter links ;;
  add_links links st.

Fixpoint load_nets (equipment : equipment) (l : list yang) (st : locals) : result locals :=
  match l with
  | [] => Ok st
  | net :: rest => st' <- load_net equipment net st ;; load_nets equipment rest st'
  end.

Definition _load_network (data : yang) (equipment : equipment) : result DiGraph :=
  networks <- yang_member data "ietf-network:networks" ;;
  nets <- yang_member networks "ietf-network:network" ;;
  nets <- yang_iter nets ;;
  st <- load_nets equipment nets
          {| network := empty_graph; nodes := []; fiber := None |} ;;
  Ok (network st).

End Load.
End Loader.

(* ================================================================== *)
(** ** The topology serializer *)

Module Store.

(** [_json_yang_link(uid, source, destination, extra)] *)
Definition _json_yang_link (uid source destination : string)
           (extra : list (string * yang)) : yang :=
  let link := [("link-id", YStr uid);
               ("source", YObj [("source-node", YStr source)]);
               ("destination", YObj [("dest-node", YStr destination)])] in
  YObj (fold_left (fun d kv => dict_set d (fst kv) (snd kv)) extra link).

Definition str_opt (o : option Q) : yang := py_str (opt_float o).

(** What the pass over the nodes appends, and to which list. *)
Inductive emitted : Type :=
| ToNodes (entry : yang)
| ToLinks (entry : yang).

Definition optional_leaf (name : string) (o : option Q) : list (string * yang) :=
  match o with
  | Some q => [(name, YDec q)]
  | None => []
  end.

(** The text of [{n!s}] is decided by the element classes; the uid
    stands for it. *)
Definition no_type_variety (n : element) : exn :=
  NetworkTopologyError ("Legacy JSON doesn't specify type_variety for " ++ uid n).
Definition unhandled_node (n : element) : exn :=
  NotImplementedError ("Internal error: unhandled node " ++ uid n).

(** [n.type_variety] *)
Definition get_type_variety (n : element) : result string :=
  match type_variety n with
  | Some t => Ok t
  | None => Raise (AttributeError "type_variety")
  end.

(** The body of the loop over [network.nodes()] (lines 564-626) for the
    node [n], the object at position [i]: the node as the body leaves it,
    and what it appends. *)
Definition store_node (equipment : equipment) (network : DiGraph) (i : nat)
           (n : element) : element * result emitted :=
  match n with
  | Transceiver u None md =>
      match (txps <- dict_item equipment "Transceiver" ;; next (dict_keys txps)) with
      | Raise e => (n, Raise e)
      | Ok first =>
          (Transceiver u (Some first) md,
           Ok (ToNodes (YObj [("node-id", YStr u);
                              ("tip-photonic-topology:transceiver",
                               YObj [("model", YStr first)])])))
      end
  | Transceiver u (Some t) md =>
      (n, Ok (ToNodes (YObj [("node-id", YStr u);
                             ("tip-photonic-topology:transceiver",
                              YObj [("model", YStr t)])])))
  | Edfa u _ _ _ op =>
      (n,
       t <- get_type_variety n ;;
       let amp_data :=
         [("model", YStr t)]
           ++ optional_leaf "gain-target" (gain_target op)
           ++ optional_leaf "delta-p" (delta_p op)
           ++ optional_leaf "tilt-target" (tilt_target op)
           ++ optional_leaf "out-voa-target" (out_voa op) in
       Ok (ToNodes (YObj [("node-id", YStr u);
                          ("tip-photonic-topology:amplifier", YObj amp_data)])))
  | Roadm u None _ _ => (n, Raise (no_type_variety n))
  | Roadm u (Some t) p _ =>
      (n, Ok (ToNodes (YObj [("node-id", YStr u);
                             ("tip-photonic-topology:roadm",
                              YObj [("model", YStr t);
                                    ("target-egress-per-channel-power",
                                     py_str (target_pch_out_db p))])])))
  | Fused u loss =>
      (n, Ok (ToNodes (YObj [("node-id", YStr u);
                             ("tip-photonic-topology:attenuator",
                              YObj [("attenuation", str_opt loss)])])))
  | Fiber u _ p _ =>
      (n,
       ingress <- next (predecessors network i) ;;
       ingress_node <- node_at network ingress ;;
       egress <- next (successors network i) ;;
       egress_node <- node_at network egress ;;
       t <- get_type_variety n ;;
       let specific :=
         [("tip-photonic-topology:fiber",
           YObj [("type", YStr t);
                 ("length", YDec (length_m p * (1 # 1000)));
                 ("attenuation-in", YDec (att_in p));
                 ("conn-att-in", YDec (con_in p));
                 ("conn-att-out", YDec (con_out p))])] in
       Ok (ToLinks (_json_yang_link u (uid ingress_node) (uid egress_node) specific)))
  | Unhandled _ => (n, Raise (unhandled_node n))
  end.

(** The loop over the nodes.  [todo] are the nodes from position [i] on;
    the first component is [todo] as the loop leaves it. *)
Fixpoint store_nodes (equipment : equipment) (network : DiGraph) (i : nat)
         (todo : list element) (nodes links : list yang)
  : list element * result (list yang * list yang) :=
  match todo with
  | [] => ([], Ok (nodes, links))
  | n :: rest =>
      let '(n', r) := store_node equipment network i n in
      match r with
      | Raise e => (n' :: rest, Raise e)
      | Ok (ToNodes entry) =>
          let '(rest', r') :=
            store_nodes equipment network (S i) rest (nodes ++ [entry]) links in
          (n' :: rest', r')
      | Ok (ToLinks entry) =>
          let '(rest', r') :=
            store_nodes equipment network (S i) rest nodes (links ++ [entry]) in
          (n' :: rest', r')
      end
  end.

Definition fiber_to_fiber (a b : element) : exn :=
  NetworkTopologyError ("Fiber connected to a Fiber: " ++ uid a ++ ", " ++ uid b).

(** The patch link of an edge between two nodes neither of which is a
    Fiber (lines 638-644). *)
Definition patch_link (a b : element) : yang :=
  let patch :=
    match a with
    | Roadm _ _ p _ =>
        let per_degree_powers := per_degree_pch_out_db p in
        let next_node_name := uid b in
        [("roadm-target-egress-per-channel-power",
          py_str (match dict_get per_degree_powers next_node_name with
                  | Some v => v
                  | None => target_pch_out_db p
                  end))]
    | _ => []
    end in
  _json_yang_link ("patch{" ++ uid a ++ ", " ++ uid b ++ "}") (uid a) (uid b)
                  [("tip-photonic-topology:patch", YObj patch)].

(** The loop over [network.edges()] (lines 628-644). *)
Fixpoint store_edges (network : DiGraph) (es : list (nat * nat)) (links : list yang)
  : result (list yang) :=
  match es with
  | [] => Ok links
  | (u, v) :: rest =>
      a <- node_at network u ;;
      b <- node_at network v ;;
      if is_Fiber a then
        if is_Fiber b then Raise (fiber_to_fiber a b)
        else store_edges network rest links
      else if is_Fiber b then store_edges network rest links
      else store_edges network rest (links ++ [patch_link a b])
  end.

(** [_store_topology(raw, equipment, network)]: the network as the call
    leaves it, and the value it stores under ['ietf-network:networks']. *)
Definition _store_topology (equipment : equipment) (network : DiGraph)
  : DiGraph * result yang :=
  let '(ns, r) := store_nodes equipment network 0 (g_nodes network) [] [] in
  let network' := {| g_nodes := ns; g_edges := g_edges network |} in
  (network',
   '(nodes, links) <- r ;;
   links <- store_edges network' (edges network') links ;;
   Ok (YObj [("network",
              YArr [YObj [("network-id", YStr "GNPy");
                          ("network-types",
                           YObj [("tip-photonic-topology:photonic-topology", YObj [])]);
                          ("node", YArr nodes);
                          ("ietf-network-topology:link", YArr links)]])])).

End Store.

Import Spectrum.
Import Edfa_type.
Import Loader.
Import Store.

(* ================================================================== *)
(** * The vocabulary of the properties, and the inputs of the examples *)

Definition freq_le (p q : Z * Q) : Prop := (fst p <= fst q)%Z.

Definition freq_lt (p q : Z * Q) : Prop := (fst p < fst q)%Z.

(** The interpolant read from the spec's words: on the segment from
    [(xa, ya)] to [(xb, yb)] the value at [x] lies on the straight line. *)
Definition lerp (a b : Z * Q) (x : Z) : Q :=
  snd a + (snd b - snd a) * (inject_Z (x - fst a) / inject_Z (fst b - fst a)).

(** A gain-ripple list of two samples, given out of order. *)
Definition ripple_entry : yang :=
  YObj [("type", YStr "amp");
        ("gain-ripple",
         YArr [YObj [("frequency", YInt 196000000000000); ("gain-ripple", YDec 2)];
               YObj [("frequency", YInt 191300000000000); ("gain-ripple", YDec 1)]])].

Definition single_point_entry : yang :=
  YObj [("type", YStr "amp");
        ("nf-ripple",
         YArr [YObj [("frequency", YInt 193000000000000); ("nf-ripple", YDec (3 # 2))]])].

(** The number [float()] reads in a leaf: that of a decimal leaf or of
    an integer one. *)
Definition number_leaf (leaf : yang) (q : Q) : Prop :=
  leaf = YDec q \/ exists z, leaf = YInt z /\ q = inject_Z z.

(** The samples at one frequency. *)
Definition at_frequency (f : Z) (p : Z * Q) : bool := (fst p =? f)%Z.

(** The integer [f] is the number [q] without its fraction. *)
Definition truncated (q : Q) (f : Z) : Prop :=
  (0 <= q -> inject_Z f <= q /\ q < inject_Z f + 1) /\
  (q <= 0 -> inject_Z f - 1 < q /\ q <= inject_Z f).

(** An entry of a per-frequency list, and the sample it stands for: its
    frequency is an integer leaf or a decimal one, of which the fraction
    is dropped; its value is a decimal leaf or an integer one. *)
Definition sample_entry (key : string) (x : yang) (p : Z * Q) : Prop :=
  exists ms fl vl,
    x = YObj ms /\
    dict_get ms "frequency" = Some fl /\
    (fl = YInt (fst p) \/ exists q, fl = YDec q /\ truncated q (fst p)) /\
    dict_get ms key = Some vl /\ number_leaf vl (snd p).

(** A gain-ripple list of four samples out of order: one frequency is
    given with a fraction, one value as an integer, one frequency
    twice. *)
Definition decimal_ripple_entry : yang :=
  YObj [("type", YStr "amp");
        ("gain-ripple",
         YArr [YObj [("frequency", YInt 196000000000000); ("gain-ripple", YDec 2)];
               YObj [("frequency", YDec (1913000000000009 # 10)); ("gain-ripple", YInt 1)];
               YObj [("frequency", YInt 193000000000000); ("gain-ripple", YDec (3 # 2))];
               YObj [("frequency", YInt 193000000000000); ("gain-ripple", YDec 4)]])].

(** The noise-figure sub-structures, in the order the transform asks
    for them. *)
Definition nf_keys : list string :=
  [COMPOSITE; POLYNOMIAL_NF; OPENROADM_ILA; OPENROADM_PREAMP;
   OPENROADM_BOOSTER; MIN_MAX_NF; RAMAN_APPROX].

(** The sub-structures present in an entry. *)
Definition present_models (edfa : yang) : list string :=
  match edfa with
  | YObj ms => filter (dict_has ms) nf_keys
  | _ => []
  end.

Definition type_def_of (key : string) : string :=
  if String.eqb key COMPOSITE then "dual_stage"
  else if String.eqb key POLYNOMIAL_NF then "advanced_model"
  else if String.eqb key OPENROADM_ILA then "openroadm"
  else if String.eqb key OPENROADM_PREAMP then "openroadm_preamp"
  else if String.eqb key OPENROADM_BOOSTER then "openroadm_booster"
  else if String.eqb key MIN_MAX_NF then "variable_gain"
  else "advanced_model".

Definition common_leaves : list (string * yang) :=
  [("type", YStr "amp");
   ("gain-min", YDec 15);
   ("gain-flatmax", YDec 25);
   ("frequency-min", YDec (1913 # 10));
   ("frequency-max", YDec (1961 # 10));
   ("max-power-out", YDec 21)].

(** An entry with two noise-figure sub-structures. *)
Definition two_models_entry : yang :=
  YObj (common_leaves ++
        [("min-max-NF", YObj [("nf-min", YDec 5); ("nf-max", YDec 8)]);
         ("polynomial-NF",
          YObj [("a", YDec 0); ("b", YDec 0); ("c", YDec 0); ("d", YDec 6)])]).

(** An entry with none. *)
Definition no_model_entry : yang := YObj common_leaves.

(** The claim as the spec words it: unless exactly one sub-structure is
    present, the transform raises the unrecognized-model error. *)
Definition exactly_one_model_enforced : Prop :=
  forall est edfa,
    length (present_models edfa) <> 1%nat ->
    exists msg, _transform_edfa est edfa = Raise (NotImplementedError msg).

(** A run of assignments [d[k] = v]. *)
Definition assign {V : Type} (l : list (string * V)) (d : odict V) : odict V :=
  fold_left (fun d kv => dict_set d (fst kv) (snd kv)) l d.

(** The table with the object under [name] replaced by its image. *)
Fixpoint update_entry (amps : amp_table) (name : string) (f : pyobj -> pyobj)
  : amp_table :=
  match amps with
  | [] => []
  | (n, o) :: rest =>
      if String.eqb name n then (n, f o) :: rest
      else (n, o) :: update_entry rest name f
  end.

(** The attributes of [d] under their prefixed names. *)
Definition prefixed (prefix : string) (d : pyobj) : list (string * pyval) :=
  map (fun kv => ((prefix ++ fst kv)%string, snd kv)) d.

Definition DSM := "dual_stage_model".

(** What the resolver adds to a composite whose stages are [A] and [B]. *)
Definition enrich (A B : pyobj) (o : pyobj) : pyobj :=
  assign (prefixed "booster_" B) (assign (prefixed "preamp_" A) o).

(** A record that is not a composite. *)
Definition plain (o : pyobj) : Prop := getattr o DSM = Ok VNone.

(** A record that is not a composite, or a composite whose two stages are
    entries of the table that are not composites. *)
Definition flat_entry (amps : amp_table) (o : pyobj) : Prop :=
  plain o \/
  exists p b A B,
    getattr o DSM = Ok (Model_dual_stage p b) /\
    dict_get amps p = Some A /\ plain A /\
    dict_get amps b = Some B /\ plain B.

Definition flat_table (amps : amp_table) : Prop :=
  forall n o, In (n, o) amps -> flat_entry amps o /\ NoDup (dict_keys o).

(** The record the resolver makes of [o], read off the table [amps]. *)
Definition resolve (amps : amp_table) (o : pyobj) : pyobj :=
  match getattr o DSM with
  | Ok (Model_dual_stage p b) =>
      match dict_get amps p, dict_get amps b with
      | Some A, Some B => enrich A B o
      | _, _ => o
      end
  | _ => o
  end.

Definition resolve_entry (amps : amp_table) (e : string * pyobj) : string * pyobj :=
  (fst e, resolve amps (snd e)).

Definition resolved (amps : amp_table) : amp_table := map (resolve_entry amps) amps.

(** An entry the resolver gets past: not a composite, or a composite of
    two other entries of the table [amps]. *)
Definition resolvable (amps : amp_table) (e : string * pyobj) : Prop :=
  plain (snd e) \/
  exists p b,
    getattr (snd e) DSM = Ok (Model_dual_stage p b) /\
    In p (dict_keys amps) /\ In b (dict_keys amps) /\
    p <> fst e /\ b <> fst e.

(** The entry [e'] is under the name of [e], and is [e] itself when [e]
    is not a composite. *)
Definition kept (e e' : string * pyobj) : Prop :=
  fst e' = fst e /\ (plain (snd e) -> e' = e).

(** The entry [e'] is what the resolver has made of the entry [e] of
    the table [amps] once it is past it: [e] itself when [e] is not a
    composite, and [e] with the attributes of its two stages when these
    are entries of the table that are not composites. *)
Definition settled (amps : amp_table) (e e' : string * pyobj) : Prop :=
  fst e' = fst e /\
  (plain (snd e) -> e' = e) /\
  (forall p b A B,
      getattr (snd e) DSM = Ok (Model_dual_stage p b) ->
      dict_get amps p = Some A -> plain A ->
      dict_get amps b = Some B -> plain B ->
      snd e' = enrich A B (snd e)).

(** The entries [todo] once the resolver is past them, one after the
    other: each is resolved against the table as it is when its turn
    comes, with the entries [before] it as they were left and those
    [after] it as they were given. *)
Fixpoint enrich_in_turn (before todo after : amp_table) : amp_table :=
  match todo with
  | [] => before
  | (n, o) :: todo' =>
      enrich_in_turn (before ++ [(n, resolve (before ++ (n, o) :: todo' ++ after) o)])
                     todo' after
  end.

Definition fixed_gain (name : string) (nf0 : Q) : pyobj :=
  [("type_variety", VStr name); ("type_def", VStr "fixed_gain");
   ("nf_model", Model_fg nf0); ("dual_stage_model", VNone)].

Definition composite (name preamp booster : string) : pyobj :=
  [("type_variety", VStr name); ("type_def", VStr "dual_stage");
   ("dual_stage_model", Model_dual_stage preamp booster)].

(** The table of the spec's scenario: A and B of fixed noise figure 5
    and 6, and C their composite. *)
Definition abc_table : amp_table :=
  [("A", fixed_gain "A" 5); ("B", fixed_gain "B" 6); ("C", composite "C" "A" "B")].

(** A table whose second composite names a booster that does not exist. *)
Definition dangling_table : amp_table :=
  [("C1", composite "C1" "A" "B");
   ("C2", composite "C2" "A" "missing");
   ("A", fixed_gain "A" 5);
   ("B", fixed_gain "B" 6)].

(** The claim as the spec words it: on an unresolved reference the
    resolver raises and every other entry is as it was. *)
Definition unresolved_leaves_others_unchanged : Prop :=
  forall amps name amp p b,
    dict_get amps name = Some amp ->
    getattr amp DSM = Ok (Model_dual_stage p b) ->
    (dict_get amps p = None \/ dict_get amps b = None) ->
    exists amps' e,
      _fixup_dual_stage amps = (amps', Raise e) /\
      forall n, n <> name -> dict_get amps' n = dict_get amps n.

(** The sub-structures that decide the variant of a node, in the order
    the loader asks for them. *)
Definition node_kinds : list string :=
  ["tip-photonic-topology:amplifier"; "tip-photonic-topology:roadm";
   "tip-photonic-topology:transceiver"; "tip-photonic-topology:attenuator"].

Definition present_kinds (node : yang) : list string :=
  match node with
  | YObj ms => filter (dict_has ms) node_kinds
  | _ => []
  end.

Definition variant_for (key : string) : variant :=
  if String.eqb key "tip-photonic-topology:amplifier" then IsEdfa
  else if String.eqb key "tip-photonic-topology:roadm" then IsRoadm
  else if String.eqb key "tip-photonic-topology:transceiver" then IsTransceiver
  else IsFused.

Definition library : equipment :=
  [("Edfa", [("std_gain", Amp [("type_variety", VStr "std_gain");
                                ("dual_stage_model", VNone)])]);
   ("Fiber", [("SSMF", [("type_variety", VStr "SSMF");
                        ("dispersion", VFloat (167 # 10000000));
                        ("gamma", VFloat (127 # 100000));
                        ("pmd_coef", VFloat (1 # 1000))])]);
   ("Roadm", [("roadm", [("target_pch_out_db", VFloat (-20));
                         ("add_drop_osnr", VFloat 38);
                         ("pmd", VFloat 0)])]);
   ("Transceiver", [("vendorA_trx-type1", [("type_variety", VStr "vendorA_trx-type1")])])].

Definition roadm_node (name : string) : yang :=
  YObj [("node-id", YStr name);
        ("tip-photonic-topology:roadm", YObj [("model", YStr "roadm")])].

Definition fiber_link (name source target : string) (len : Q) : yang :=
  YObj [("link-id", YStr name);
        ("source", YObj [("source-node", YStr source)]);
        ("destination", YObj [("dest-node", YStr target)]);
        ("tip-photonic-topology:fiber",
         YObj [("type", YStr "SSMF");
               ("length", YDec len);
               ("loss-per-km", YDec (2 # 10));
               ("attenuation-in", YDec 0);
               ("conn-att-in", YDec 0);
               ("conn-att-out", YDec 0)])].

Definition topology (nodes links : list yang) : yang :=
  YObj [("ietf-network:networks",
         YObj [("ietf-network:network",
                YArr [YObj [("network-id", YStr "GNPy");
                            ("network-types",
                             YObj [("tip-photonic-topology:photonic-topology", YObj [])]);
                            ("ietf-network:node", YArr nodes);
                            ("ietf-network-topology:link", YArr links)]])])].

(** Two ROADMs joined by a fiber of length 80 one way and a fiber of
    length 50 the other way. *)
Definition two_fibers : yang :=
  topology [roadm_node "X"; roadm_node "Y"]
           [fiber_link "F1" "X" "Y" 80; fiber_link "F2" "Y" "X" 50].

Definition origin : Location := {| latitude := 0; longitude := 0 |}.

(** A node with both an amplifier and a roadm sub-structure. *)
Definition amplifier_and_roadm : yang :=
  YObj [("node-id", YStr "N");
        ("tip-photonic-topology:amplifier", YObj [("model", YStr "std_gain")]);
        ("tip-photonic-topology:roadm", YObj [("model", YStr "roadm")])].

(** The coordinate of a geo-location under a name, spelled with or
    without the prefix of the module. *)
Definition coordinate (g : odict yang) (name : string) (q : Q) : Prop :=
  exists leaf,
    (dict_get g name = Some leaf \/
     (dict_get g name = None /\
      dict_get g ("tip-photonic-topology:" ++ name) = Some leaf)) /\
    number_leaf leaf q.

(** A geo-location without the coordinate of a name, under either
    spelling. *)
Definition no_coordinate (g : odict yang) (name : string) : Prop :=
  dict_get g name = None /\ dict_get g ("tip-photonic-topology:" ++ name) = None.

(** A ROADM with its place, the coordinates spelled the one way and the
    other. *)
Definition located_roadm : yang :=
  YObj [("node-id", YStr "R");
        ("tip-photonic-topology:geo-location",
         YObj [("x", YDec (1442 # 100)); ("tip-photonic-topology:y", YInt 50)]);
        ("tip-photonic-topology:roadm", YObj [("model", YStr "roadm")])].

(** The claim as the spec words it: two or more of the sub-structures
    make the loader raise. *)
Definition node_exclusivity_enforced : Prop :=
  forall equipment node,
    (2 <= length (present_kinds node))%nat ->
    exists e, load_node equipment node = Raise e.

Definition bare_node : yang := YObj [("node-id", YStr "N")].


Definition count_fibers (l : list element) : nat := length (filter is_Fiber l).

(** The ends of an edge, as objects. *)
Definition edge_ends (network : DiGraph) (e : nat * nat) : result (element * element) :=
  a <- node_at network (fst e) ;; b <- node_at network (snd e) ;; Ok (a, b).

Definition fiber_pair (ab : element * element) : bool :=
  is_Fiber (fst ab) && is_Fiber (snd ab).

Definition patch_pair (ab : element * element) : bool :=
  negb (is_Fiber (fst ab)) && negb (is_Fiber (snd ab)).

(** Every edge leads to a node of the graph. *)
Definition closed_graph (g : DiGraph) : Prop :=
  forall u v w, In (u, v, w) (g_edges g) -> (v < length (g_nodes g))%nat.

(** The type a Transceiver without one is given. *)
Definition with_default_type (first : string) (n : element) : element :=
  match n with
  | Transceiver u None md => Transceiver u (Some first) md
  | _ => n
  end.

Definition roadm_el (name : string) : element :=
  Roadm name (Some "roadm")
        {| target_pch_out_db := VFloat (-20); per_degree_pch_out_db := [] |} None.

Definition ssmf_80km : FiberParams :=
  {| length_m := 80000; loss_coef := 2 # 10; att_in := 0; con_in := 0; con_out := 0;
     dispersion := VFloat (167 # 10000000); gamma := VFloat (127 # 100000);
     pmd_coef := VFloat (1 # 1000) |}.

Definition fiber_el (name : string) : element := Fiber name (Some "SSMF") ssmf_80km None.

Definition edge (u v : nat) (w : Q) : nat * nat * Q := (u, v, w).

(** A Fiber node F with two predecessors, X and Y, and the successor Z. *)
Definition merging_fiber : DiGraph :=
  {| g_nodes := [roadm_el "X"; roadm_el "Y"; roadm_el "Z"; fiber_el "F"];
     g_edges := [edge 0 3 80; edge 1 3 80; edge 3 2 (1 # 100)] |}.


(** X - F1 - F2 - Y: an edge from a Fiber to a Fiber. *)
Definition fiber_chain : DiGraph :=
  {| g_nodes := [roadm_el "X"; fiber_el "F1"; fiber_el "F2"; roadm_el "Y"];
     g_edges := [edge 0 1 80; edge 1 2 (1 # 100); edge 2 3 (1 # 100)] |}.

(** Two ROADMs and a transceiver joined by patch cords, and a fiber. *)
Definition patched : DiGraph :=
  {| g_nodes := [Transceiver "T" (Some "vendorA_trx-type1") None;
                 roadm_el "X"; fiber_el "F"; roadm_el "Y"];
     g_edges := [edge 0 1 (1 # 100); edge 1 2 80; edge 2 3 (1 # 100);
                 edge 1 3 (1 # 100)] |}.

(** A transceiver without a type, patched to a ROADM. *)
Definition untyped_transceiver : DiGraph :=
  {| g_nodes := [Transceiver "T" None None; roadm_el "X"];
     g_edges := [edge 0 1 (1 # 100)] |}.

(** An amplifier type with a polynomial noise-figure fit that is not
    allowed for automatic design. *)
Definition manual_amp : pyobj :=
  Amp [("type_variety", VStr "high_detail");
       ("type_def", VStr "advanced_model");
       ("f_min", VFloat 191350000000000);
       ("f_max", VFloat 196100000000000);
       ("gain_min", VFloat 15);
       ("gain_flatmax", VFloat 25);
       ("p_max", VFloat 21);
       ("nf_fit_coeff", VFloats [1 # 1000; 1 # 100; 1 # 10; 6]);
       ("nf_ripple", VFloats [0]);
       ("dgt", VFloats [0]);
       ("gain_ripple", VFloats [0]);
       ("out_voa_auto", VBool false);
       ("allowed_for_design", VBool false);
       ("raman", VBool false);
       ("nf_model", VNone);
       ("dual_stage_model", VNone)].

(* ================================================================== *)
(** * Further vocabulary *)

(** Some sample value is below [q] and some sample value is above it. *)
Definition within_samples (data : list (Z * Q)) (q : Q) : Prop :=
  exists lo hi, In lo (map snd data) /\ In hi (map snd data) /\ lo <= q /\ q <= hi.

(** The sub-structure the store writes for a record that was loaded from
    an entry whose first noise-figure sub-structure is [key]. *)
Definition stored_models_for (key : string) : list string :=
  if String.eqb key COMPOSITE then [COMPOSITE]
  else if String.eqb key POLYNOMIAL_NF then [POLYNOMIAL_NF]
  else if String.eqb key OPENROADM_ILA then [OPENROADM_ILA]
  else if String.eqb key OPENROADM_PREAMP then []
  else if String.eqb key OPENROADM_BOOSTER then []
  else if String.eqb key MIN_MAX_NF then [MIN_MAX_NF]
  else [POLYNOMIAL_NF].

(** An estimate of the variable-gain noise-figure model, for the examples. *)
Definition constant_estimate (name : string) (gain_min gain_max nf_min nf_max : Q)
  : result (Q * Q * Q) := Ok (nf_min, nf_max, 0).

(** An OpenROADM preamp, and the record the transform builds from it. *)
Definition preamp_entry : yang :=
  YObj (common_leaves ++ [("OpenROADM-preamp", YObj [])]).

Definition loaded_preamp : pyobj :=
  Amp [("type_variety", VStr "amp"); ("type_def", VStr "openroadm_preamp");
       ("f_min", VFloat ((1913 # 10) * THZ)); ("f_max", VFloat ((1961 # 10) * THZ));
       ("gain_min", VFloat 15); ("gain_flatmax", VFloat 25); ("p_max", VFloat 21);
       ("nf_fit_coeff", VNone); ("nf_ripple", VFloats [0]);
       ("dgt", VFloats [0]); ("gain_ripple", VFloats [0]);
       ("out_voa_auto", VNone); ("allowed_for_design", VBool true);
       ("raman", VBool false); ("nf_model", VNone); ("dual_stage_model", VNone)].

(** An attribute name that is not one of the prefixed names the resolver
    writes. *)
Definition own_attribute (a : string) : bool :=
  negb (String.prefix "preamp_" a) && negb (String.prefix "booster_" a).

(** The table [cur] has the entries of [amps], each with at least the
    attributes it had and with its own attributes unchanged. *)
Definition extends (amps cur : amp_table) : Prop :=
  dict_keys cur = dict_keys amps /\
  forall n o,
    dict_get amps n = Some o ->
    exists o',
      dict_get cur n = Some o' /\
      (forall a, In a (dict_keys o) -> In a (dict_keys o')) /\
      (forall a, own_attribute a = true -> dict_get o' a = dict_get o a).

(** The entries of [amps] that are not composites are in [cur] as they
    are. *)
Definition keeps_plain (amps cur : amp_table) : Prop :=
  forall n o, dict_get amps n = Some o -> plain o -> dict_get cur n = Some o.

(** The fiber sub-structure of a link, if it has one. *)
Definition fiber_of (link : yang) : option yang :=
  match link with
  | YObj ms => dict_get ms "tip-photonic-topology:fiber"
  | _ => None
  end.

Definition has_fiber (link : yang) : bool :=
  match fiber_of link with Some _ => true | None => false end.

(** The fiber sub-structure of the last link that has one, [init] when
    there is none. *)
Definition last_fiber (links : list yang) (init : option yang) : option yang :=
  fold_left (fun acc link => match fiber_of link with Some f => Some f | None => acc end)
            links init.

(** Every name of the map stands for a node of the graph with that
    name. *)
Definition indexed (st : locals) : Prop :=
  forall u r,
    dict_get (nodes st) u = Some r ->
    exists el, nth_error (g_nodes (network st)) r = Some el /\ uid el = u.

(** The locals after the nodes X and Y, two ROADMs, before any link. *)
Definition two_roadms : locals :=
  {| network := {| g_nodes := [roadm_el "X"; roadm_el "Y"]; g_edges := [] |};
     nodes := [("X", 0%nat); ("Y", 1%nat)];
     fiber := None |}.

(** A patch cord that sets the power of its source towards its target. *)
Definition patch_cord (name source target : string) (power : Q) : yang :=
  YObj [("link-id", YStr name);
        ("source", YObj [("source-node", YStr source)]);
        ("destination", YObj [("dest-node", YStr target)]);
        ("tip-photonic-topology:patch",
         YObj [("roadm-target-egress-per-channel-power", YDec power)])].

(** What one step of the second pass keeps and what it adds. *)
Definition second_pass_step (st st' : locals) : Prop :=
  fiber st' = fiber st /\ nodes st' = nodes st /\
  map uid (g_nodes (network st')) = map uid (g_nodes (network st)) /\
  map variant_of (g_nodes (network st')) = map variant_of (g_nodes (network st)) /\
  forall e, In e (g_edges (network st')) ->
            In e (g_edges (network st)) \/ snd e = 1 # 100 \/
            exists last, fiber st = Some last /\ member_float last "length" = Ok (snd e).

(** The operational settings as a reload gives them: a tilt that was
    not set comes back as 0. *)
Definition reloaded_operational (op : EdfaOperational) : EdfaOperational :=
  {| gain_target := gain_target op;
     tilt_target := Some (match tilt_target op with Some q => q | None => 0 end);
     out_voa := out_voa op;
     delta_p := delta_p op |}.

(** The only change the store makes to a node: a Transceiver without a
    type is given the first type of the library. *)
Definition typed_by (equipment : equipment) (n n' : element) : Prop :=
  n' = n \/
  exists u md t txps rest,
    n = Transceiver u None md /\ n' = Transceiver u (Some t) md /\
    dict_get equipment "Transceiver" = Some txps /\ dict_keys txps = t :: rest.

(** An amplifier node with a target gain and no tilt. *)
Definition booster_node : element :=
  Edfa "B" (Some "std_gain") [] None
       {| gain_target := Some 20; tilt_target := None;
          out_voa := None; delta_p := Some 1 |}.

(* ================================================================== *)
(** * Fiber, ROADM and transceiver types *)

(** Modelled from the spec: [gnpy.yang.conversion] is not in the source
    tree; "gigahertz -> hertz" of the unit table (section 2). *)
Definition GIGA : Q := 1000000000.

Module Ji.

(** Modelled from the spec: the record types of [gnpy.tools.json_io] are
    not in the source tree.  A fiber type ("Fiber type", section 3) is
    built from keyword arguments and carries them as its attributes; a
    Raman fiber type has in addition [raman_efficiency], the two
    sequences ['cr'] (the values as the schema library gave them) and
    ['frequency_offset'] (floats). *)
Inductive fiber : Type :=
| Fiber (attrs : pyobj)
| RamanFiber (attrs : pyobj) (cr : list yang) (frequency_offset : list Q).

Definition fiber_attrs (f : fiber) : pyobj :=
  match f with
  | Fiber a | RamanFiber a _ _ => a
  end.

(** Modelled from the spec: a ROADM type ("ROADM type", section 3) with
    its scalar attributes and [restrictions], the dictionary of the two
    lists of compatible amplifier types. *)
Record Roadm := {
  roadm_attrs : pyobj;
  restrictions : odict (list yang) }.

(** Modelled from the spec: a transceiver type ("Transceiver type",
    section 3): the frequency band and the ordered list of the modes,
    each a dictionary. *)
Record Transceiver := {
  type_variety : string;
  frequency : odict pyval;
  mode : list (odict pyval) }.

End Ji.

Module Fiber_type.
Section Factors.

(** The arithmetic of floats: the product and the quotient of two floats
    are the exact ones, rounded; the rounding is left open.  The scale
    factors below are not powers of two, and the quotient by one of them
    does not always undo the product by it. *)
Variable round64 : Q -> Q.

(** The scale factors of [gnpy.yang.conversion], which is not in the
    source tree; they are nonzero constants, so that no division by
    them fails. *)
Variables FIBER_DISPERSION FIBER_DISPERSION_SLOPE FIBER_GAMMA FIBER_PMD_COEF : Q.

Definition _extract_common_fiber (fiber : yang) : result (odict pyval) :=
  d <- member_float fiber "chromatic-dispersion" ;;
  s <- member_float fiber "chromatic-dispersion-slope" ;;
  g <- member_float fiber "gamma" ;;
  p <- member_float fiber "pmd-coefficient" ;;
  Ok [("dispersion", VFloat (round64 (d * FIBER_DISPERSION)));
      ("dispersion_slope", VFloat (round64 (s * FIBER_DISPERSION_SLOPE)));
      ("gamma", VFloat (round64 (g * FIBER_GAMMA)));
      ("pmd_coef", VFloat (round64 (p * FIBER_PMD_COEF)))].

Definition _transform_fiber (fiber : yang) : result Ji.fiber :=
  t <- member_str fiber "type" ;;
  common <- _extract_common_fiber fiber ;;
  Ok (Ji.Fiber (("type_variety", VStr t) :: common)).

(** [[f(x) for x in fiber['raman-efficiency']]] *)
Definition over_raman_efficiency {A} (f : yang -> result A) (fiber : yang)
  : result (list A) :=
  l <- yang_member fiber "raman-efficiency" ;;
  l <- yang_iter l ;;
  mapM f l.

Definition _transform_raman_fiber (fiber : yang) : result Ji.fiber :=
  t <- member_str fiber "type" ;;
  cr <- over_raman_efficiency (fun x => yang_member x "cr") fiber ;;
  frequency_offset <-
    over_raman_efficiency (fun x => member_float x "delta-frequency") fiber ;;
  common <- _extract_common_fiber fiber ;;
  Ok (Ji.RamanFiber (("type_variety", VStr t) :: common) cr frequency_offset).

(** One entry of ['raman-efficiency'], for a pair of [zip]. *)
Definition store_raman_entry (p : yang * Q) : result yang :=
  let '(cr, freq) := p in
  c <- yang_float cr ;;
  Ok (YObj [("delta-frequency", YDec (freq / THZ)); ("cr", YDec c)]).

Definition _store_equipment_fiber (name : string) (fiber : Ji.fiber) : result yang :=
  let o := Ji.fiber_attrs fiber in
  d <- getattr o "dispersion" ;; d <- float_of d ;;
  g <- getattr o "gamma" ;; g <- float_of g ;;
  p <- getattr o "pmd_coef" ;; p <- float_of p ;;
  let res := [("type", YStr name);
              ("chromatic-dispersion", YDec (round64 (d / FIBER_DISPERSION)));
              ("gamma", YDec (round64 (g / FIBER_GAMMA)));
              ("pmd-coefficient", YDec (round64 (p / FIBER_PMD_COEF)))] in
  res <- match getattr o "dispersion_slope" with
         | Ok s =>
             s <- float_of s ;;
             Ok (dict_set res "dispersion-slope"
                          (YDec (round64 (s / FIBER_DISPERSION_SLOPE))))
         | Raise (AttributeError _) => Ok res
         | Raise e => Raise e
         end ;;
  match fiber with
  | Ji.RamanFiber _ cr frequency_offset =>
      entries <- mapM store_raman_entry (combine cr frequency_offset) ;;
      Ok (YObj (dict_set res "raman-efficiency" (YArr entries)))
  | Ji.Fiber _ => Ok (YObj res)
  end.

End Factors.
End Fiber_type.

Module Roadm_type.

(** [[amp.value for amp in roadm[key]] if key in roadm else []] *)
Definition compatible (roadm : yang) (key : string) : result (list yang) :=
  p <- yang_in key roadm ;;
  if p then l <- yang_member roadm key ;; yang_iter l else Ok [].

Definition _transform_roadm (roadm : yang) : result Ji.Roadm :=
  target_pch_out_db <- member_float roadm "target-channel-out-power" ;;
  add_drop_osnr <- member_float roadm "add-drop-osnr" ;;
  pmd <- member_float roadm "polarization-mode-dispersion" ;;
  preamps <- compatible roadm "compatible-preamp" ;;
  boosters <- compatible roadm "compatible-booster" ;;
  Ok {| Ji.roadm_attrs := [("target_pch_out_db", VFloat target_pch_out_db);
                           ("add_drop_osnr", VFloat add_drop_osnr);
                           ("pmd", VFloat pmd)];
        Ji.restrictions := [("preamp_variety_list", preamps);
                            ("booster_variety_list", boosters)] |}.

(** [d.get(key, [])] *)
Definition get_list (d : odict (list yang)) (key : string) : list yang :=
  match dict_get d key with
  | Some l => l
  | None => []
  end.

Definition _store_equipment_roadm (name : string) (roadm : Ji.Roadm) : result yang :=
  add_drop_osnr <- getattr (Ji.roadm_attrs roadm) "add_drop_osnr" ;;
  pmd <- getattr (Ji.roadm_attrs roadm) "pmd" ;;
  target_pch_out_db <- getattr (Ji.roadm_attrs roadm) "target_pch_out_db" ;;
  Ok (YObj [("type", YStr name);
            ("add-drop-osnr", py_str add_drop_osnr);
            ("polarization-mode-dispersion", py_str pmd);
            ("target-channel-out-power", py_str target_pch_out_db);
            ("compatible-preamp",
             YArr (get_list (Ji.restrictions roadm) "preamp_variety_list"));
            ("compatible-booster",
             YArr (get_list (Ji.restrictions roadm) "booster_variety_list"))]).

End Roadm_type.

Module Transceiver_type.

Definition _transform_transceiver_mode (mode : yang) : result (odict pyval) :=
  name <- member_str mode "name" ;;
  baud_rate <- member_float mode "baud-rate" ;;
  osnr <- member_float mode "required-osnr" ;;
  bit_rate <- member_float mode "bit-rate" ;;
  roll_off <- member_float mode "tx-roll-off" ;;
  tx_osnr <- member_float mode "in-band-tx-osnr" ;;
  min_spacing <- member_float mode "grid-spacing" ;;
  cost <- member_float mode "tip-photonic-simulation:cost" ;;
  Ok [("format", VStr name);
      ("baud_rate", VFloat (baud_rate * GIGA));
      ("OSNR", VFloat osnr);
      ("bit_rate", VFloat (bit_rate * GIGA));
      ("roll_off", VFloat roll_off);
      ("tx_osnr", VFloat tx_osnr);
      ("min_spacing", VFloat (min_spacing * GIGA));
      ("cost", VFloat cost)].

Definition _transform_transceiver (txp : yang) : result Ji.Transceiver :=
  t <- member_str txp "type" ;;
  fmin <- member_float txp "frequency-min" ;;
  fmax <- member_float txp "frequency-max" ;;
  modes <- yang_member txp "mode" ;;
  modes <- yang_iter modes ;;
  modes <- mapM _transform_transceiver_mode modes ;;
  Ok {| Ji.type_variety := t;
        Ji.frequency := [("min", VFloat (fmin * THZ)); ("max", VFloat (fmax * THZ))];
        Ji.mode := modes |}.

(** A value put into the raw document as it is. *)
Definition raw_of (v : pyval) : yang :=
  match v with
  | VStr s => YStr s
  | VFloat q => YDec q
  | VBool b => YBool b
  | VNone => YNull
  | _ => YStr "<object>"
  end.

(** [int(x)] of a float: truncation towards zero. *)
Definition py_int (q : Q) : Z := Z.quot (Qnum q) (Zpos (Qden q)).

(** [float(v)]; the values of a mode are numbers, the text of a string
    is not read. *)
Definition py_float (v : pyval) : result Q :=
  match v with
  | VFloat q => Ok q
  | VBool b => Ok (if b then 1 else 0)
  | _ => Raise (TypeError "float() argument must be a string or a number")
  end.

(** The entry of one mode (lines 520-529), its members in the order of
    the dictionary display. *)
Definition store_mode (mode : odict pyval) : result yang :=
  name <- dict_item mode "format" ;;
  bit_rate <- dict_item mode "bit_rate" ;; bit_rate <- float_of bit_rate ;;
  baud_rate <- dict_item mode "baud_rate" ;; baud_rate <- float_of baud_rate ;;
  osnr <- dict_item mode "OSNR" ;; osnr <- py_float osnr ;;
  tx_osnr <- dict_item mode "tx_osnr" ;; tx_osnr <- py_float tx_osnr ;;
  min_spacing <- dict_item mode "min_spacing" ;; min_spacing <- float_of min_spacing ;;
  roll_off <- dict_item mode "roll_off" ;; roll_off <- py_float roll_off ;;
  cost <- dict_item mode "cost" ;;
  Ok (YObj [("name", raw_of name);
            ("bit-rate", YInt (py_int (bit_rate / GIGA)));
            ("baud-rate", YDec (baud_rate / GIGA));
            ("required-osnr", YDec osnr);
            ("in-band-tx-osnr", YDec tx_osnr);
            ("grid-spacing", YDec (min_spacing / GIGA));
            ("tx-roll-off", YDec roll_off);
            ("tip-photonic-simulation:cost", raw_of cost)]).

Definition _store_equipment_transceiver (name : string) (txp : Ji.Transceiver)
  : result yang :=
  fmin <- dict_item (Ji.frequency txp) "min" ;; fmin <- float_of fmin ;;
  fmax <- dict_item (Ji.frequency txp) "max" ;; fmax <- float_of fmax ;;
  modes <- mapM store_mode (Ji.mode txp) ;;
  Ok (YObj [("type", YStr name);
            ("frequency-min", YDec (fmin / THZ));
            ("frequency-max", YDec (fmax / THZ));
            ("mode", YArr modes)]).

End Transceiver_type.

(** ** The vocabulary of their properties *)

(** The leaf [k] of [e] is the leaf [k] of [y] multiplied by [factor]
    and divided by it again, both times rounded. *)
Definition rescaled_leaf (round : Q -> Q) (factor : Q) (y : yang) (k : string) (e : yang)
  : Prop :=
  exists q,
    member_float y k = Ok q /\
    member_float e k = Ok (round (round (q * factor) / factor)).

(** The float under [k], if there is one. *)
Definition float_at (m : odict pyval) (k : string) : option Q :=
  match dict_get m k with
  | Some (VFloat q) => Some q
  | _ => None
  end.

Definition same_float (k : string) (m m' : odict pyval) : Prop :=
  exists q q', float_at m k = Some q /\ float_at m' k = Some q' /\ q' == q.

(** A mode after a save and a load: as it was, but for the bit rate,
    which is cut to whole gigabits per second. *)
Definition mode_reloaded (m m' : odict pyval) : Prop :=
  dict_keys m' = dict_keys m /\
  dict_get m' "format" = dict_get m "format" /\
  same_float "baud_rate" m m' /\
  same_float "OSNR" m m' /\
  same_float "roll_off" m m' /\
  same_float "tx_osnr" m m' /\
  same_float "min_spacing" m m' /\
  same_float "cost" m m' /\
  exists b b',
    float_at m "bit_rate" = Some b /\ float_at m' "bit_rate" = Some b' /\
    b' == inject_Z (Transceiver_type.py_int (b / GIGA)) * GIGA.

(** A Raman entry after a load and a save: the same coefficient, and
    the frequency offset divided by the terahertz factor. *)
Definition raman_entry_stored (x x' : yang) : Prop :=
  (exists c c', yang_member x "cr" = Ok c /\ yang_float c = Ok c' /\
                member_float x' "cr" = Ok c') /\
  exists q, member_float x "delta-frequency" = Ok q /\
            member_float x' "delta-frequency" = Ok (q / THZ).

Definition raman_entry (cr delta : Q) : yang :=
  YObj [("delta-frequency", YDec delta); ("cr", YDec cr)].

(** A fiber type entry with two points of Raman efficiency. *)
Definition raman_fiber_entry : yang :=
  YObj [("type", YStr "SSMF");
        ("chromatic-dispersion", YDec (167 # 10));
        ("chromatic-dispersion-slope", YDec (1 # 10));
        ("gamma", YDec (127 # 100));
        ("pmd-coefficient", YDec (1 # 1000));
        ("raman-efficiency", YArr [raman_entry 0 0; raman_entry (1 # 10) 5])].

Definition roadm_entry : yang :=
  YObj [("type", YStr "roadm");
        ("target-channel-out-power", YDec (-20));
        ("add-drop-osnr", YDec 38);
        ("polarization-mode-dispersion", YDec 0);
        ("compatible-preamp", YArr [YStr "std_gain"])].

Definition mode_entry (name : string) (bit_rate : yang) : yang :=
  YObj [("name", YStr name);
        ("baud-rate", YDec 32);
        ("required-osnr", YDec 11);
        ("bit-rate", bit_rate);
        ("tx-roll-off", YDec (15 # 100));
        ("in-band-tx-osnr", YDec 40);
        ("grid-spacing", YDec (375 # 10));
        ("tip-photonic-simulation:cost", YDec 1)].

(** A transceiver type with two modes, the second of a bit rate that is
    not a whole number of gigabits per second. *)
Definition transceiver_entry : yang :=
  YObj [("type", YStr "vendorA_trx-type1");
        ("frequency-min", YDec (1913 # 10));
        ("frequency-max", YDec (1961 # 10));
        ("mode", YArr [mode_entry "mode 1" (YInt 100);
                       mode_entry "mode 2" (YDec (2005 # 10))])].

(* ================================================================== *)
(** * Simulation parameters *)

Module Science_utils.

(** [params[key]] for a value read from a JSON file. *)
Definition subscript (params : yang) (key : string) : result yang :=
  match params with
  | YObj ms => dict_item ms key
  | YArr _ => Raise (TypeError "list indices must be integers or slices, not str")
  | YStr _ => Raise (TypeError "string indices must be integers")
  | _ => Raise (TypeError "object is not subscriptable")
  end.

(** [RamanParameters(params=params)]: the object is its attributes, in
    the order they are set. *)
Definition RamanParameters (params : yang) : result (odict yang) :=
  flag_raman <- subscript params "flag_raman" ;;
  space_resolution <- subscript params "space_resolution" ;;
  tolerance <- subscript params "tolerance" ;;
  verbose <- subscript params "verbose" ;;
  Ok [("flag_raman", flag_raman);
      ("space_resolution", space_resolution);
      ("tolerance", tolerance);
      ("verbose", verbose)].

Definition NLIParameters (params : yang) : result (odict yang) :=
  nli_method_name <- subscript params "nli_method_name" ;;
  wdm_grid_size <- subscript params "wdm_grid_size" ;;
  dispersion_tolerance <- subscript params "dispersion_tolerance" ;;
  phase_shift_tollerance <- subscript params "phase_shift_tollerance" ;;
  verbose <- subscript params "verbose" ;;
  Ok [("nli_method_name", nli_method_name);
      ("wdm_grid_size", wdm_grid_size);
      ("dispersion_tolerance", dispersion_tolerance);
      ("phase_shift_tollerance", phase_shift_tollerance);
      ("verbose", verbose)].

Record sim_params := {
  list_of_channels_under_test : yang;
  raman_params : odict yang;
  nli_params : odict yang }.

Definition SimParams (params : yang) : result sim_params :=
  channels <- subscript params "list_of_channels_under_test" ;;
  raman <- subscript params "raman_parametes" ;;
  raman <- RamanParameters raman ;;
  nli <- subscript params "nli_parametes" ;;
  nli <- NLIParameters nli ;;
  Ok {| list_of_channels_under_test := channels;
        raman_params := raman;
        nli_params := nli |}.

Section Load.

(** [gnpy.core.utils.load_json], which is not in the source tree: the
    value of the JSON file at a path. *)
Variable load_json : string -> result yang.

(** The texts of the interpreter's TypeError for a keyword argument that
    names no parameter of the function called, for one that names a
    parameter already given, and for a value after the two stars that is
    not a mapping; they differ from one version of the interpreter to
    the next. *)
Variables unexpected_keyword_text multiple_values_text : string -> string.
Variable not_a_mapping_text : yang -> string.

(** The keys of the file are the keyword arguments of the constructor,
    which is called with [self] and has the one parameter [params],
    [None] by default.  The arguments are bound in the order of the
    keys: the first one that is not [params] is refused, [self] as
    given twice and any other as unexpected. *)
Definition keyword_error (k : string) : exn :=
  TypeError (if String.eqb k "self" then multiple_values_text k
             else unexpected_keyword_text k).

Definition load_sim_params (path_sim_params : string) : result sim_params :=
  sim_params <- load_json path_sim_params ;;
  match sim_params with
  | YObj kwargs =>
      match filter (fun k => negb (String.eqb k "params")) (dict_keys kwargs) with
      | k :: _ => Raise (keyword_error k)
      | [] =>
          SimParams (match dict_get kwargs "params" with
                     | Some p => p
                     | None => YNull
                     end)
      end
  | _ => Raise (TypeError (not_a_mapping_text sim_params))
  end.

End Load.
End Science_utils.

(** The attributes of [o] are the members of [ms] under the names
    [names], in that order. *)
Definition read_from (ms : odict yang) (names : list string) (o : odict yang) : Prop :=
  dict_keys o = names /\
  forall k v, In (k, v) o -> dict_get ms k = Some v.

(** A file of simulation parameters under the one key the constructor
    takes. *)
Definition sim_file (path : string) : result yang :=
  Ok (YObj [("params",
             YObj [("list_of_channels_under_test", YArr [YInt 1]);
                   ("raman_parametes",
                    YObj [("flag_raman", YBool true);
                          ("space_resolution", YDec 10);
                          ("tolerance", YDec (1 # 100));
                          ("verbose", YInt 0)]);
                   ("nli_parametes",
                    YObj [("nli_method_name", YStr "gn_model_analytic");
                          ("wdm_grid_size", YDec 50);
                          ("dispersion_tolerance", YInt 1);
                          ("phase_shift_tollerance", YDec (1 # 10));
                          ("verbose", YInt 0)])])]).

(** The texts of one version of the interpreter. *)
Definition unexpected_text (k : string) : string :=
  "__init__() got an unexpected keyword argument '" ++ k ++ "'".
Definition multiple_text (k : string) : string :=
  "__init__() got multiple values for argument '" ++ k ++ "'".
Definition mapping_text (v : yang) : string :=
  "type object argument after ** must be a mapping".

(** A file with the key [self] before another key. *)
Definition self_sim_file (path : string) : result yang :=
  Ok (YObj [("params", YObj []); ("self", YInt 1); ("other", YInt 2)]).

(** The same parameters at the top of the file. *)
Definition flat_sim_file (path : string) : result yang :=
  Ok (YObj [("list_of_channels_under_test", YArr [YInt 1]);
            ("raman_parametes", YObj []);
            ("nli_parametes", YObj [])]).

(* ================================================================== *)
(** * The equipment library *)

Module Library.

(** The library, a dictionary of tables: [None] is a key that is not in
    it.  The tables of a well-formed library hold records of their
    kind. *)
Record equipment_library := {
  Edfa_table : option amp_table;
  Fiber_table : option (odict Ji.fiber);
  RamanFiber_table : option (odict Ji.fiber);
  Span_table : option (odict pyobj);
  Roadm_table : option (odict Ji.Roadm);
  SI_table : option (odict pyobj);
  Transceiver_table : option (odict Ji.Transceiver) }.

(** Modelled from the spec: the record types of [gnpy.tools.json_io] are
    not in the source tree.  The default Span and Spectral-Information
    entries (4.2) are built from keyword arguments and carry them as
    their attributes. *)
Definition Span (kwargs : odict pyval) : pyobj := kwargs.

(** Modelled from the spec: see [Span]. *)
Definition SI (kwargs : odict pyval) : pyobj := kwargs.

(** [{x['type'].value: value(x) for x in entries if cond(x)}], from the
    dictionary [d] on. *)
Fixpoint comprehension {V} (cond : yang -> result bool) (value : yang -> result V)
         (entries : list yang) (d : odict V) : result (odict V) :=
  match entries with
  | [] => Ok d
  | x :: rest =>
      c <- cond x ;;
      if c then
        k <- member_str x "type" ;;
        v <- value x ;;
        comprehension cond value rest (dict_set d k v)
      else comprehension cond value rest d
  end.

Definition table_of {V} (data : yang) (key : string)
           (cond : yang -> result bool) (value : yang -> result V)
  : result (odict V) :=
  l <- yang_member data key ;;
  l <- yang_iter l ;;
  comprehension cond value l [].

Definition always (x : yang) : result bool := Ok true.

(** [float(sim_data[a][b][c].value)] *)
Definition float_at3 (sim_data : yang) (a b c : string) : result Q :=
  x <- yang_member sim_data a ;;
  x <- yang_member x b ;;
  member_float x c.

(** [float(sim_data['grid'][key].value)] *)
Definition grid_float (sim_data : yang) (key : string) : result Q :=
  g <- yang_member sim_data "grid" ;;
  member_float g key.

(** ['power-mode' in sim_data['autodesign']] *)
Definition in_power_mode (sim_data : yang) : result bool :=
  autodesign <- yang_member sim_data "autodesign" ;;
  yang_in "power-mode" autodesign.

(** The default Span (lines 233-250); the integer constants are written
    as floats. *)
Definition load_span (sim_data : yang) : result pyobj :=
  power_mode <- in_power_mode sim_data ;;
  reduction <- float_at3 sim_data "autodesign" "power-adjustment-for-span-loss"
                         "maximal-reduction" ;;
  boost <- float_at3 sim_data "autodesign" "power-adjustment-for-span-loss"
                     "maximal-boost" ;;
  step <- float_at3 sim_data "autodesign" "power-adjustment-for-span-loss"
                    "excursion-step-size" ;;
  Ok (Span [("power_mode", VBool power_mode);
            ("delta_power_range_db", VFloats [reduction; boost; step]);
            ("max_fiber_lineic_loss_for_raman", VFloat 0);
            ("target_extended_gain", VFloat (25 # 10));
            ("max_length", VFloat 150);
            ("length_units", VStr "km");
            ("max_loss", VNone);
            ("padding", VFloat 0);
            ("EOL", VFloat 0);
            ("con_in", VFloat 0);
            ("con_out", VFloat 0)]).

(** [float(sim_data['autodesign']['power-mode']['power-sweep'][key].value)] *)
Definition sweep_float (sim_data : yang) (key : string) : result Q :=
  x <- yang_member sim_data "autodesign" ;;
  x <- yang_member x "power-mode" ;;
  x <- yang_member x "power-sweep" ;;
  member_float x key.

(** The power range of the default spectral information (lines 259-265). *)
Definition load_power_range (sim_data : yang) : result pyval :=
  power_mode <- in_power_mode sim_data ;;
  if power_mode then
    x <- yang_member sim_data "autodesign" ;;
    x <- yang_member x "power-mode" ;;
    sweep <- yang_in "power-sweep" x ;;
    if sweep then
      start <- sweep_float sim_data "start" ;;
      stop <- sweep_float sim_data "stop" ;;
      step <- sweep_float sim_data "step-size" ;;
      Ok (VFloats [start; stop; step])
    else Ok (VFloats [0; 0; 0])
  else Ok VNone.

(** The default spectral information (lines 252-270). *)
Definition load_si (sim_data : yang) : result pyobj :=
  f_min <- grid_float sim_data "frequency-min" ;;
  f_max <- grid_float sim_data "frequency-max" ;;
  baud_rate <- grid_float sim_data "baud-rate" ;;
  spacing <- grid_float sim_data "spacing" ;;
  power_dbm <- grid_float sim_data "power" ;;
  power_range_db <- load_power_range sim_data ;;
  roll_off <- grid_float sim_data "tx-roll-off" ;;
  sys_margins <- member_float sim_data "system-margin" ;;
  tx_osnr <- grid_float sim_data "tx-osnr" ;;
  Ok (SI [("f_min", VFloat (f_min * THZ));
          ("f_max", VFloat (f_max * THZ));
          ("baud_rate", VFloat (baud_rate * GIGA));
          ("spacing", VFloat (spacing * GIGA));
          ("power_dbm", VFloat power_dbm);
          ("power_range_db", power_range_db);
          ("roll_off", VFloat roll_off);
          ("sys_margins", VFloat sys_margins);
          ("tx_osnr", VFloat tx_osnr)]).

Section Load.

Variable estimate_nf_model : string -> Q -> Q -> Q -> Q -> result (Q * Q * Q).
Variable round64 : Q -> Q.
Variables FIBER_DISPERSION FIBER_DISPERSION_SLOPE FIBER_GAMMA FIBER_PMD_COEF : Q.

Definition _load_equipment (data sim_data : yang) : result equipment_library :=
  amps <- table_of data "tip-photonic-equipment:amplifier" always
                   (_transform_edfa estimate_nf_model) ;;
  amps <- snd (_fixup_dual_stage amps) ;;
  fibers <- table_of data "tip-photonic-equipment:fiber" always
                     (Fiber_type._transform_fiber
                        round64 FIBER_DISPERSION FIBER_DISPERSION_SLOPE
                        FIBER_GAMMA FIBER_PMD_COEF) ;;
  raman_fibers <- table_of data "tip-photonic-equipment:fiber"
                           (yang_in "raman-efficiency")
                           (Fiber_type._transform_raman_fiber
                              round64 FIBER_DISPERSION FIBER_DISPERSION_SLOPE
                              FIBER_GAMMA FIBER_PMD_COEF) ;;
  span <- load_span sim_data ;;
  roadms <- table_of data "tip-photonic-equipment:roadm" always
                     Roadm_type._transform_roadm ;;
  si <- load_si sim_data ;;
  txps <- table_of data "tip-photonic-equipment:transceiver" always
                   Transceiver_type._transform_transceiver ;;
  Ok {| Edfa_table := Some amps;
        Fiber_table := Some fibers;
        RamanFiber_table := Some raman_fibers;
        Span_table := Some [("default", span)];
        Roadm_table := Some roadms;
        SI_table := Some [("default", si)];
        Transceiver_table := Some txps |}.

End Load.

(** *** Saving the library *)

Definition quoted (k : string) : string :=
  String (ascii_of_nat 34) k ++ String (ascii_of_nat 34) EmptyString.

(** [f'No "{k}" in the equipment library'] *)
Definition no_table (k : string) : exn :=
  ConfigurationError ("No " ++ quoted k ++ " in the equipment library").

(** The text of the second check is not a formatted string: it has the
    braces and the letter k as they are written. *)
Definition no_default : exn :=
  ConfigurationError ("No [" ++ quoted "{k}" ++ "][" ++ quoted "default"
                       ++ "] in the equipment library").

Definition present {A} (k : string) (table : option A) : result A :=
  match table with
  | Some t => Ok t
  | None => Raise (no_table k)
  end.

Definition has_default {A} (table : odict A) : result unit :=
  if dict_has table "default" then Ok tt else Raise no_default.

(** The two loops of checks (lines 662-667), and the tables and the two
    defaults they let through. *)
Record checked := {
  edfas : amp_table;
  fibers : odict Ji.fiber;
  raman_fibers : odict Ji.fiber;          (* [equipment.get('RamanFiber', {})] *)
  span : pyobj;
  spectrum : pyobj;
  transceivers : odict Ji.Transceiver;
  roadms : odict Ji.Roadm }.

Definition check (equipment : equipment_library) : result checked :=
  e <- present "Edfa" (Edfa_table equipment) ;;
  f <- present "Fiber" (Fiber_table equipment) ;;
  sp <- present "Span" (Span_table equipment) ;;
  si <- present "SI" (SI_table equipment) ;;
  t <- present "Transceiver" (Transceiver_table equipment) ;;
  r <- present "Roadm" (Roadm_table equipment) ;;
  _ <- has_default sp ;;
  _ <- has_default si ;;
  span <- dict_item sp "default" ;;
  spectrum <- dict_item si "default" ;;
  Ok {| edfas := e; fibers := f;
        raman_fibers := match RamanFiber_table equipment with
                        | Some t => t
                        | None => []
                        end;
        span := span; spectrum := spectrum;
        transceivers := t; roadms := r |}.

(** The truth value of an attribute; a model object is true. *)
Definition truthy (v : pyval) : bool :=
  match v with
  | VNone => false
  | VBool b => b
  | VStr s => negb (String.eqb s EmptyString)
  | VFloat q => negb (Qeq_bool q 0)
  | VFloats l => match l with [] => false | _ => true end
  | _ => true
  end.

(** [str(v[i])] *)
Definition str_item (v : pyval) (i : nat) : result yang :=
  match v with
  | VFloats l => coef l i
  | _ => Raise (TypeError "object is not subscriptable")
  end.

(** [str(getattr(o, attr) / factor)] *)
Definition str_scaled (o : pyobj) (attr : string) (factor : Q) : result yang :=
  v <- getattr o attr ;;
  q <- float_of v ;;
  Ok (YDec (q / factor)).

(** [str(getattr(o, attr))] *)
Definition str_attr (o : pyobj) (attr : string) : result yang :=
  v <- getattr o attr ;; Ok (py_str v).

(** [[k for (k, v) in table.items() if v.allowed_for_design]] *)
Fixpoint allowed_inline (table : amp_table) : result (list yang) :=
  match table with
  | [] => Ok []
  | (k, v) :: rest =>
      a <- getattr v "allowed_for_design" ;;
      ks <- allowed_inline rest ;;
      Ok (if truthy a then YStr k :: ks else ks)
  end.

(** The simulation section (lines 685-715): the section as the display
    of the raw document builds it, then the branch on the power mode. *)
Definition store_simulation (edfas : amp_table) (span spectrum : pyobj) : result yang :=
  fmin <- str_scaled spectrum "f_min" THZ ;;
  fmax <- str_scaled spectrum "f_max" THZ ;;
  spacing <- str_scaled spectrum "spacing" GIGA ;;
  power <- str_attr spectrum "power_dbm" ;;
  roll_off <- str_attr spectrum "roll_off" ;;
  tx_osnr <- str_attr spectrum "tx_osnr" ;;
  baud_rate <- str_scaled spectrum "baud_rate" GIGA ;;
  allowed <- allowed_inline edfas ;;
  range <- getattr span "delta_power_range_db" ;;
  reduction <- str_item range 0 ;;
  range <- getattr span "delta_power_range_db" ;;
  boost <- str_item range 1 ;;
  range <- getattr span "delta_power_range_db" ;;
  step <- str_item range 2 ;;
  margin <- str_attr spectrum "sys_margins" ;;
  let grid := [("frequency-min", fmin); ("frequency-max", fmax);
               ("spacing", spacing); ("power", power);
               ("tx-roll-off", roll_off); ("tx-osnr", tx_osnr);
               ("baud-rate", baud_rate)] in
  let autodesign :=
    [("allowed-inline-edfa", YArr allowed);
     ("power-adjustment-for-span-loss",
      YObj [("maximal-reduction", reduction);
            ("maximal-boost", boost);
            ("excursion-step-size", step)])] in
  power_mode <- getattr span "power_mode" ;;
  autodesign <-
    (if truthy power_mode then
       r <- getattr spectrum "power_range_db" ;; start <- str_item r 0 ;;
       r <- getattr spectrum "power_range_db" ;; stop <- str_item r 1 ;;
       r <- getattr spectrum "power_range_db" ;; step <- str_item r 2 ;;
       Ok (dict_set autodesign "power-mode"
                    (YObj [("power-sweep",
                            YObj [("start", start); ("stop", stop);
                                  ("step-size", step)])]))
     else Ok (dict_set autodesign "gain-mode" (YArr [YNull]))) ;;
  Ok (YObj [("grid", YObj grid);
            ("autodesign", YObj autodesign);
            ("system-margin", margin)]).

(** [[f(k, v) for (k, v) in table.items()]] *)
Definition store_all {A} (f : string -> A -> result yang) (table : odict A)
  : result (list yang) :=
  mapM (fun kv => f (fst kv) (snd kv)) table.

(** The library as [_store_topology] consults it: for the names of the
    transceiver types. *)
Definition for_topology (c : checked) : equipment :=
  [("Transceiver", map (fun kv => (fst kv, [])) (transceivers c))].

Section Save.

Variable round64 : Q -> Q.
Variables FIBER_DISPERSION FIBER_DISPERSION_SLOPE FIBER_GAMMA FIBER_PMD_COEF : Q.

(** [dm.from_raw(raw)], [data.validate()] and [data.raw_value()] of the
    schema library, which is not in the source tree. *)
Variable validated : yang -> result yang.

Definition store_fiber :=
  Fiber_type._store_equipment_fiber
    round64 FIBER_DISPERSION FIBER_DISPERSION_SLOPE FIBER_GAMMA FIBER_PMD_COEF.

(** The raw document before the topology (lines 678-715). *)
Definition raw_equipment (c : checked) : result (odict yang) :=
  amplifiers <- store_all _store_equipment_edfa (edfas c) ;;
  plain_fibers <-
    store_all store_fiber
              (filter (fun kv => negb (dict_has (raman_fibers c) (fst kv))) (fibers c)) ;;
  with_raman <- store_all store_fiber (raman_fibers c) ;;
  txps <- store_all Transceiver_type._store_equipment_transceiver (transceivers c) ;;
  rdms <- store_all Roadm_type._store_equipment_roadm (roadms c) ;;
  simulation <- store_simulation (edfas c) (span c) (spectrum c) ;;
  Ok [("tip-photonic-equipment:amplifier", YArr amplifiers);
      ("tip-photonic-equipment:fiber", YArr (plain_fibers ++ with_raman));
      ("tip-photonic-equipment:transceiver", YArr txps);
      ("tip-photonic-equipment:roadm", YArr rdms);
      ("tip-photonic-simulation:simulation", simulation)].

(** [save_to_json(equipment, network)]: the network as the call leaves
    it, and the document it returns. *)
Definition save_to_json (equipment : equipment_library) (network : option DiGraph)
  : option DiGraph * result yang :=
  match check equipment with
  | Raise e => (network, Raise e)
  | Ok c =>
      match raw_equipment c with
      | Raise e => (network, Raise e)
      | Ok raw =>
          match network with
          | None => (None, validated (YObj raw))
          | Some g =>
              let '(g', r) := _store_topology (for_topology c) g in
              (Some g',
               networks <- r ;;
               validated (YObj (dict_set raw "ietf-network:networks" networks)))
          end
      end
  end.

End Save.
End Library.

(** ** The vocabulary of the library's properties *)

Definition is_some {A} (o : option A) : bool :=
  match o with Some _ => true | None => false end.

(** The six tables a library must have, in the order they are checked,
    each with whether the library has it. *)
Definition required_tables (lib : Library.equipment_library) : list (string * bool) :=
  [("Edfa", is_some (Library.Edfa_table lib));
   ("Fiber", is_some (Library.Fiber_table lib));
   ("Span", is_some (Library.Span_table lib));
   ("SI", is_some (Library.SI_table lib));
   ("Transceiver", is_some (Library.Transceiver_table lib));
   ("Roadm", is_some (Library.Roadm_table lib))].

Definition first_missing (lib : Library.equipment_library) : option string :=
  option_map fst (find (fun kb => negb (snd kb)) (required_tables lib)).

(** The Span table and the SI table both have a default entry. *)
Definition defaults_present (lib : Library.equipment_library) : bool :=
  match Library.Span_table lib, Library.SI_table lib with
  | Some sp, Some si => dict_has sp "default" && dict_has si "default"
  | _, _ => false
  end.

(** An amplifier type with a true [allowed_for_design]. *)
Definition design_allowed (kv : string * pyobj) : bool :=
  match getattr (snd kv) "allowed_for_design" with
  | Ok a => Library.truthy a
  | Raise _ => false
  end.

(** The names under which the fiber types are stored: the fiber types
    that are not Raman fiber types, then the Raman fiber types. *)
Definition stored_fiber_names (fibers raman : odict Ji.fiber) : list string :=
  map fst (filter (fun kv => negb (dict_has raman (fst kv))) fibers) ++ map fst raman.

(** The Raman table of a library, empty when it has none. *)
Definition raman_of (lib : Library.equipment_library) : odict Ji.fiber :=
  match Library.RamanFiber_table lib with
  | Some t => t
  | None => []
  end.

(** The floats of a spectral information. *)
Definition si_floats : list string :=
  ["f_min"; "f_max"; "baud_rate"; "spacing"; "power_dbm"; "roll_off";
   "sys_margins"; "tx_osnr"].

Definition polynomial_entry : yang :=
  YObj (common_leaves ++
        [("polynomial-NF",
          YObj [("a", YDec 0); ("b", YDec 0); ("c", YDec 0); ("d", YDec 6)])]).

Definition plain_fiber_entry : yang :=
  YObj [("type", YStr "NZDF");
        ("chromatic-dispersion", YDec 5);
        ("chromatic-dispersion-slope", YDec (1 # 10));
        ("gamma", YDec (146 # 100));
        ("pmd-coefficient", YDec (1 # 1000))].

(** A document with one amplifier type, two fiber types, the first with
    Raman data, one ROADM type and one transceiver type. *)
Definition equipment_document : yang :=
  YObj [("tip-photonic-equipment:amplifier", YArr [polynomial_entry]);
        ("tip-photonic-equipment:fiber", YArr [raman_fiber_entry; plain_fiber_entry]);
        ("tip-photonic-equipment:roadm", YArr [roadm_entry]);
        ("tip-photonic-equipment:transceiver", YArr [transceiver_entry])].

(** Simulation options, with the mode of the automatic design left
    open. *)
Definition simulation_options (mode : list (string * yang)) : yang :=
  YObj [("grid",
         YObj [("frequency-min", YDec (1913 # 10));
               ("frequency-max", YDec (1961 # 10));
               ("spacing", YDec 50);
               ("power", YDec 0);
               ("tx-roll-off", YDec (15 # 100));
               ("tx-osnr", YDec 40);
               ("baud-rate", YDec 32)]);
        ("autodesign",
         YObj (("power-adjustment-for-span-loss",
                YObj [("maximal-reduction", YDec (-2));
                      ("maximal-boost", YDec 3);
                      ("excursion-step-size", YDec (1 # 2))]) :: mode));
        ("system-margin", YDec 2)].

Definition power_sweep : list (string * yang) :=
  [("power-mode",
    YObj [("power-sweep",
           YObj [("start", YDec (-1)); ("stop", YDec 1); ("step-size", YDec (1 # 2))])])].

Definition gain_mode : list (string * yang) := [("gain-mode", YArr [YNull])].

(** A library without a table of ROADM types. *)
Definition no_roadms : Library.equipment_library :=
  {| Library.Edfa_table := Some [];
     Library.Fiber_table := Some [];
     Library.RamanFiber_table := None;
     Library.Span_table := Some [];
     Library.Roadm_table := None;
     Library.SI_table := Some [];
     Library.Transceiver_table := Some [] |}.

(** Whether a network of the document is a photonic topology. *)
Definition photonic (net : yang) : result bool :=
  has_types <- yang_in "network-types" net ;;
  if has_types then
    types <- yang_member net "network-types" ;;
    yang_in "tip-photonic-topology:photonic-topology" types
  else Ok false.

(** A network that is known not to be a photonic topology. *)
Definition skipped (net : yang) : bool :=
  match photonic net with
  | Ok false => true
  | _ => false
  end.

Definition networks_document (nets : list yang) : yang :=
  YObj [("ietf-network:networks", YObj [("ietf-network:network", YArr nets)])].

(** The document of a topology with the given node and link entries. *)
Definition topology_document (nodes links : list yang) : yang :=
  YObj [("network",
         YArr [YObj [("network-id", YStr "GNPy");
                     ("network-types",
                      YObj [("tip-photonic-topology:photonic-topology", YObj [])]);
                     ("node", YArr nodes);
                     ("ietf-network-topology:link", YArr links)]])].

Definition not_Fiber (n : element) : bool := negb (is_Fiber n).

(** The names of the entries, read under [key]. *)
Definition names_under (key : string) (entries : list yang) : list (result string) :=
  map (fun e => member_str e key) entries.

(** A fiber type whose PMD coefficient has four decimals. *)
Definition fine_fiber_entry : yang :=
  YObj [("type", YStr "SSMF");
        ("chromatic-dispersion", YDec (167 # 10));
        ("chromatic-dispersion-slope", YDec (1 # 10));
        ("gamma", YDec (127 # 100));
        ("pmd-coefficient", YDec (7 # 10000))].

(** A rounding for the examples: down to the thousandth. *)
Definition to_thousandths (q : Q) : Q := Qmake (Qfloor (q * 1000)) 1000.

(** A node the pass over the nodes of [g] gets past, at position [i]:
    a Transceiver with a type, or without one when the library has a
    Transceiver type; an amplifier or a ROADM with a type; an
    attenuator; a Fiber with a type, a first predecessor and a first
    successor in the graph. *)
Definition storable (equipment : equipment) (g : DiGraph) (i : nat) (n : element) : bool :=
  match n with
  | Transceiver _ None _ =>
      match dict_get equipment "Transceiver" with
      | Some (_ :: _) => true
      | _ => false
      end
  | Transceiver _ (Some _) _ => true
  | Edfa _ t _ _ _ => is_some t
  | Roadm _ t _ _ => is_some t
  | Fused _ _ => true
  | Fiber _ t _ _ =>
      is_some t &&
      match predecessors g i, successors g i with
      | p :: _, s :: _ =>
          (p <? length (g_nodes g))%nat && (s <? length (g_nodes g))%nat
      | _, _ => false
      end
  | Unhandled _ => false
  end.

Definition storable_from (equipment : equipment) (g : DiGraph) (i : nat)
           (l : list element) : bool :=
  forallb (fun p => storable equipment g (fst p) (snd p)) (combine (seq i (length l)) l).

Definition storable_nodes (equipment : equipment) (g : DiGraph) : bool :=
  storable_from equipment g 0 (g_nodes g).

(** The two edges the link entry of a Fiber stands for: the one from
    the source of the link into the Fiber, and the one from the Fiber to
    the destination of the link. *)
Definition covered_by_fiber (g : DiGraph) (e : nat * nat) : Prop :=
  exists f n,
    nth_error (g_nodes g) f = Some n /\ is_Fiber n = true /\
    ((snd e = f /\ next (predecessors g f) = Ok (fst e)) \/
     (fst e = f /\ next (successors g f) = Ok (snd e))).

(** The claim as the spec words it: the document of a stored topology
    has a patch link for every edge that no link entry of a Fiber stands
    for. *)
Definition patch_for_every_uncovered_edge : Prop :=
  forall equipment network network' nodes links u v a b,
    _store_topology equipment network = (network', Ok (topology_document nodes links)) ->
    In (u, v) (edges network) -> ~ covered_by_fiber network (u, v) ->
    node_at network u = Ok a -> node_at network v = Ok b ->
    exists link,
      In link links /\
      yang_in "tip-photonic-topology:patch" link = Ok true /\
      Loader.link_ends link = Ok (uid a, uid b).

(* ================================================================== *)
(** * Properties *)

(** ** The error monad *)

Lemma bind_ok {A B} (r : result A) (k : A -> result B) (b : B) :
  bind r k = Ok b -> exists a, r = Ok a /\ k a = Ok b.
Proof. destruct r as [a|e]; simpl; [eauto | discriminate]. Qed.

Lemma mapM_length {A B} (f : A -> result B) (l : list A) (bs : list B) :
  mapM f l = Ok bs -> length bs = length l.
Proof.
  revert bs; induction l as [|a l IH]; simpl; intros bs H.
  - injection H as <-. reflexivity.
  - apply bind_ok in H as (b & _ & H).
    apply bind_ok in H as (bs' & Hbs & H).
    injection H as <-. simpl. f_equal. auto.
Qed.

(** ** The spectrum interpolator *)

Section SpectrumFacts.

Lemma insert_by_freq_perm p l : Permutation (p :: l) (insert_by_freq p l).
Proof.
  induction l as [|q l IH]; simpl; [reflexivity|].
  destruct (fst p <=? fst q)%Z; [reflexivity|].
  rewrite perm_swap. now constructor.
Qed.

Lemma sort_by_freq_perm l : Permutation l (sort_by_freq l).
Proof.
  induction l as [|p l IH]; simpl; [constructor|].
  rewrite <- insert_by_freq_perm. now constructor.
Qed.

Lemma insert_by_freq_In p q l : In q (insert_by_freq p l) -> q = p \/ In q l.
Proof.
  intros H. apply (Permutation_in _ (Permutation_sym (insert_by_freq_perm p l))) in H.
  destruct H; auto.
Qed.

Lemma insert_by_freq_sorted p l :
  StronglySorted freq_le l -> StronglySorted freq_le (insert_by_freq p l).
Proof.
  induction 1 as [|q l Hs IH Hq]; simpl.
  - repeat constructor.
  - destruct (Z.leb_spec (fst p) (fst q)).
    + constructor; [now constructor|].
      constructor; [exact H|].
      eapply Forall_impl; [|exact Hq]. unfold freq_le. intros; lia.
    + constructor; [exact IH|].
      apply Forall_forall. intros r Hr.
      apply insert_by_freq_In in Hr as [->|Hr]; [unfold freq_le; lia|].
      rewrite Forall_forall in Hq. auto.
Qed.

Lemma sort_by_freq_sorted l : StronglySorted freq_le (sort_by_freq l).
Proof.
  induction l as [|p l IH]; simpl; [constructor|].
  now apply insert_by_freq_sorted.
Qed.

(** The sort is stable: a sample goes before the samples of its
    frequency that followed it. *)
Lemma insert_by_freq_stable f p l :
  filter (at_frequency f) (insert_by_freq p l) = filter (at_frequency f) (p :: l).
Proof.
  induction l as [|q l IH]; [reflexivity|].
  cbn [insert_by_freq]. destruct (Z.leb_spec (fst p) (fst q)) as [Hle|Hlt]; [reflexivity|].
  cbn [filter] in *. rewrite IH. unfold at_frequency.
  destruct (Z.eqb_spec (fst q) f), (Z.eqb_spec (fst p) f); try reflexivity. lia.
Qed.

Lemma sort_by_freq_stable f l :
  filter (at_frequency f) (sort_by_freq l) = filter (at_frequency f) l.
Proof.
  induction l as [|p l IH]; [reflexivity|].
  cbn [sort_by_freq fold_right]. rewrite insert_by_freq_stable.
  cbn [filter]. fold (sort_by_freq l). now rewrite IH.
Qed.

(** Distinct frequencies sort into strictly increasing ones. *)
Lemma sorted_nodup_strict l :
  StronglySorted freq_le l -> NoDup (map fst l) -> StronglySorted freq_lt l.
Proof.
  induction 1 as [|p l Hs IH Hp]; simpl; intros Hnd; [constructor|].
  inversion Hnd as [|? ? Hnotin Hnd']; subst.
  constructor; [auto|].
  apply Forall_forall. intros q Hq.
  rewrite Forall_forall in Hp. specialize (Hp q Hq).
  unfold freq_le, freq_lt in *.
  assert (fst p <> fst q) by (intros E; apply Hnotin; rewrite E; now apply in_map).
  lia.
Qed.

Lemma sort_by_freq_strict l :
  NoDup (map fst l) -> StronglySorted freq_lt (sort_by_freq l).
Proof.
  intros Hnd. apply sorted_nodup_strict; [apply sort_by_freq_sorted|].
  eapply Permutation_NoDup; [|exact Hnd].
  apply Permutation_map, sort_by_freq_perm.
Qed.

Lemma combine_fst_snd {A B} (l : list (A * B)) : combine (map fst l) (map snd l) = l.
Proof. induction l as [|[a b] l IH]; simpl; congruence. Qed.

(** Left of the samples: the first value. *)
Lemma interp_at_left p rest x :
  (x < fst p)%Z -> interp_at (p :: rest) x = snd p.
Proof.
  destruct p as [x0 y0]; simpl. intros H.
  destruct (Z.ltb_spec x x0); [reflexivity | lia].
Qed.

Lemma last_cons {A} (a d : A) (l : list A) : last (a :: l) d = last l a.
Proof.
  revert a d; induction l as [|b l IH]; intros a d; [reflexivity|].
  change (last (a :: b :: l) d) with (last (b :: l) d).
  now rewrite !IH.
Qed.

Lemma interp_from_right x x0 y0 rest :
  Forall (fun q => (fst q <= x)%Z) rest ->
  interp_from x x0 y0 rest = snd (last rest (x0, y0)).
Proof.
  revert x0 y0; induction rest as [|[x1 y1] rest IH]; intros x0 y0 H; [reflexivity|].
  inversion H as [|? ? H1 H2]; subst. simpl in H1.
  cbn [interp_from]. destruct (Z.ltb_spec x x1); [lia|].
  rewrite IH by assumption. now rewrite last_cons.
Qed.

(** On the last sample and right of it: the last value. *)
Lemma interp_at_right p rest x :
  Forall (fun q => (fst q <= x)%Z) (p :: rest) ->
  interp_at (p :: rest) x = snd (last (p :: rest) p).
Proof.
  destruct p as [x0 y0]. intros H.
  inversion H as [|? ? H1 H2]; subst. simpl in H1.
  cbn [interp_at]. destruct (Z.ltb_spec x x0); [lia|].
  rewrite interp_from_right by assumption. now rewrite last_cons.
Qed.

Lemma lerp_formula (x0 x1 x : Z) (y0 y1 : Q) :
  (x0 < x1)%Z ->
  (y1 - y0) / inject_Z (x1 - x0) * inject_Z (x - x0) + y0 == lerp (x0, y0) (x1, y1) x.
Proof.
  intros H. unfold lerp; simpl.
  assert (~ inject_Z (x1 - x0) == 0).
  { unfold Qeq; simpl. lia. }
  field. assumption.
Qed.

Lemma lerp_start a b : (fst a < fst b)%Z -> lerp a b (fst a) == snd a.
Proof.
  intros H. unfold lerp. rewrite Z.sub_diag.
  assert (~ inject_Z (fst b - fst a) == 0).
  { unfold Qeq; simpl. lia. }
  change (inject_Z 0) with 0. field. assumption.
Qed.

(** The first of sorted samples is not after any of them. *)
Lemma sorted_head_le (h : Z * Q) (l pre : list (Z * Q)) (a : Z * Q) (post : list (Z * Q)) :
  StronglySorted freq_le (h :: l) -> h :: l = pre ++ a :: post -> (fst h <= fst a)%Z.
Proof.
  intros Hs E. destruct pre as [|p pre]; cbn [app] in E; injection E as E1 E2.
  - subst. lia.
  - subst. inversion Hs as [|? ? _ Hall]; subst. rewrite Forall_forall in Hall.
    apply (Hall a). apply in_or_app. right. now left.
Qed.

(** Between two neighbouring samples the value is on their line. *)
Lemma interp_from_between x x0 y0 rest pre a b post :
  StronglySorted freq_le ((x0, y0) :: rest) ->
  (x0, y0) :: rest = pre ++ a :: b :: post ->
  (fst a <= x < fst b)%Z ->
  interp_from x x0 y0 rest == lerp a b x.
Proof.
  revert x0 y0 rest; induction pre as [|p pre IH]; intros x0 y0 rest Hs E Hx.
  - cbn [app] in E. injection E as Ea Er. subst a rest.
    destruct b as [xb yb]. cbn [fst] in Hx.
    cbn [interp_from]. destruct (Z.ltb_spec x xb); [|lia].
    destruct (Z.eqb_spec x x0) as [->|Hne].
    + symmetry. apply (lerp_start (x0, y0) (xb, yb)). cbn. lia.
    + apply lerp_formula. lia.
  - cbn [app] in E. injection E as Ep Er. subst p.
    destruct rest as [|[x1 y1] rest']; [destruct pre; discriminate Er|].
    inversion Hs as [|? ? Hs' _]; subst.
    pose proof (sorted_head_le _ _ _ _ _ Hs' Er) as Hle. cbn [fst] in Hle.
    cbn [interp_from]. destruct (Z.ltb_spec x x1); [lia|].
    now apply IH.
Qed.

Lemma interp_at_between pts pre a b post x :
  StronglySorted freq_le pts -> pts = pre ++ a :: b :: post ->
  (fst a <= x < fst b)%Z ->
  interp_at pts x == lerp a b x.
Proof.
  intros Hs E Hx. destruct pts as [|[x0 y0] rest]; [destruct pre; discriminate E|].
  pose proof (sorted_head_le _ _ _ _ _ Hs E) as Hle. cbn [fst] in Hle.
  cbn [interp_at]. destruct (Z.ltb_spec x x0); [lia|].
  now apply (interp_from_between x x0 y0 rest pre a b post).
Qed.

(** On a sample point the value is that of the sample, the last one of
    those given at that frequency. *)
Lemma interp_from_sample x0 y0 rest pre a post :
  StronglySorted freq_le ((x0, y0) :: rest) ->
  (x0, y0) :: rest = pre ++ a :: post ->
  (forall p, In p post -> (fst a < fst p)%Z) ->
  interp_from (fst a) x0 y0 rest = snd a.
Proof.
  revert x0 y0 rest; induction pre as [|p pre IH]; intros x0 y0 rest Hs E Hpost.
  - cbn [app] in E. injection E as Ea Er. subst a post. cbn [fst snd].
    destruct rest as [|[x1 y1] rest]; [reflexivity|].
    specialize (Hpost (x1, y1) (or_introl eq_refl)). cbn [fst] in Hpost.
    cbn [interp_from]. destruct (Z.ltb_spec x0 x1); [|lia].
    now rewrite Z.eqb_refl.
  - cbn [app] in E. injection E as Ep Er. subst p.
    destruct rest as [|[x1 y1] rest']; [destruct pre; discriminate Er|].
    inversion Hs as [|? ? Hs' _]; subst.
    pose proof (sorted_head_le _ _ _ _ _ Hs' Er) as Hle. cbn [fst] in Hle.
    cbn [interp_from]. destruct (Z.ltb_spec (fst a) x1); [lia|].
    now apply IH.
Qed.

Lemma interp_at_sample pts pre a post :
  StronglySorted freq_le pts -> pts = pre ++ a :: post ->
  (forall p, In p post -> (fst a < fst p)%Z) ->
  interp_at pts (fst a) = snd a.
Proof.
  intros Hs E Hpost. destruct pts as [|[x0 y0] rest]; [destruct pre; discriminate E|].
  pose proof (sorted_head_le _ _ _ _ _ Hs E) as Hle. cbn [fst] in Hle.
  cbn [interp_at]. destruct (Z.ltb_spec (fst a) x0); [lia|].
  now apply (interp_from_sample x0 y0 rest pre a post).
Qed.

Lemma frequencies_length : length frequencies = 96%nat.
Proof. reflexivity. Qed.

Lemma frequencies_nth (k : nat) :
  (k < 96)%nat ->
  nth_error frequencies k = Some (191300000000000 + Z.of_nat k * 50000000000)%Z.
Proof.
  intros H. unfold frequencies.
  rewrite nth_error_map, nth_error_seq.
  destruct (Nat.ltb_spec k 96); [reflexivity | lia].
Qed.

Lemma extract_absent key y :
  yang_in key y = Ok false -> _extract_per_spectrum key y = Ok [0].
Proof. intros H. unfold _extract_per_spectrum. now rewrite H. Qed.

Lemma extract_present key y data :
  yang_in key y = Ok true -> read_points key y = Ok data -> data <> [] ->
  _extract_per_spectrum key y = Ok (map (interp_at (sort_by_freq data)) frequencies).
Proof.
  intros Hin Hread Hne. unfold _extract_per_spectrum.
  rewrite Hin, Hread. cbn [bind negb]. unfold np_interp.
  assert (Hs : sort_by_freq data <> []).
  { intros E. apply Hne. apply Permutation_nil.
    rewrite <- E. apply Permutation_sym, sort_by_freq_perm. }
  destruct (sort_by_freq data) as [|p s] eqn:E; [congruence|].
  cbn [map]. rewrite <- !(map_cons fst), <- !(map_cons snd).
  rewrite !length_map, Nat.eqb_refl, combine_fst_snd. reflexivity.
Qed.

(** What [int()] makes of a number is the number without its fraction. *)
Lemma truncated_quot (q : Q) (f : Z) :
  truncated q f -> Z.quot (Qnum q) (Z.pos (Qden q)) = f.
Proof.
  destruct q as [a b]. unfold truncated, Qle, Qlt. cbn.
  intros [Hpos Hneg].
  pose proof (Z.quot_rem' a (Z.pos b)) as E.
  destruct (Z.le_gt_cases 0 a) as [Ha|Ha].
  - pose proof (Z.rem_bound_pos a (Z.pos b) Ha ltac:(lia)) as Hr.
    specialize (Hpos ltac:(lia)). nia.
  - pose proof (Z.rem_bound_pos_neg a (Z.pos b) ltac:(lia) ltac:(lia)) as Hr.
    specialize (Hneg ltac:(lia)). nia.
Qed.

Lemma sample_entry_read key x p :
  sample_entry key x p ->
  (f <- yang_member x "frequency" ;; fz <- yang_int f ;;
   v <- member_float x key ;; Ok (fz, v)) = Ok p.
Proof.
  intros (ms & fl & vl & -> & Hf & Hfr & Hv & Hvr). destruct p as [f v].
  cbn [fst snd] in *. unfold member_float. cbn [yang_member]. rewrite Hf, Hv. cbn [bind].
  assert (Ef : yang_int fl = Ok f).
  { destruct Hfr as [->|(q & -> & Ht)]; [reflexivity|].
    cbn. now rewrite (truncated_quot q f Ht). }
  assert (Ev : yang_float vl = Ok v).
  { destruct Hvr as [->|(z & -> & ->)]; reflexivity. }
  rewrite Ef, Ev. reflexivity.
Qed.

(** The samples of a list of entries are what the comprehension reads. *)
Lemma read_points_samples key ms entries samples :
  dict_get ms key = Some (YArr entries) ->
  Forall2 (sample_entry key) entries samples ->
  read_points key (YObj ms) = Ok samples.
Proof.
  intros Hk H. unfold read_points. cbn [yang_member]. rewrite Hk. cbn [bind yang_iter].
  clear Hk. induction H as [|x p entries samples Hx _ IH]; [reflexivity|].
  cbn [mapM]. rewrite (sample_entry_read key x p Hx). cbn [bind]. rewrite IH. reflexivity.
Qed.

End SpectrumFacts.

Section SpectrumClaim.

Lemma interp_at_single f0 v0 x : interp_at [(f0, v0)] x = v0.
Proof. simpl. destruct (x <? f0)%Z; reflexivity. Qed.

Lemma map_constant {A B} (f : A -> B) (b : B) (l : list A) :
  (forall a, f a = b) -> map f l = repeat b (length l).
Proof. intros H. induction l as [|a l IH]; simpl; [reflexivity|]. now rewrite H, IH. Qed.

(** C5. The spectrum interpolator, on an entry and a key.  An entry
    without the key gives the one-element zero sequence.  An entry with
    a list of samples under the key, each a frequency (an integer, or a
    decimal of which the fraction is dropped) and a value, gives 96
    values: those at the frequencies 191.3 THz + k * 50 GHz of the
    piecewise linear interpolant of the samples in ascending order of
    frequency, samples of one frequency in the order of the list.  The
    interpolant is the first sample value left of the samples, the last
    one on the last sample and right of it, the value of a sample on its
    frequency (of the last one given, of several at that frequency) and
    on the line of two neighbouring samples between them.  A single
    sample (f0, v0) gives 96 times v0. *)
Theorem extract_per_spectrum_spec (key : string) (ms : odict yang) :
  (dict_get ms key = None -> _extract_per_spectrum key (YObj ms) = Ok [0]) /\
  (forall entries samples,
      dict_get ms key = Some (YArr entries) ->
      Forall2 (sample_entry key) entries samples -> samples <> [] ->
      exists pts,
        Permutation samples pts /\ StronglySorted freq_le pts /\
        (forall f, filter (at_frequency f) pts = filter (at_frequency f) samples) /\
        _extract_per_spectrum key (YObj ms) = Ok (map (interp_at pts) frequencies) /\
        length (map (interp_at pts) frequencies) = 96%nat /\
        (forall k, (k < 96)%nat ->
                   nth_error frequencies k
                   = Some (191300000000000 + Z.of_nat k * 50000000000)%Z) /\
        (forall x, (forall p, In p pts -> (x < fst p)%Z) ->
                   interp_at pts x = snd (hd (0%Z, 0) pts)) /\
        (forall x, (forall p, In p pts -> (fst p <= x)%Z) ->
                   interp_at pts x = snd (last pts (0%Z, 0))) /\
        (forall pre a post,
            pts = pre ++ a :: post -> (forall p, In p post -> (fst a < fst p)%Z) ->
            interp_at pts (fst a) = snd a) /\
        (forall pre a b post x,
            pts = pre ++ a :: b :: post -> (fst a <= x < fst b)%Z ->
            interp_at pts x == lerp a b x)) /\
  (forall entry f0 v0,
      dict_get ms key = Some (YArr [entry]) -> sample_entry key entry (f0, v0) ->
      _extract_per_spectrum key (YObj ms) = Ok (repeat v0 96)).
Proof.
  split; [|split].
  - intros Hk. apply extract_absent. cbn. unfold dict_has. now rewrite Hk.
  - intros entries samples Hk Hs Hne.
    assert (Hin : yang_in key (YObj ms) = Ok true) by (cbn; unfold dict_has; now rewrite Hk).
    pose proof (read_points_samples key ms entries samples Hk Hs) as Hread.
    exists (sort_by_freq samples).
    split; [apply sort_by_freq_perm|].
    split; [apply sort_by_freq_sorted|].
    split; [intros f; apply sort_by_freq_stable|].
    split; [now apply extract_present|].
    split; [now rewrite length_map|].
    split; [apply frequencies_nth|].
    pose proof (sort_by_freq_sorted samples) as Hsorted.
    assert (Hnil : sort_by_freq samples <> []).
    { intros E. apply Hne, Permutation_nil. rewrite <- E.
      apply Permutation_sym, sort_by_freq_perm. }
    destruct (sort_by_freq samples) as [|p rest] eqn:E; [congruence|].
    split; [|split; [|split]].
    + intros x Hx. cbn [hd]. apply interp_at_left, Hx. now left.
    + intros x Hx. rewrite interp_at_right.
      * now rewrite !last_cons.
      * apply Forall_forall. exact Hx.
    + intros pre a post Hpts Hpost. now apply (interp_at_sample _ pre a post).
    + intros pre a b post x Hpts Hx. now apply (interp_at_between _ pre a b post).
  - intros entry f0 v0 Hk Hs.
    assert (Hin : yang_in key (YObj ms) = Ok true) by (cbn; unfold dict_has; now rewrite Hk).
    rewrite (extract_present key (YObj ms) [(f0, v0)]);
      [|exact Hin | |discriminate].
    + f_equal. cbn [sort_by_freq fold_right insert_by_freq].
      rewrite (map_constant _ v0) by apply interp_at_single.
      reflexivity.
    + apply (read_points_samples key ms [entry]); [exact Hk|].
      constructor; [exact Hs | constructor].
Qed.

Example ripple_sorted :
  read_points "gain-ripple" ripple_entry
  = Ok [(196000000000000%Z, 2); (191300000000000%Z, 1)] /\
  sort_by_freq [(196000000000000%Z, 2); (191300000000000%Z, 1)]
  = [(191300000000000%Z, 1); (196000000000000%Z, 2)].
Proof. split; reflexivity. Qed.

Example ripple_endpoints :
  exists l, _extract_per_spectrum "gain-ripple" ripple_entry = Ok l /\
            length l = 96%nat /\ nth_error l 0 = Some 1 /\
            (forall q, nth_error l 94 = Some q -> q == 2).
Proof.
  eexists. split; [vm_compute; reflexivity|].
  split; [reflexivity|]. split; [reflexivity|].
  intros q H. vm_compute in H. injection H as <-. reflexivity.
Qed.

(** Two samples at the first frequency of the grid: the value there is
    that of the second. *)
Example tied_samples :
  exists rest,
    _extract_per_spectrum "gain-ripple"
      (YObj [("gain-ripple",
              YArr [YObj [("frequency", YInt 191300000000000); ("gain-ripple", YDec 1)];
                    YObj [("frequency", YInt 191300000000000); ("gain-ripple", YDec 3)];
                    YObj [("frequency", YInt 196000000000000); ("gain-ripple", YDec 2)]])])
    = Ok (3 :: rest).
Proof. eexists. vm_compute. reflexivity. Qed.

Ltac sample_entry_tac :=
  do 3 eexists; split; [reflexivity|]; split; [reflexivity|];
  split; [first [left; reflexivity
                | right; eexists; split; [reflexivity|];
                  unfold truncated, Qle, Qlt; cbn; lia]|];
  split; [reflexivity|];
  first [left; reflexivity | right; eexists; split; reflexivity].

Ltac spec_of key entry :=
  let e := eval cbv delta [entry] in entry in
  match e with
  | YObj ?ms => pose proof (extract_per_spectrum_spec key ms) as H
  end.

Lemma extract_per_spectrum_spec_witness :
  _extract_per_spectrum "gain-ripple" single_point_entry = Ok [0] /\
  _extract_per_spectrum "nf-ripple" single_point_entry = Ok (repeat (3 # 2) 96) /\
  exists pts,
    Permutation [(196000000000000%Z, 2); (191300000000000%Z, 1);
                 (193000000000000%Z, 3 # 2); (193000000000000%Z, 4)] pts /\
    StronglySorted freq_le pts /\
    filter (at_frequency 193000000000000) pts
    = [(193000000000000%Z, 3 # 2); (193000000000000%Z, 4)] /\
    _extract_per_spectrum "gain-ripple" decimal_ripple_entry
    = Ok (map (interp_at pts) frequencies).
Proof.
  split; [|split].
  - spec_of "gain-ripple" single_point_entry. apply (proj1 H). reflexivity.
  - spec_of "nf-ripple" single_point_entry.
    eapply (proj2 (proj2 H) _ 193000000000000%Z (3 # 2)); [reflexivity|].
    sample_entry_tac.
  - spec_of "gain-ripple" decimal_ripple_entry.
    pose proof (proj1 (proj2 H)) as H2.
    specialize (H2 _ [(196000000000000%Z, 2); (191300000000000%Z, 1);
                      (193000000000000%Z, 3 # 2); (193000000000000%Z, 4)] eq_refl).
    destruct H2 as (pts & Hp & Hs & Hst & He & _).
    + repeat (constructor; [sample_entry_tac|]). constructor.
    + discriminate.
    + exists pts. split; [exact Hp|]. split; [exact Hs|].
      split; [exact (Hst 193000000000000%Z) | exact He].
Defined.

End SpectrumClaim.

(** ** The amplifier transform *)

Ltac bind_inv H :=
  repeat match type of H with
         | bind ?r _ = Ok _ =>
             let a := fresh "a" in
             let Ha := fresh "Ha" in
             apply bind_ok in H as (a & Ha & H)
         end.

Section TransformFacts.
Variable estimate_nf_model : string -> Q -> Q -> Q -> Q -> result (Q * Q * Q).

Lemma classify_nf_none name ms :
  filter (dict_has ms) (tl nf_keys) = [] ->
  classify_nf estimate_nf_model name (YObj ms) = Raise (unrecognized_model name).
Proof.
  unfold classify_nf, nf_keys. cbn [tl filter yang_in bind].
  repeat match goal with
         | |- context [dict_has ms ?k] => destruct (dict_has ms k); [discriminate|]
         end.
  reflexivity.
Qed.

Lemma classify_nf_first name ms nf :
  classify_nf estimate_nf_model name (YObj ms) = Ok nf ->
  exists k rest,
    filter (dict_has ms) (tl nf_keys) = k :: rest /\
    l_type_def nf = VStr (type_def_of k).
Proof.
  unfold classify_nf, nf_keys. cbn [tl filter yang_in bind].
  intros H.
  repeat match type of H with
         | context [dict_has ms ?k] =>
             destruct (dict_has ms k);
             [ bind_inv H;
               repeat match goal with
                      | x : (_ * _)%type |- _ => destruct x
                      end;
               injection H as <-; do 2 eexists; split; reflexivity
             | ]
         end.
  discriminate.
Qed.

(** C4 (amended). The amplifier transform classifies an entry by the
    first noise-figure sub-structure present, in the order composite,
    polynomial-NF, OpenROADM-ILA, OpenROADM-preamp, OpenROADM-booster,
    min-max-NF, raman-approximation: with none present it raises the
    unrecognized-model error, and whenever it returns, the type
    definition of the record is that of the first one present. *)
Theorem transform_edfa_first_present (ms : list (string * yang)) :
  (forall name,
      dict_get ms "type" = Some (YStr name) ->
      present_models (YObj ms) = [] ->
      _transform_edfa estimate_nf_model (YObj ms) = Raise (unrecognized_model name)) /\
  (forall amp,
      _transform_edfa estimate_nf_model (YObj ms) = Ok amp ->
      exists k rest,
        present_models (YObj ms) = k :: rest /\
        getattr amp "type_def" = Ok (VStr (type_def_of k))).
Proof.
  split.
  - intros name Htype Hnone.
    unfold _transform_edfa, member_str, present_models, nf_keys in *.
    cbn [yang_member bind yang_in filter] in *. rewrite Htype. cbn [bind yang_str].
    destruct (dict_has ms COMPOSITE); [discriminate|].
    now rewrite classify_nf_none.
  - intros amp H.
    unfold _transform_edfa in H.
    apply bind_ok in H as (name & _ & H).
    unfold present_models, nf_keys. cbn [yang_in bind filter] in *.
    destruct (dict_has ms COMPOSITE).
    + bind_inv H. injection H as <-. do 2 eexists. split; reflexivity.
    + apply bind_ok in H as (nf & Hnf & H).
      apply classify_nf_first in Hnf as (k & rest & Hk & Hdef).
      bind_inv H. injection H as <-.
      exists k, rest. split; [exact Hk|].
      cbn. now rewrite Hdef.
Qed.

End TransformFacts.

Section TransformExamples.

(** C4 (counterexample). An entry carrying both min-max-NF and
    polynomial-NF is transformed without error, as a polynomial fit. *)
Lemma two_models_accepted : ~ exactly_one_model_enforced.
Proof.
  intros H.
  destruct (H (fun _ _ _ _ _ => Ok (0, 0, 0)) two_models_entry) as (msg & E).
  - vm_compute. discriminate.
  - vm_compute in E. discriminate.
Qed.

Example two_models_type_def :
  forall est, exists amp,
    _transform_edfa est two_models_entry = Ok amp /\
    present_models two_models_entry = ["polynomial-NF"; "min-max-NF"] /\
    getattr amp "type_def" = Ok (VStr "advanced_model") /\
    getattr amp "nf_fit_coeff" = Ok (VFloats [0; 0; 0; 6]).
Proof. intros est. eexists. repeat split; vm_compute; reflexivity. Qed.

Lemma transform_edfa_first_present_witness :
  (forall est, _transform_edfa est no_model_entry = Raise (unrecognized_model "amp")) /\
  (forall est amp,
      _transform_edfa est two_models_entry = Ok amp ->
      exists k rest,
        present_models two_models_entry = k :: rest /\
        getattr amp "type_def" = Ok (VStr (type_def_of k))).
Proof.
  split.
  - intros est.
    apply (proj1 (transform_edfa_first_present est common_leaves) "amp"); reflexivity.
  - intros est amp.
    apply (proj2 (transform_edfa_first_present est _)).
Defined.

End TransformExamples.

(** ** Insertion-ordered dictionaries *)

Section OdictFacts.
Context {V : Type}.
Implicit Types (d : odict V) (k : string) (v : V).

Lemma dict_get_In d k v : dict_get d k = Some v -> In (k, v) d.
Proof.
  induction d as [|[k' v'] d IH]; simpl; [discriminate|].
  destruct (String.eqb_spec k k') as [->|_]; intros H.
  - injection H as ->. now left.
  - right. auto.
Qed.

Lemma dict_get_None d k : dict_get d k = None <-> ~ In k (dict_keys d).
Proof.
  induction d as [|[k' v'] d IH]; simpl; [tauto|].
  destruct (String.eqb_spec k k') as [->|Hne].
  - split; [discriminate | intros H; exfalso; apply H; now left].
  - rewrite IH. split; intros H; [intros [E|E]; [congruence | auto] | tauto].
Qed.

Lemma dict_get_Some_key d k v : dict_get d k = Some v -> In k (dict_keys d).
Proof. intros H. apply dict_get_In in H. now apply (in_map fst) in H. Qed.

Lemma dict_get_first d k v :
  NoDup (dict_keys d) -> In (k, v) d -> dict_get d k = Some v.
Proof.
  induction d as [|[k' v'] d IH]; simpl; [tauto|].
  intros Hnd [E|Hin].
  - injection E as -> ->. now rewrite String.eqb_refl.
  - inversion Hnd as [|? ? Hnotin Hnd']; subst.
    destruct (String.eqb_spec k k') as [->|_]; [|auto].
    exfalso. apply Hnotin. now apply (in_map fst) in Hin.
Qed.

Lemma dict_get_app d1 d2 k :
  dict_get (d1 ++ d2) k
  = match dict_get d1 k with Some v => Some v | None => dict_get d2 k end.
Proof.
  induction d1 as [|[k' v'] d1 IH]; simpl; [reflexivity|].
  destruct (String.eqb k k'); auto.
Qed.

Lemma dict_get_set_same d k v : dict_get (dict_set d k v) k = Some v.
Proof.
  induction d as [|[k' v'] d IH]; simpl.
  - now rewrite String.eqb_refl.
  - destruct (String.eqb_spec k k') as [->|Hne]; simpl.
    + now rewrite String.eqb_refl.
    + destruct (String.eqb_spec k k'); [contradiction | exact IH].
Qed.

Lemma dict_get_set_other d k k' v :
  k' <> k -> dict_get (dict_set d k v) k' = dict_get d k'.
Proof.
  intros Hne. induction d as [|[k0 v0] d IH]; simpl.
  - destruct (String.eqb_spec k' k); [contradiction | reflexivity].
  - destruct (String.eqb_spec k k0) as [->|Hk]; simpl.
    + destruct (String.eqb_spec k' k0); [contradiction | reflexivity].
    + destruct (String.eqb k' k0); [reflexivity | exact IH].
Qed.

Lemma dict_keys_set_in d k v :
  In k (dict_keys d) -> dict_keys (dict_set d k v) = dict_keys d.
Proof.
  induction d as [|[k0 v0] d IH]; simpl; [tauto|].
  intros H. destruct (String.eqb_spec k k0) as [->|Hk]; simpl; [reflexivity|].
  f_equal. apply IH. destruct H; [congruence | assumption].
Qed.

Lemma dict_keys_set_new d k v :
  ~ In k (dict_keys d) -> dict_keys (dict_set d k v) = dict_keys d ++ [k].
Proof.
  induction d as [|[k0 v0] d IH]; simpl; [reflexivity|].
  intros H. destruct (String.eqb_spec k k0) as [->|Hk]; simpl.
  - exfalso. apply H. now left.
  - f_equal. apply IH. tauto.
Qed.

Lemma dict_keys_set_incl d k v k' :
  In k' (dict_keys d) -> In k' (dict_keys (dict_set d k v)).
Proof.
  intros H. destruct (in_dec string_dec k (dict_keys d)) as [Hin|Hout].
  - now rewrite dict_keys_set_in.
  - rewrite dict_keys_set_new by assumption. apply in_or_app. now left.
Qed.

Lemma dict_keys_set_key d k v : In k (dict_keys (dict_set d k v)).
Proof. eapply dict_get_Some_key, dict_get_set_same. Qed.

Lemma dict_set_nodup d k v : NoDup (dict_keys d) -> NoDup (dict_keys (dict_set d k v)).
Proof.
  intros H. destruct (in_dec string_dec k (dict_keys d)) as [Hin|Hout].
  - now rewrite dict_keys_set_in.
  - rewrite dict_keys_set_new by assumption.
    apply NoDup_app; [assumption | repeat constructor; simpl; tauto |].
    intros x Hx [<-|[]]. contradiction.
Qed.

(** Writing the value a key already has changes nothing. *)
Lemma dict_set_same d k v : dict_get d k = Some v -> dict_set d k v = d.
Proof.
  induction d as [|[k0 v0] d IH]; simpl; [discriminate|].
  destruct (String.eqb_spec k k0) as [->|Hk]; intros H.
  - now injection H as ->.
  - f_equal. auto.
Qed.

(** Two dictionaries with the same keys in the same order and the same
    value under every key are the same dictionary. *)
Lemma dict_ext d1 d2 :
  NoDup (dict_keys d1) -> dict_keys d1 = dict_keys d2 ->
  (forall k, dict_get d1 k = dict_get d2 k) -> d1 = d2.
Proof.
  revert d2; induction d1 as [|[k1 v1] d1 IH]; intros [|[k2 v2] d2];
    simpl; intros Hnd Hk Hget; try discriminate; [reflexivity|].
  injection Hk as -> Hk. inversion Hnd as [|? ? Hnotin Hnd']; subst.
  pose proof (Hget k2) as H2. rewrite String.eqb_refl in H2. injection H2 as ->.
  f_equal. apply IH; [assumption | assumption |].
  intros k. specialize (Hget k).
  destruct (String.eqb_spec k k2) as [E|Hne]; [|assumption].
  rewrite E.
  transitivity (@None V); [|symmetry];
    apply dict_get_None; [assumption | now rewrite <- Hk].
Qed.

Lemma assign_app l1 l2 d : assign (l1 ++ l2) d = assign l2 (assign l1 d).
Proof. apply fold_left_app. Qed.

Lemma assign_nodup l d : NoDup (dict_keys d) -> NoDup (dict_keys (assign l d)).
Proof.
  revert d; induction l as [|[k v] l IH]; simpl; intros d H; [assumption|].
  apply IH. now apply dict_set_nodup.
Qed.

Lemma assign_keys_incl l d k : In k (dict_keys d) -> In k (dict_keys (assign l d)).
Proof.
  revert d; induction l as [|[k0 v0] l IH]; simpl; intros d H; [assumption|].
  apply IH. now apply dict_keys_set_incl.
Qed.

Lemma assign_keys_assigned l d k : In k (map fst l) -> In k (dict_keys (assign l d)).
Proof.
  revert d; induction l as [|[k0 v0] l IH]; simpl; intros d H; [contradiction|].
  destruct H as [<-|H]; [|auto].
  apply assign_keys_incl, dict_keys_set_key.
Qed.

Lemma assign_keys_stable l d :
  (forall k, In k (map fst l) -> In k (dict_keys d)) ->
  dict_keys (assign l d) = dict_keys d.
Proof.
  revert d; induction l as [|[k0 v0] l IH]; simpl; intros d H; [reflexivity|].
  rewrite IH.
  - apply dict_keys_set_in. apply H. now left.
  - intros k Hk. apply dict_keys_set_incl. apply H. now right.
Qed.

(** The value under a key after the run: the last one assigned to it,
    or the one it had. *)
Lemma assign_get l d k :
  dict_get (assign l d) k
  = match dict_get (rev l) k with Some v => Some v | None => dict_get d k end.
Proof.
  revert d; induction l as [|[k0 v0] l IH]; simpl; intros d; [reflexivity|].
  rewrite IH, dict_get_app. destruct (dict_get (rev l) k); [reflexivity|].
  simpl. destruct (String.eqb_spec k k0) as [->|Hne].
  - apply dict_get_set_same.
  - now apply dict_get_set_other.
Qed.

Lemma assign_idempotent l d :
  NoDup (dict_keys d) -> assign l (assign l d) = assign l d.
Proof.
  intros Hnd. apply dict_ext.
  - now do 2 apply assign_nodup.
  - apply assign_keys_stable. intros k. apply assign_keys_assigned.
  - intros k. rewrite (assign_get l (assign l d)), (assign_get l d).
    destruct (dict_get (rev l) k); reflexivity.
Qed.

End OdictFacts.

(** ** The dual-stage resolver *)

Ltac unalias := unfold Edfa_type.amp_table, pyobj, odict in *.

Section ResolverFacts.

Lemma setattr_in_update amps name attr v :
  setattr_in amps name attr v = update_entry amps name (fun o => dict_set o attr v).
Proof. induction amps as [|[n o] amps IH]; simpl; [reflexivity|]. now rewrite IH. Qed.

Lemma update_entry_keys amps n f : dict_keys (update_entry amps n f) = dict_keys amps.
Proof.
  induction amps as [|[n0 o] amps IH]; simpl; [reflexivity|].
  destruct (String.eqb n n0); simpl; [reflexivity | now rewrite IH].
Qed.

Lemma update_entry_get_same amps n f :
  dict_get (update_entry amps n f) n = option_map f (dict_get amps n).
Proof.
  induction amps as [|[n0 o] amps IH]; simpl; [reflexivity|].
  destruct (String.eqb n n0) eqn:E; simpl; rewrite E; [reflexivity | exact IH].
Qed.

Lemma update_entry_get_other amps n n' f :
  n' <> n -> dict_get (update_entry amps n f) n' = dict_get amps n'.
Proof.
  intros Hne. induction amps as [|[n0 o] amps IH]; simpl; [reflexivity|].
  destruct (String.eqb_spec n n0) as [->|Hn]; simpl.
  - destruct (String.eqb_spec n' n0); [contradiction | reflexivity].
  - destruct (String.eqb n' n0); [reflexivity | exact IH].
Qed.

Lemma update_entry_ext amps n f g :
  (forall o, f o = g o) -> update_entry amps n f = update_entry amps n g.
Proof.
  intros H. induction amps as [|[n0 o] amps IH]; simpl; [reflexivity|].
  now rewrite H, IH.
Qed.

Lemma update_entry_twice amps n f g :
  update_entry (update_entry amps n f) n g = update_entry amps n (fun o => g (f o)).
Proof.
  induction amps as [|[n0 o] amps IH]; simpl; [reflexivity|].
  destruct (String.eqb n n0) eqn:E; simpl; rewrite E; [reflexivity | now rewrite IH].
Qed.

Lemma update_entry_id amps n f :
  (forall o, dict_get amps n = Some o -> f o = o) -> update_entry amps n f = amps.
Proof.
  induction amps as [|[n0 o] amps IH]; simpl; [reflexivity|].
  destruct (String.eqb n n0); intros H.
  - now rewrite H.
  - now rewrite IH.
Qed.

Lemma update_entry_app_r pre rest n f :
  ~ In n (dict_keys pre) -> update_entry (pre ++ rest) n f = pre ++ update_entry rest n f.
Proof.
  induction pre as [|[n0 o] pre IH]; simpl; [reflexivity|].
  intros H. destruct (String.eqb_spec n n0) as [->|Hne]; [tauto|].
  rewrite IH by tauto. reflexivity.
Qed.

Lemma update_entry_app_l pre rest n f :
  In n (dict_keys pre) -> update_entry (pre ++ rest) n f = update_entry pre n f ++ rest.
Proof.
  induction pre as [|[n0 o] pre IH]; simpl; [tauto|].
  intros H. destruct (String.eqb_spec n n0) as [->|Hne]; [reflexivity|].
  rewrite IH; [reflexivity|]. destruct H; [congruence | assumption].
Qed.

Lemma skipn_nth_error {A} (l : list A) i x :
  nth_error l i = Some x -> skipn i l = x :: skipn (S i) l.
Proof.
  revert i; induction l as [|a l IH]; intros [|i]; simpl; try discriminate.
  - now intros [= ->].
  - intros H. now rewrite (IH i H).
Qed.

(** Copying from another object: the iterator never sees the source
    change, and every attribute is written to the target in turn. *)
Lemma copy_attrs_distinct r prefix src dst d amps :
  src <> dst -> dict_get amps src = Some d -> (r <= length d)%nat ->
  copy_attrs r prefix src dst (length d) amps
  = (update_entry amps dst (assign (prefixed prefix (skipn (length d - r) d))), Ok tt).
Proof.
  intros Hne. revert amps; induction r as [|r IH]; intros amps Hd Hr.
  - cbn [copy_attrs]. unalias. rewrite Hd, Nat.eqb_refl. cbn [negb].
    rewrite Nat.sub_0_r, skipn_all. cbn [prefixed map].
    now rewrite update_entry_id.
  - cbn [copy_attrs]. unalias. rewrite Hd, Nat.eqb_refl. cbn [negb].
    destruct (nth_error d (length d - S r)) as [[attr v]|] eqn:En.
    + rewrite IH; [| now rewrite setattr_in_update, update_entry_get_other | lia].
      rewrite (skipn_nth_error _ _ _ En).
      replace (S (length d - S r)) with (length d - r)%nat by lia.
      rewrite setattr_in_update, update_entry_twice. reflexivity.
    + apply nth_error_None in En. lia.
Qed.

Lemma copy_prefixed_distinct prefix src dst d amps :
  src <> dst -> dict_get amps src = Some d ->
  copy_prefixed prefix src dst amps
  = (update_entry amps dst (assign (prefixed prefix d)), Ok tt).
Proof.
  intros Hne Hd. unfold copy_prefixed. rewrite Hd.
  rewrite copy_attrs_distinct by auto.
  now rewrite Nat.sub_diag.
Qed.

(** The loop body on a non-composite entry. *)
Lemma fixup_entry_plain n o amps :
  dict_get amps n = Some o -> getattr o DSM = Ok VNone ->
  fixup_entry n amps = (amps, Ok tt).
Proof. intros Hn Ho. unfold fixup_entry. unfold DSM in Ho. now rewrite Hn, Ho. Qed.

(** The loop body on a composite whose two stages are other entries. *)
Lemma fixup_entry_composite n o p b A B amps :
  dict_get amps n = Some o -> getattr o DSM = Ok (Model_dual_stage p b) ->
  dict_get amps p = Some A -> dict_get amps b = Some B -> p <> n -> b <> n ->
  fixup_entry n amps = (update_entry amps n (enrich A B), Ok tt).
Proof.
  intros Hn Ho HA HB Hp Hb. unfold fixup_entry. unfold DSM in Ho.
  rewrite Hn, Ho, HA, HB.
  rewrite (copy_prefixed_distinct _ _ _ A) by assumption.
  rewrite (copy_prefixed_distinct _ _ _ B);
    [| assumption | now rewrite update_entry_get_other].
  now rewrite update_entry_twice.
Qed.

(** The loop body on a composite with a stage that is not in the table:
    nothing is written. *)
Lemma fixup_entry_unresolved n o p b amps :
  dict_get amps n = Some o -> getattr o DSM = Ok (Model_dual_stage p b) ->
  (dict_get amps p = None \/ dict_get amps b = None) ->
  exists m, fixup_entry n amps = (amps, Raise (KeyError m)) /\
            (m = p \/ m = b) /\ dict_get amps m = None.
Proof.
  intros Hn Ho Hmiss. unfold fixup_entry. unfold DSM in Ho. rewrite Hn, Ho.
  destruct (dict_get amps p) eqn:Ep.
  - destruct Hmiss as [|Eb]; [discriminate|]. rewrite Eb. exists b. auto.
  - exists p. auto.
Qed.

(** The prefixed names never collide with the attribute the resolver
    tests. *)
Lemma enrich_keeps_model A B o : getattr (enrich A B o) DSM = getattr o DSM.
Proof.
  unfold getattr, enrich. rewrite !assign_get.
  assert (H : forall prefix d, (prefix = "preamp_" \/ prefix = "booster_") ->
                               dict_get (rev (prefixed prefix d)) DSM = None).
  { intros prefix d Hp. apply dict_get_None. intros Hin.
    unfold dict_keys in Hin. apply in_map_iff in Hin as ([k v] & Hk & Hin).
    apply in_rev in Hin. unfold prefixed in Hin.
    apply in_map_iff in Hin as ([k0 v0] & E & _).
    injection E as <- <-. simpl in Hk.
    destruct Hp as [-> | ->]; discriminate Hk. }
  now rewrite !H by auto.
Qed.

End ResolverFacts.

Section ResolverFlat.

Lemma resolve_plain amps o : plain o -> resolve amps o = o.
Proof. unfold plain, resolve. now intros ->. Qed.

Lemma resolve_composite amps o p b A B :
  getattr o DSM = Ok (Model_dual_stage p b) ->
  dict_get amps p = Some A -> dict_get amps b = Some B ->
  resolve amps o = enrich A B o.
Proof. unfold resolve. now intros -> -> ->. Qed.

Lemma map_resolve_keys t l : dict_keys (map (resolve_entry t) l) = dict_keys l.
Proof. unfold dict_keys. rewrite map_map. reflexivity. Qed.

Lemma map_resolve_get t l k :
  dict_get (map (resolve_entry t) l) k = option_map (resolve t) (dict_get l k).
Proof.
  induction l as [|[n o] l IH]; simpl; [reflexivity|].
  destruct (String.eqb k n); [reflexivity | exact IH].
Qed.

(** A non-composite entry reads the same in a partly resolved table. *)
Lemma partly_resolved_get t pre suf k A :
  dict_get (pre ++ suf) k = Some A -> plain A ->
  dict_get (map (resolve_entry t) pre ++ suf) k = Some A.
Proof.
  intros Hget HA. rewrite dict_get_app in *. rewrite map_resolve_get.
  destruct (dict_get pre k) as [A'|]; [|assumption].
  injection Hget as ->. simpl. now rewrite resolve_plain.
Qed.

Lemma fixup_loop_flat t pre suf :
  t = pre ++ suf -> NoDup (dict_keys t) -> flat_table t ->
  fixup_loop (dict_keys suf) (map (resolve_entry t) pre ++ suf)
  = (resolved t, Ok tt).
Proof.
  revert pre; induction suf as [|[n o] suf IH]; intros pre Ht Hnd Hflat.
  - simpl. rewrite !app_nil_r in *. now subst.
  - assert (Hnotin : ~ In n (dict_keys pre)).
    { subst t. unfold dict_keys in Hnd. rewrite map_app in Hnd.
      apply NoDup_remove_2 in Hnd. intros H. apply Hnd.
      apply in_or_app. now left. }
    assert (Hcur : dict_get (map (resolve_entry t) pre ++ (n, o) :: suf) n = Some o).
    { rewrite dict_get_app, map_resolve_get.
      apply dict_get_None in Hnotin. unalias. rewrite Hnotin. simpl.
      now rewrite String.eqb_refl. }
    assert (Hnext : map (resolve_entry t) pre ++ (n, resolve t o) :: suf
                    = map (resolve_entry t) (pre ++ [(n, o)]) ++ suf).
    { rewrite map_app, <- app_assoc. reflexivity. }
    assert (Ht' : t = (pre ++ [(n, o)]) ++ suf) by now rewrite <- app_assoc.
    destruct (Hflat n o) as [[Hplain | (p & b & A & B & Ho & HA & HAp & HB & HBp)] _].
    { subst t. apply in_or_app. right. now left. }
    + cbn [dict_keys map fixup_loop fst].
      rewrite (fixup_entry_plain _ _ _ Hcur Hplain).
      rewrite <- (resolve_plain t o Hplain) at 1.
      rewrite Hnext. now apply IH.
    + assert (Hton : dict_get t n = Some o).
      { subst t. rewrite dict_get_app. apply dict_get_None in Hnotin.
        unalias. rewrite Hnotin. simpl. now rewrite String.eqb_refl. }
      assert (Hpn : p <> n).
      { intros ->. unalias. rewrite Hton in HA. injection HA as <-.
        unfold plain in HAp. congruence. }
      assert (Hbn : b <> n).
      { intros ->. unalias. rewrite Hton in HB. injection HB as <-.
        unfold plain in HBp. congruence. }
      cbn [dict_keys map fixup_loop fst].
      rewrite (fixup_entry_composite n o p b A B); try assumption;
        try (apply partly_resolved_get; [now rewrite <- Ht | assumption]).
      rewrite update_entry_app_r by now rewrite map_resolve_keys.
      cbn [update_entry]. rewrite String.eqb_refl.
      rewrite <- (resolve_composite t o p b A B) by assumption.
      rewrite Hnext. now apply IH.
Qed.

(** On a flat table the resolver returns, and the table it leaves is the
    table of the resolved records. *)
Lemma fixup_dual_stage_flat t :
  NoDup (dict_keys t) -> flat_table t ->
  _fixup_dual_stage t = (resolved t, Ok (resolved t)).
Proof.
  intros Hnd Hflat. unfold _fixup_dual_stage.
  pose proof (fixup_loop_flat t [] t eq_refl Hnd Hflat) as H.
  cbn [map app] in H. now rewrite H.
Qed.

Lemma enrich_nodup A B o : NoDup (dict_keys o) -> NoDup (dict_keys (enrich A B o)).
Proof. intros H. unfold enrich. now do 2 apply assign_nodup. Qed.

Lemma enrich_idempotent A B o :
  NoDup (dict_keys o) -> enrich A B (enrich A B o) = enrich A B o.
Proof.
  intros H. unfold enrich. rewrite <- !assign_app.
  rewrite app_assoc, assign_app. now apply assign_idempotent.
Qed.

Lemma resolved_get t k :
  dict_get (resolved t) k = option_map (resolve t) (dict_get t k).
Proof. apply map_resolve_get. Qed.

Lemma resolved_flat t : NoDup (dict_keys t) -> flat_table t -> flat_table (resolved t).
Proof.
  intros Hnd Hflat n o' Hin. unfold resolved in Hin.
  apply in_map_iff in Hin as ([n0 o] & E & Hin). injection E as <- <-. simpl.
  destruct (Hflat _ _ Hin) as [[Hplain | (p & b & A & B & Ho & HA & HAp & HB & HBp)] Hdup].
  - rewrite resolve_plain by assumption. split; [now left | assumption].
  - rewrite (resolve_composite t o p b A B) by assumption.
    split; [|now apply enrich_nodup].
    right. exists p, b, A, B. rewrite enrich_keeps_model, !resolved_get.
    unalias. rewrite HA, HB. simpl. rewrite !resolve_plain by assumption. auto.
Qed.

Lemma resolved_twice t :
  NoDup (dict_keys t) -> flat_table t -> resolved (resolved t) = resolved t.
Proof.
  intros Hnd Hflat. unfold resolved at 1. unfold resolved at 2 3. rewrite map_map.
  apply map_ext_in. intros [n o] Hin. unfold resolve_entry. simpl. f_equal.
  destruct (Hflat _ _ Hin) as [[Hplain | (p & b & A & B & Ho & HA & HAp & HB & HBp)] Hdup].
  - rewrite (resolve_plain t o Hplain). now apply resolve_plain.
  - rewrite (resolve_composite t o p b A B) by assumption.
    rewrite (resolve_composite (resolved t) _ p b A B).
    + now apply enrich_idempotent.
    + now rewrite enrich_keeps_model.
    + rewrite resolved_get. unalias. rewrite HA. simpl. now rewrite resolve_plain.
    + rewrite resolved_get. unalias. rewrite HB. simpl. now rewrite resolve_plain.
Qed.

(** C6. On an amplifier table whose composites name only entries that are
    not composites, the resolver returns, and applied to the table it
    left it returns again and leaves every record, hence the preamp_ and
    booster_ attributes of every composite, as it was. *)
Theorem fixup_dual_stage_idempotent (amps : amp_table) :
  NoDup (dict_keys amps) -> flat_table amps ->
  exists amps1,
    _fixup_dual_stage amps = (amps1, Ok amps1) /\
    _fixup_dual_stage amps1 = (amps1, Ok amps1).
Proof.
  intros Hnd Hflat. exists (resolved amps).
  split; [now apply fixup_dual_stage_flat|].
  rewrite fixup_dual_stage_flat.
  - now rewrite resolved_twice.
  - unfold resolved. now rewrite map_resolve_keys.
  - now apply resolved_flat.
Qed.

End ResolverFlat.

Section ResolverUnresolved.

Lemma kept_keys l l' : Forall2 kept l l' -> dict_keys l' = dict_keys l.
Proof.
  induction 1 as [|e e' l l' [Hk _] _ IH]; simpl; [reflexivity|].
  now rewrite Hk, IH.
Qed.

Lemma settled_kept amps l l' : Forall2 (settled amps) l l' -> Forall2 kept l l'.
Proof.
  induction 1 as [|e e' l0 l0' (Hk & Hp & _) _ IH]; constructor; [now split | assumption].
Qed.

Lemma dict_get_key {V} (d : odict V) k : In k (dict_keys d) -> exists v, dict_get d k = Some v.
Proof.
  intros H. destruct (dict_get d k) eqn:E; [eauto|].
  apply dict_get_None in E. contradiction.
Qed.

(** An entry that is not a composite reads the same while the loop is
    under way. *)
Lemma kept_get_plain done done' rest k A :
  Forall2 kept done done' -> dict_get (done ++ rest) k = Some A -> plain A ->
  dict_get (done' ++ rest) k = Some A.
Proof.
  induction 1 as [|[n o] [n' o'] l0 l0' [Hk Hp] _ IH]; cbn [app dict_get]; [auto|].
  cbn [fst snd] in Hk, Hp. subst n'.
  destruct (String.eqb k n); [|exact IH].
  intros E HA. injection E as ->. specialize (Hp HA). now injection Hp as ->.
Qed.

Lemma settled_resolve T done done' rest n o :
  done ++ rest = T -> Forall2 kept done done' ->
  settled T (n, o) (n, resolve (done' ++ rest) o).
Proof.
  intros HT Hk. split; [reflexivity|]. split.
  - cbn [snd]. intros Hp. now rewrite resolve_plain.
  - cbn [snd]. intros p b A B Ho HA HAp HB HBp. subst T.
    apply (resolve_composite _ o p b A B Ho);
      eapply kept_get_plain; eassumption.
Qed.

Lemma fixup_loop_unresolved T keys name amp post p b todo :
  forall done done',
    done ++ todo ++ (name, amp) :: post = T ->
    dict_keys T = keys ->
    NoDup keys ->
    Forall (fun e =>
              plain (snd e) \/
              exists p b,
                getattr (snd e) DSM = Ok (Model_dual_stage p b) /\
                In p keys /\ In b keys /\ p <> fst e /\ b <> fst e) todo ->
    getattr amp DSM = Ok (Model_dual_stage p b) ->
    (~ In p keys \/ ~ In b keys) ->
    Forall2 (settled T) done done' ->
    exists m,
      fixup_loop (dict_keys (todo ++ (name, amp) :: post))
                 (done' ++ todo ++ (name, amp) :: post)
      = (enrich_in_turn done' todo ((name, amp) :: post) ++ (name, amp) :: post,
         Raise (KeyError m)) /\
      (m = p \/ m = b) /\ ~ In m keys /\
      Forall2 (settled T) (done ++ todo)
              (enrich_in_turn done' todo ((name, amp) :: post)).
Proof.
  induction todo as [|[n o] todo IH];
    intros done done' HT Hkeys Hnd Hres Hamp Hmiss Hset;
    pose proof (settled_kept _ _ _ Hset) as Hkept.
  - cbn [app enrich_in_turn] in *. rewrite app_nil_r.
    assert (Hcurkeys : dict_keys (done' ++ (name, amp) :: post) = keys).
    { rewrite <- Hkeys, <- HT. unfold dict_keys. rewrite !map_app. f_equal.
      apply (kept_keys _ _ Hkept). }
    assert (Hcur : dict_get (done' ++ (name, amp) :: post) name = Some amp).
    { apply dict_get_first; [now rewrite Hcurkeys|]. apply in_or_app. right. now left. }
    destruct (fixup_entry_unresolved name amp p b _ Hcur Hamp) as (m & Hm & Hpb & Hnone).
    { rewrite !dict_get_None, Hcurkeys. exact Hmiss. }
    exists m. cbn [dict_keys map fixup_loop fst]. rewrite Hm.
    repeat split; try assumption.
    rewrite <- Hcurkeys. now apply dict_get_None.
  - inversion Hres as [|? ? Hn Hres']; subst keys. cbn [snd fst] in Hn.
    cbn [app] in *.
    assert (Hcurkeys : dict_keys (done' ++ (n, o) :: todo ++ (name, amp) :: post)
                       = dict_keys T).
    { rewrite <- HT. unfold dict_keys. rewrite !map_app. f_equal.
      apply (kept_keys _ _ Hkept). }
    assert (Hcur : dict_get (done' ++ (n, o) :: todo ++ (name, amp) :: post) n = Some o).
    { apply dict_get_first; [now rewrite Hcurkeys|]. apply in_or_app. right. now left. }
    assert (Hshift : forall l (x : string * pyobj),
               (l ++ [x]) ++ todo ++ (name, amp) :: post
               = l ++ x :: todo ++ (name, amp) :: post).
    { intros l1 x1. now rewrite <- app_assoc. }
    set (current := done' ++ (n, o) :: todo ++ (name, amp) :: post) in *.
    destruct (IH (done ++ [(n, o)]) (done' ++ [(n, resolve current o)]))
      as (m & Hrun & Hm & Hout & Hk); try assumption; try reflexivity.
    { now rewrite Hshift. }
    { apply Forall2_app; [assumption|]. constructor; [|constructor].
      now apply (settled_resolve T done done'). }
    exists m. cbn [enrich_in_turn]. fold current.
    rewrite <- app_assoc in Hk. cbn [app] in Hk.
    split; [|auto].
    cbn [dict_keys map fixup_loop fst].
    rewrite Hshift in Hrun. unfold dict_keys in Hrun.
    destruct Hn as [Hplain | (p' & b' & Ho & Hp' & Hb' & Hpn & Hbn)].
    + rewrite (fixup_entry_plain _ _ _ Hcur Hplain).
      rewrite (resolve_plain current o Hplain) in Hrun at 1.
      exact Hrun.
    + rewrite <- Hcurkeys in Hp', Hb'.
      destruct (dict_get_key _ _ Hp') as (A & HA).
      destruct (dict_get_key _ _ Hb') as (B & HB).
      rewrite (fixup_entry_composite n o p' b' A B) by assumption.
      assert (Hnotin : ~ In n (dict_keys done')).
      { rewrite (kept_keys _ _ Hkept).
        rewrite <- HT in Hnd. unfold dict_keys in Hnd. rewrite map_app in Hnd.
        cbn [map fst] in Hnd.
        apply NoDup_remove_2 in Hnd. intros Hin. apply Hnd.
        apply in_or_app. now left. }
      unfold current at 1. rewrite update_entry_app_r by assumption.
      cbn [update_entry]. rewrite String.eqb_refl.
      rewrite (resolve_composite current o p' b' A B Ho HA HB) in Hrun at 1.
      exact Hrun.
Qed.

(** C3 (amended). When a composite names a preamp or booster type that
    is not in the table, and the entries before it are entries the
    resolver gets past, the resolver raises KeyError on the missing
    name; the offending entry and every entry after it are left as they
    were, and so is every entry before it that is not a composite.  Each
    composite before it has been resolved by then: the table holds it
    with the attributes of its two stages, as the table held them when
    the loop came to it, under the prefixed names; these are the
    attributes of the stage records when the stages are not
    composites. *)
Theorem fixup_dual_stage_unresolved pre name amp post p b :
  NoDup (dict_keys (pre ++ (name, amp) :: post)) ->
  Forall (resolvable (pre ++ (name, amp) :: post)) pre ->
  getattr amp DSM = Ok (Model_dual_stage p b) ->
  (~ In p (dict_keys (pre ++ (name, amp) :: post)) \/
   ~ In b (dict_keys (pre ++ (name, amp) :: post))) ->
  exists pre' m,
    _fixup_dual_stage (pre ++ (name, amp) :: post)
    = (pre' ++ (name, amp) :: post, Raise (KeyError m)) /\
    (m = p \/ m = b) /\
    ~ In m (dict_keys (pre ++ (name, amp) :: post)) /\
    pre' = enrich_in_turn [] pre ((name, amp) :: post) /\
    Forall2 (settled (pre ++ (name, amp) :: post)) pre pre'.
Proof.
  intros Hnd Hres Hamp Hmiss.
  destruct (fixup_loop_unresolved (pre ++ (name, amp) :: post) _ name amp post p b pre
              [] [] eq_refl eq_refl Hnd Hres Hamp Hmiss)
    as (m & Hrun & Hm & Hout & Hk); [constructor|].
  exists (enrich_in_turn [] pre ((name, amp) :: post)), m. unfold _fixup_dual_stage.
  cbn [app] in Hrun. rewrite Hrun. auto.
Qed.

End ResolverUnresolved.

Section ResolverExamples.

Example abc_resolved :
  exists amps1 c,
    _fixup_dual_stage abc_table = (amps1, Ok amps1) /\
    dict_get amps1 "C" = Some c /\
    getattr c "preamp_nf_model" = Ok (Model_fg 5) /\
    getattr c "booster_nf_model" = Ok (Model_fg 6) /\
    dict_get amps1 "A" = Some (fixed_gain "A" 5).
Proof. do 2 eexists. repeat split; vm_compute; reflexivity. Qed.

Lemma abc_table_flat : flat_table abc_table.
Proof.
  intros n o [E|[E|[E|[]]]]; injection E as <- <-;
    (split; [| repeat constructor; simpl; intuition discriminate]).
  - now left.
  - now left.
  - right. exists "A", "B", (fixed_gain "A" 5), (fixed_gain "B" 6).
    repeat split; reflexivity.
Defined.

Lemma abc_table_nodup : NoDup (dict_keys abc_table).
Proof. repeat constructor; simpl; intuition discriminate. Defined.

Lemma fixup_dual_stage_idempotent_witness :
  exists amps1,
    _fixup_dual_stage abc_table = (amps1, Ok amps1) /\
    _fixup_dual_stage amps1 = (amps1, Ok amps1).
Proof.
  apply (fixup_dual_stage_idempotent abc_table abc_table_nodup abc_table_flat).
Defined.

(** C3 (counterexample). In [dangling_table] the resolver raises on C2,
    and by then C1 carries the attributes of A and B. *)
Lemma earlier_composite_resolved : ~ unresolved_leaves_others_unchanged.
Proof.
  intros H.
  destruct (H dangling_table "C2" (composite "C2" "A" "missing") "A" "missing")
    as (amps' & e & Hrun & Hsame); [reflexivity | reflexivity | now right |].
  vm_compute in Hrun. injection Hrun as <- _.
  specialize (Hsame "C1"). vm_compute in Hsame.
  assert (E : "C1" <> "C2") by discriminate.
  specialize (Hsame E). discriminate Hsame.
Qed.

Example dangling_run :
  exists amps' c1,
    _fixup_dual_stage dangling_table = (amps', Raise (KeyError "missing")) /\
    dict_get amps' "C1" = Some c1 /\
    getattr c1 "preamp_nf_model" = Ok (Model_fg 5) /\
    dict_get amps' "C2" = Some (composite "C2" "A" "missing") /\
    dict_get amps' "A" = Some (fixed_gain "A" 5) /\
    dict_get amps' "B" = Some (fixed_gain "B" 6).
Proof. do 2 eexists. repeat split; vm_compute; reflexivity. Qed.

Lemma fixup_dual_stage_unresolved_witness :
  exists m,
    _fixup_dual_stage dangling_table
    = ([("C1", enrich (fixed_gain "A" 5) (fixed_gain "B" 6) (composite "C1" "A" "B"));
        ("C2", composite "C2" "A" "missing");
        ("A", fixed_gain "A" 5); ("B", fixed_gain "B" 6)],
       Raise (KeyError m)) /\
    (m = "A" \/ m = "missing") /\
    ~ In m (dict_keys dangling_table).
Proof.
  destruct (fixup_dual_stage_unresolved
              [("C1", composite "C1" "A" "B")] "C2" (composite "C2" "A" "missing")
              [("A", fixed_gain "A" 5); ("B", fixed_gain "B" 6)] "A" "missing")
    as (pre' & m & Hrun & Hm & Hout & Hpre & Hset).
  - repeat constructor; simpl; intuition discriminate.
  - constructor; [|constructor]. right. exists "A", "B". simpl.
    repeat split; try reflexivity; try discriminate; tauto.
  - reflexivity.
  - right. simpl. intuition discriminate.
  - subst pre'. exists m. split; [exact Hrun | split; assumption].
Defined.

(** A composite that names itself: the copy loop sees its own writes. *)
Example self_reference :
  exists amps',
    _fixup_dual_stage [("S", composite "S" "S" "S")] = (amps', Raise changed_size) /\
    dict_get amps' "S"
    = Some (composite "S" "S" "S" ++ [("preamp_type_variety", VStr "S")]).
Proof. eexists. split; vm_compute; reflexivity. Qed.

End ResolverExamples.

(** ** The network loader *)

Section LoaderFacts.

Lemma new_Roadm_variant u t md params el :
  new_Roadm u t md params = Ok el -> variant_of el = IsRoadm /\ uid el = u.
Proof.
  unfold new_Roadm. intros H. bind_inv H. injection H as <-. now split.
Qed.

Lemma number_leaf_float leaf q : number_leaf leaf q -> yang_float leaf = Ok q.
Proof. intros [->|(z & -> & ->)]; reflexivity. Qed.

Lemma find_member_coordinate g name q :
  local_name name = name -> coordinate g name q ->
  exists leaf, find_member g name = Some leaf /\
               find_member g ("tip-photonic-topology:" ++ name) = Some leaf /\
               yang_float leaf = Ok q.
Proof.
  intros Hn (leaf & Hl & Hq). exists leaf.
  assert (Hp : local_name ("tip-photonic-topology:" ++ name) = name).
  { unfold local_name.
    change (String.prefix "tip-photonic-topology:" ("tip-photonic-topology:" ++ name))
      with (String.prefix "" name).
    replace (String.prefix "" name) with true by (now destruct name).
    change (String.length ("tip-photonic-topology:" ++ name)) with (22 + String.length name)%nat.
    replace (22 + String.length name - 22)%nat with (String.length name) by lia.
    change (substring 22 (String.length name) ("tip-photonic-topology:" ++ name))
      with (substring 0 (String.length name) name).
    clear. induction name as [|c n IH]; [reflexivity|]. cbn. now rewrite IH. }
  unfold find_member. rewrite Hp, Hn.
  destruct Hl as [Hl | [Hn' Hl]].
  - rewrite Hl. repeat split. now apply number_leaf_float.
  - rewrite Hn', Hl. repeat split. now apply number_leaf_float.
Qed.

(** A geo-location with both coordinates, however spelled, is read. *)
Lemma read_location_coordinates (ms g : odict yang) (lon lat : Q) :
  dict_get ms "tip-photonic-topology:geo-location" = Some (YObj g) ->
  coordinate g "x" lon -> coordinate g "y" lat ->
  read_location (YObj ms) = Ok (Some {| latitude := lat; longitude := lon |}).
Proof.
  intros Hg Hx Hy. unfold read_location. cbn [yang_in yang_member]. unfold dict_has.
  rewrite Hg. cbn [bind].
  destruct (find_member_coordinate g "x" lon eq_refl Hx) as (lx & Hx1 & Hx2 & Hxq).
  destruct (find_member_coordinate g "y" lat eq_refl Hy) as (ly & Hy1 & Hy2 & Hyq).
  unfold topology_in, topology_float. rewrite Hx1, Hy1. cbn [bind andb].
  cbn [append] in Hx2, Hy2. rewrite Hx2, Hy2, Hxq, Hyq. reflexivity.
Qed.

(** A geo-location that lacks a coordinate is no location. *)
Lemma read_location_incomplete (ms g : odict yang) :
  dict_get ms "tip-photonic-topology:geo-location" = Some (YObj g) ->
  no_coordinate g "x" \/ no_coordinate g "y" ->
  read_location (YObj ms) = Ok None.
Proof.
  intros Hg Hno. unfold read_location. cbn [yang_in yang_member]. unfold dict_has.
  rewrite Hg. cbn [bind]. unfold topology_in, find_member.
  change (local_name "x") with "x". change (local_name "y") with "y". cbn [append].
  destruct Hno as [[H1 H2] | [H1 H2]]; cbn [append] in H2.
  - rewrite H1, H2. reflexivity.
  - rewrite H1, H2. cbn [bind].
    destruct (dict_get g "x") as [x|]; [reflexivity|].
    destruct (dict_get g "tip-photonic-topology:x"); reflexivity.
Qed.

(** C7 (amended). The loader classifies a topology node by the first of
    the amplifier, roadm, transceiver and attenuator sub-structures that
    is present, in that order: with none present it raises a ValueError
    that carries the node, and whenever it builds an element, the
    element is of the variant of the first one present and has the
    node's identifier and, unless it is an attenuator, the node's
    location.  The location of a node is the pair of the coordinates of
    its geo-location; a node without a geo-location, or with one that
    lacks a coordinate, has none. *)
Theorem load_node_first_present (equipment : equipment) (ms : list (string * yang)) :
  (forall u loc,
      dict_get ms "node-id" = Some (YStr u) ->
      read_location (YObj ms) = Ok loc ->
      present_kinds (YObj ms) = [] ->
      load_node equipment (YObj ms) = Raise (unrecognized_node (YObj ms))) /\
  (forall el,
      load_node equipment (YObj ms) = Ok el ->
      exists k rest,
        present_kinds (YObj ms) = k :: rest /\
        variant_of el = variant_for k /\
        dict_get ms "node-id" = Some (YStr (uid el)) /\
        (variant_of el <> IsFused -> read_location (YObj ms) = Ok (metadata el))) /\
  (dict_get ms "tip-photonic-topology:geo-location" = None ->
   read_location (YObj ms) = Ok None) /\
  (forall g,
      dict_get ms "tip-photonic-topology:geo-location" = Some (YObj g) ->
      no_coordinate g "x" \/ no_coordinate g "y" ->
      read_location (YObj ms) = Ok None) /\
  (forall g lon lat,
      dict_get ms "tip-photonic-topology:geo-location" = Some (YObj g) ->
      coordinate g "x" lon -> coordinate g "y" lat ->
      read_location (YObj ms) = Ok (Some {| latitude := lat; longitude := lon |})).
Proof.
  split; [|split; [|split; [|split]]].
  - intros u loc Hu Hloc Hnone. unfold load_node, member_str.
    cbn [yang_member]. rewrite Hu. cbn [bind yang_str]. rewrite Hloc.
    unfold present_kinds, node_kinds in Hnone.
    cbn [bind yang_in filter] in *.
    repeat match goal with
           | |- context [dict_has ms ?k] => destruct (dict_has ms k); [discriminate|]
           end.
    reflexivity.
  - intros el H. unfold load_node in H.
    apply bind_ok in H as (u & Hu & H).
    apply bind_ok in H as (loc & Hloc & H).
    assert (Hid : dict_get ms "node-id" = Some (YStr u)).
    { unfold member_str in Hu. cbn [yang_member] in Hu.
      destruct (dict_get ms "node-id") as [[]|]; try discriminate Hu.
      cbn in Hu. now injection Hu as ->. }
    unfold present_kinds, node_kinds. cbn [bind yang_in filter] in *.
    destruct (dict_has ms "tip-photonic-topology:amplifier").
    { bind_inv H. injection H as <-.
      do 2 eexists. repeat split; try assumption; intros _; exact Hloc. }
    destruct (dict_has ms "tip-photonic-topology:roadm").
    { bind_inv H. pose proof H as Hmd. apply new_Roadm_variant in H as [Hv Hu'].
      unfold new_Roadm in Hmd. bind_inv Hmd. injection Hmd as <-.
      do 2 eexists. repeat split; try assumption; intros _; exact Hloc. }
    destruct (dict_has ms "tip-photonic-topology:transceiver").
    { bind_inv H. injection H as <-.
      do 2 eexists. repeat split; try assumption; intros _; exact Hloc. }
    destruct (dict_has ms "tip-photonic-topology:attenuator").
    { bind_inv H. injection H as <-. do 2 eexists.
      split; [reflexivity|]. split; [reflexivity|]. split; [exact Hid|].
      intros Hne. now contradiction Hne. }
    discriminate.
  - intros Hg. unfold read_location. cbn [yang_in]. unfold dict_has. now rewrite Hg.
  - intros g. apply read_location_incomplete.
  - intros g lon lat. apply read_location_coordinates.
Qed.

(** What the second pass does with a fiber link: the weight of the edge
    into the Fiber node is the length of whatever fiber the first pass
    saw last, the local [fiber]; the link at hand is not read for it. *)
Lemma add_link_fiber_weight (link : yang) (st st' : locals) :
  yang_in "tip-photonic-topology:fiber" link = Ok true ->
  add_link link st = Ok st' ->
  exists source target this_node u v t last w,
    link_ends link = Ok (source, target) /\
    member_str link "link-id" = Ok this_node /\
    dict_get (nodes st) source = Some u /\
    dict_get (nodes st) this_node = Some v /\
    dict_get (nodes st) target = Some t /\
    fiber st = Some last /\ member_float last "length" = Ok w /\
    network st' = add_edge (add_edge (network st) u v w) v t (1 # 100).
Proof.
  intros Hf H. unfold add_link in H.
  apply bind_ok in H as ([source target] & Hends & H).
  rewrite Hf in H. cbn [bind] in H.
  apply bind_ok in H as (this_node & Hid & H).
  apply bind_ok in H as (u & Hu & H).
  apply bind_ok in H as (v & Hv & H).
  apply bind_ok in H as (last & Hlast & H).
  apply bind_ok in H as (w & Hw & H).
  apply bind_ok in H as (v' & Hv' & H).
  apply bind_ok in H as (t & Ht & H).
  injection H as <-. cbn [network].
  unfold dict_item in *.
  destruct (dict_get (nodes st) source) eqn:Es; [|discriminate].
  destruct (dict_get (nodes st) this_node) eqn:Ev; [|discriminate].
  destruct (dict_get (nodes st) target) eqn:Et; [|discriminate].
  destruct (fiber st) eqn:Efib; [|discriminate].
  injection Hu as ->. injection Hv as ->. injection Hv' as <-.
  injection Ht as ->. injection Hlast as ->.
  exists source, target, this_node, u, v, t, last, w. repeat split; assumption.
Qed.

End LoaderFacts.

Section LoaderExamples.

(** C2 (the code at the failing input). Loading [two_fibers] gives the
    nodes X, Y, F1, F2; F1 is the fiber of length 80, and the edge from X
    into F1 weighs 50, the length of F2. *)
Example stale_fiber_length :
  exists g f1,
    _load_network (Ok origin) two_fibers library = Ok g /\
    map uid (g_nodes g) = ["X"; "Y"; "F1"; "F2"] /\
    nth_error (g_nodes g) 2 = Some f1 /\
    (exists p md, f1 = Fiber "F1" (Some "SSMF") p md /\ length_m p = 80 * 1000) /\
    g_edges g = [(0%nat, 2%nat, 50); (2%nat, 1%nat, 1 # 100);
                 (1%nat, 3%nat, 50); (3%nat, 0%nat, 1 # 100)].
Proof.
  do 2 eexists. split; [vm_compute; reflexivity|].
  split; [reflexivity|]. split; [reflexivity|].
  split; [|reflexivity].
  do 2 eexists. split; reflexivity.
Qed.

(** C7 (counterexample). A node with an amplifier and a roadm
    sub-structure is instantiated as an Edfa. *)
Lemma two_kinds_accepted : ~ node_exclusivity_enforced.
Proof.
  intros H. destruct (H library amplifier_and_roadm) as (e & E).
  - vm_compute. lia.
  - vm_compute in E. discriminate.
Qed.

Example two_kinds_is_edfa :
  exists el, load_node library amplifier_and_roadm = Ok el /\
             variant_of el = IsEdfa /\ uid el = "N" /\
             length (present_kinds amplifier_and_roadm) = 2%nat.
Proof. eexists. repeat split; vm_compute; reflexivity. Qed.

Lemma load_node_first_present_witness :
  load_node library bare_node = Raise (unrecognized_node bare_node) /\
  (exists el,
      load_node library amplifier_and_roadm = Ok el /\
      variant_of el = IsEdfa /\ uid el = "N" /\
      read_location amplifier_and_roadm = Ok (metadata el)) /\
  (exists el,
      load_node library located_roadm = Ok el /\
      variant_of el = IsRoadm /\ uid el = "R" /\
      read_location located_roadm = Ok (metadata el) /\
      read_location located_roadm
      = Ok (Some {| latitude := 50; longitude := 1442 # 100 |})).
Proof.
  split; [|split].
  - apply (proj1 (load_node_first_present library [("node-id", YStr "N")]) "N" None);
      reflexivity.
  - eexists. split; [vm_compute; reflexivity|].
    destruct (proj1 (proj2 (load_node_first_present library _)) _
                (eq_refl : load_node library amplifier_and_roadm = Ok _))
      as (k & rest & Hk & Hv & Hu & Hloc).
    injection Hk as <- _. split; [exact Hv|]. split; [reflexivity|].
    apply Hloc. discriminate.
  - eexists. split; [vm_compute; reflexivity|].
    pose proof (load_node_first_present library
                  [("node-id", YStr "R");
                   ("tip-photonic-topology:geo-location",
                    YObj [("x", YDec (1442 # 100)); ("tip-photonic-topology:y", YInt 50)]);
                   ("tip-photonic-topology:roadm", YObj [("model", YStr "roadm")])])
      as (_ & Hel & _ & _ & Hgeo).
    destruct (Hel _ (eq_refl : load_node library located_roadm = Ok _))
      as (k & rest & Hk & Hv & Hu & Hloc).
    injection Hk as <- _. split; [exact Hv|]. split; [reflexivity|].
    split; [apply Hloc; discriminate|].
    apply (Hgeo _ (1442 # 100) 50 eq_refl).
    + exists (YDec (1442 # 100)). split; [left; reflexivity | left; reflexivity].
    + exists (YInt 50). split; [right; split; reflexivity|].
      right. exists 50%Z. split; reflexivity.
Defined.

End LoaderExamples.

(** ** The topology serializer *)

Section StoreFacts.

Lemma json_yang_link_one_extra u s t k v :
  k <> "link-id" -> k <> "source" -> k <> "destination" ->
  _json_yang_link u s t [(k, v)]
  = YObj [("link-id", YStr u);
          ("source", YObj [("source-node", YStr s)]);
          ("destination", YObj [("dest-node", YStr t)]);
          (k, v)].
Proof.
  intros H1 H2 H3. unfold _json_yang_link. cbn [fold_left fst snd dict_set].
  apply String.eqb_neq in H1. apply String.eqb_neq in H2. apply String.eqb_neq in H3.
  now rewrite H1, H2, H3.
Qed.

(** A link entry is read back by the loader with the ends it was
    written with. *)
Lemma json_yang_link_ends u s t k v :
  k <> "link-id" -> k <> "source" -> k <> "destination" ->
  Loader.link_ends (_json_yang_link u s t [(k, v)]) = Ok (s, t) /\
  member_str (_json_yang_link u s t [(k, v)]) "link-id" = Ok u /\
  yang_in k (_json_yang_link u s t [(k, v)]) = Ok true.
Proof.
  intros H1 H2 H3. rewrite json_yang_link_one_extra by assumption.
  split; [reflexivity|]. split; [reflexivity|].
  unfold yang_in, dict_has. cbn [dict_get].
  apply String.eqb_neq in H1. apply String.eqb_neq in H2. apply String.eqb_neq in H3.
  now rewrite H1, H2, H3, String.eqb_refl.
Qed.

(** The body appends a link for a Fiber and a node for any other. *)
Lemma store_node_emits equipment network i n n' out :
  store_node equipment network i n = (n', Ok out) ->
  (is_Fiber n = true /\ exists y, out = ToLinks y) \/
  (is_Fiber n = false /\ exists y, out = ToNodes y).
Proof.
  intros H.
  destruct n as [u tv md | u tv ps md op | u tv ps md | u loss | u tv ps md | u];
    cbn [store_node] in H.
  - right. split; [reflexivity|]. destruct tv.
    + injection H as _ <-. eauto.
    + destruct (txps <- dict_item equipment "Transceiver" ;; next (dict_keys txps));
        [|discriminate].
      injection H as _ <-. eauto.
  - right. split; [reflexivity|]. injection H as _ H. bind_inv H.
    injection H as <-. eauto.
  - right. split; [reflexivity|]. destruct tv; [|discriminate].
    injection H as _ <-. eauto.
  - right. split; [reflexivity|]. injection H as _ <-. eauto.
  - left. split; [reflexivity|]. injection H as _ H. bind_inv H.
    injection H as <-. eauto.
  - discriminate.
Qed.

(** The pass over the nodes appends one entry per node: a link for a
    Fiber, a node for any other. *)
Lemma store_nodes_counts equipment network todo :
  forall i nodes links todo' nodes' links',
    store_nodes equipment network i todo nodes links = (todo', Ok (nodes', links')) ->
    length links' = (length links + count_fibers todo)%nat /\
    length nodes' = (length nodes + (length todo - count_fibers todo))%nat.
Proof.
  induction todo as [|n todo IH]; intros i nodes links todo' nodes' links' H.
  - cbn in H. injection H as _ <- <-. unfold count_fibers. simpl. lia.
  - cbn [store_nodes] in H.
    destruct (store_node equipment network i n) as [n' [out|e]] eqn:En;
      [|discriminate].
    pose proof (filter_length_le is_Fiber todo) as Hle.
    destruct (store_node_emits _ _ _ _ _ _ En) as [[Hf [y ->]] | [Hf [y ->]]].
    + destruct (store_nodes equipment network (S i) todo nodes (links ++ [y]))
        as [rest' r'] eqn:Er.
      injection H as _ ->. apply IH in Er as [Hl Hn].
      unfold count_fibers in *. cbn [filter]. rewrite Hf.
      rewrite length_app in Hl. cbn [length] in *. lia.
    + destruct (store_nodes equipment network (S i) todo (nodes ++ [y]) links)
        as [rest' r'] eqn:Er.
      injection H as _ ->. apply IH in Er as [Hl Hn].
      unfold count_fibers in *. cbn [filter]. rewrite Hf.
      rewrite length_app in Hn. cbn [length] in *. lia.
Qed.

End StoreFacts.

Section StoreClaims.


Lemma store_edges_no_fiber_pair network es :
  forall pairs links,
    mapM (edge_ends network) es = Ok pairs ->
    forallb (fun ab => negb (fiber_pair ab)) pairs = true ->
    store_edges network es links
    = Ok (links ++ map (fun ab => patch_link (fst ab) (snd ab)) (filter patch_pair pairs)).
Proof.
  induction es as [|[u v] es IH]; intros pairs links Hm Hall.
  - cbn in Hm. injection Hm as <-. cbn. now rewrite app_nil_r.
  - cbn [mapM] in Hm. apply bind_ok in Hm as ([a b] & Hab & Hm).
    apply bind_ok in Hm as (rest & Hrest & Hm). injection Hm as <-.
    unfold edge_ends in Hab. cbn [fst snd] in Hab.
    apply bind_ok in Hab as (a' & Ha & Hab). apply bind_ok in Hab as (b' & Hb & Hab).
    injection Hab as -> ->.
    cbn [forallb] in Hall. apply andb_prop in Hall as [Hab Hall].
    unfold fiber_pair in Hab. cbn [fst snd] in Hab.
    cbn [store_edges]. rewrite Ha, Hb. cbn [bind].
    unfold patch_pair at 1. cbn [filter fst snd].
    destruct (is_Fiber a), (is_Fiber b); try discriminate; cbn [negb andb map];
      rewrite (IH rest) by assumption; try reflexivity.
    cbn [fst snd]. now rewrite <- app_assoc.
Qed.

Lemma store_edges_fiber_pair network es :
  forall pre a b post links,
    mapM (edge_ends network) es = Ok (pre ++ (a, b) :: post) ->
    forallb (fun ab => negb (fiber_pair ab)) pre = true ->
    is_Fiber a = true -> is_Fiber b = true ->
    store_edges network es links = Raise (fiber_to_fiber a b).
Proof.
  induction es as [|[u v] es IH]; intros pre a b post links Hm Hall Ha Hb.
  - cbn in Hm. destruct pre; discriminate.
  - cbn [mapM] in Hm. apply bind_ok in Hm as ([a0 b0] & Hab & Hm).
    apply bind_ok in Hm as (rest & Hrest & Hm).
    unfold edge_ends in Hab. cbn [fst snd] in Hab.
    apply bind_ok in Hab as (a' & Ha' & Hab). apply bind_ok in Hab as (b' & Hb' & Hab).
    injection Hab as -> ->.
    cbn [store_edges]. rewrite Ha', Hb'. cbn [bind].
    destruct pre as [|[a1 b1] pre]; cbn [app] in Hm; injection Hm as -> -> ->.
    + now rewrite Ha, Hb.
    + cbn [forallb] in Hall. apply andb_prop in Hall as [Hab Hall].
      unfold fiber_pair in Hab. cbn [fst snd] in Hab.
      destruct (is_Fiber a1), (is_Fiber b1); try discriminate;
        now apply (IH pre a b post).
Qed.

Lemma mapM_total {A B} (f : A -> result B) (l : list A) :
  (forall a, In a l -> exists b, f a = Ok b) -> exists bs, mapM f l = Ok bs.
Proof.
  induction l as [|a l IH]; intros H; [now exists []|].
  destruct (H a (or_introl eq_refl)) as (b & Hb).
  destruct IH as (bs & Hbs); [intros x Hx; apply H; now right|].
  exists (b :: bs). cbn [mapM]. now rewrite Hb, Hbs.
Qed.

(** In a closed graph both ends of every edge are nodes. *)
Lemma edges_have_ends (g : DiGraph) :
  closed_graph g -> exists pairs, mapM (edge_ends g) (edges g) = Ok pairs.
Proof.
  intros Hc. apply mapM_total. intros [u v] Hin.
  unfold edges in Hin. apply in_flat_map in Hin as (u' & Hu & Hin).
  apply in_map_iff in Hin as (v' & E & Hv). injection E as -> ->.
  apply in_seq in Hu. unfold successors in Hv.
  apply in_map_iff in Hv as ([[a b] w] & E & Hv). cbn [fst snd] in E. subst b.
  apply filter_In in Hv as [Hv _]. apply Hc in Hv.
  unfold edge_ends, node_at. cbn [fst snd].
  destruct (nth_error (g_nodes g) u) as [x|] eqn:Ex;
    [|apply nth_error_None in Ex; lia].
  destruct (nth_error (g_nodes g) v) as [y|] eqn:Ey;
    [|apply nth_error_None in Ey; lia].
  now exists (x, y).
Qed.

Lemma store_node_fst equipment network i n txps first rest :
  dict_get equipment "Transceiver" = Some txps -> dict_keys txps = first :: rest ->
  fst (store_node equipment network i n) = with_default_type first n.
Proof.
  intros Ht Hk.
  destruct n as [u [tv|] md | u tv ps md op | u [tv|] ps md | u loss | u tv ps md | u];
    cbn [store_node with_default_type]; try reflexivity.
  unfold dict_item. rewrite Ht. cbn [bind]. rewrite Hk. reflexivity.
Qed.

Lemma store_nodes_fills equipment network txps first rest todo :
  dict_get equipment "Transceiver" = Some txps -> dict_keys txps = first :: rest ->
  forall i nodes links todo' out,
    store_nodes equipment network i todo nodes links = (todo', Ok out) ->
    todo' = map (with_default_type first) todo.
Proof.
  intros Ht Hk. induction todo as [|n todo IH]; intros i nodes links todo' out H.
  - cbn in H. now injection H as <- _.
  - cbn [store_nodes] in H.
    pose proof (store_node_fst equipment network i n txps first rest Ht Hk) as Hn.
    destruct (store_node equipment network i n) as [n' [[y|y]|e]]; cbn [fst] in Hn;
      [| |discriminate].
    + destruct (store_nodes equipment network (S i) todo (nodes ++ [y]) links)
        as [rest' r'] eqn:Er.
      injection H as <- ->. cbn [map]. f_equal; [assumption|].
      now apply IH in Er.
    + destruct (store_nodes equipment network (S i) todo nodes (links ++ [y]))
        as [rest' r'] eqn:Er.
      injection H as <- ->. cbn [map]. f_equal; [assumption|].
      now apply IH in Er.
Qed.

(** When the Transceiver table has a first key and the store of a
    topology returns, the graph it leaves is the graph it was given with
    every Transceiver node that had no type_variety now carrying that
    first key, which is also the model its node entry was written with;
    the edges are untouched. *)
Lemma store_topology_sets_transceiver_type
        (equipment : equipment) (network network' : DiGraph) (doc : yang)
        (txps : odict pyobj) (first : string) (rest : list string) :
  dict_get equipment "Transceiver" = Some txps ->
  dict_keys txps = first :: rest ->
  _store_topology equipment network = (network', Ok doc) ->
  g_nodes network' = map (with_default_type first) (g_nodes network) /\
  g_edges network' = g_edges network /\
  (forall i u md,
      nth_error (g_nodes network) i = Some (Transceiver u None md) ->
      nth_error (g_nodes network') i = Some (Transceiver u (Some first) md) /\
      store_node equipment network i (Transceiver u None md)
      = (Transceiver u (Some first) md,
         Ok (ToNodes (YObj [("node-id", YStr u);
                            ("tip-photonic-topology:transceiver",
                             YObj [("model", YStr first)])])))).
Proof.
  intros Ht Hk H. unfold _store_topology in H.
  destruct (store_nodes equipment network 0 (g_nodes network) [] []) as [ns r] eqn:En.
  injection H as <- H.
  destruct r as [out|e]; [|discriminate].
  apply (store_nodes_fills _ _ _ _ _ _ Ht Hk) in En. subst ns. cbn [g_nodes g_edges].
  split; [reflexivity|]. split; [reflexivity|].
  intros i u md Hi. split.
  - rewrite nth_error_map, Hi. reflexivity.
  - cbn [store_node]. unfold dict_item. rewrite Ht. cbn [bind]. rewrite Hk. reflexivity.
Qed.

End StoreClaims.

Section StoreExamples.


Example merging_fiber_link :
  exists g doc net links,
    _store_topology library merging_fiber = (g, Ok doc) /\
    yang_member doc "network" = Ok (YArr [net]) /\
    yang_member net "ietf-network-topology:link" = Ok (YArr links) /\
    map Loader.link_ends links = [Ok ("X", "Z")] /\
    predecessors merging_fiber 3 = [0; 1]%nat.
Proof. do 4 eexists. repeat split; vm_compute; reflexivity. Qed.


Example fiber_chain_rejected :
  snd (_store_topology library fiber_chain)
  = Raise (NetworkTopologyError "Fiber connected to a Fiber: F1, F2").
Proof. vm_compute. reflexivity. Qed.

(** With an empty Transceiver table there is no first key: the store
    raises and the node is as it was. *)
Example no_transceiver_type :
  _store_topology [("Transceiver", [])] untyped_transceiver
  = (untyped_transceiver, Raise StopIteration).
Proof. reflexivity. Qed.

End StoreExamples.

(** ** Storing and reloading an amplifier type *)

Section EdfaRoundTrip.

(** Whatever the entry, a record the transform returns is allowed for
    design and has no output-VOA flag: the two attributes are constants
    of the transform (marked FIXME in the source). *)
Lemma transform_edfa_constant_flags est edfa amp :
  _transform_edfa est edfa = Ok amp ->
  getattr amp "allowed_for_design" = Ok (VBool true) /\
  getattr amp "out_voa_auto" = Ok VNone.
Proof.
  intros H. unfold _transform_edfa in H.
  apply bind_ok in H as (name & _ & H).
  apply bind_ok in H as ([|] & _ & H); bind_inv H; injection H as <-;
    split; reflexivity.
Qed.

(** C1 (the code at the failing input). The entry stored for
    [manual_amp] is transformed back into a record of the same name,
    type definition and fit coefficients, but one that is allowed for
    design, which [manual_amp] is not. *)
Example design_flag_not_restored :
  exists entry,
    _store_equipment_edfa "high_detail" manual_amp = Ok entry /\
    forall est, exists amp,
      _transform_edfa est entry = Ok amp /\
      getattr amp "type_variety" = getattr manual_amp "type_variety" /\
      getattr amp "type_def" = getattr manual_amp "type_def" /\
      getattr amp "nf_fit_coeff" = getattr manual_amp "nf_fit_coeff" /\
      getattr manual_amp "allowed_for_design" = Ok (VBool false) /\
      getattr amp "allowed_for_design" = Ok (VBool true).
Proof.
  eexists. split; [vm_compute; reflexivity|].
  intros est. eexists. split; [vm_compute; reflexivity|].
  repeat split; reflexivity.
Qed.

End EdfaRoundTrip.

(* ================================================================== *)
(** * Further properties *)

(** ** The spectrum interpolator *)

Lemma Ok_inj {A} (a b : A) : Ok a = Ok b -> a = b.
Proof. congruence. Qed.

Section SpectrumMore.

(** X1. Whenever the interpolator returns, it returns one value (the key
    is absent) or 96 values (the key is present). *)
Theorem extract_per_spectrum_length (key : string) (y : yang) (l : list Q) :
  _extract_per_spectrum key y = Ok l ->
  (yang_in key y = Ok false /\ length l = 1%nat) \/
  (yang_in key y = Ok true /\ length l = 96%nat).
Proof.
  intros H. unfold _extract_per_spectrum in H.
  apply bind_ok in H as ([|] & Hin & H); cbn [negb] in H.
  - right. split; [assumption|].
    apply bind_ok in H as (data & _ & H). unfold np_interp in H.
    destruct (map fst (sort_by_freq data)); [discriminate|].
    destruct (Nat.eqb _ _); [|discriminate].
    apply Ok_inj in H. subst l. now rewrite length_map.
  - left. injection H as <-. auto.
Qed.

Lemma strict_sorted_unique (l1 l2 : list (Z * Q)) :
  StronglySorted freq_lt l1 -> StronglySorted freq_lt l2 ->
  Permutation l1 l2 -> l1 = l2.
Proof.
  revert l2; induction l1 as [|a l1 IH]; intros l2 H1 H2 Hp.
  - apply Permutation_nil in Hp. now subst.
  - destruct l2 as [|b l2]; [apply Permutation_sym, Permutation_nil in Hp; discriminate|].
    inversion H1 as [|? ? H1' Ha]; subst. inversion H2 as [|? ? H2' Hb]; subst.
    rewrite Forall_forall in Ha, Hb.
    assert (E : a = b).
    { assert (Hin : In a (b :: l2)) by (eapply Permutation_in; [exact Hp | now left]).
      assert (Hin' : In b (a :: l1))
        by (eapply Permutation_in; [apply Permutation_sym; exact Hp | now left]).
      destruct Hin as [E | Hin]; [now symmetry|].
      destruct Hin' as [E | Hin']; [assumption|].
      apply Hb in Hin. apply Ha in Hin'. unfold freq_lt in *. lia. }
    subst b. f_equal. apply IH; try assumption.
    now apply Permutation_cons_inv in Hp.
Qed.

(** X2. The order of the entries of the list does not matter: two entries
    whose samples are the same up to their order, with no frequency given
    twice, give the same result. *)
Theorem extract_per_spectrum_order (key : string) (y1 y2 : yang) (d1 d2 : list (Z * Q)) :
  yang_in key y1 = Ok true -> yang_in key y2 = Ok true ->
  read_points key y1 = Ok d1 -> read_points key y2 = Ok d2 ->
  Permutation d1 d2 -> NoDup (map fst d1) ->
  _extract_per_spectrum key y1 = _extract_per_spectrum key y2.
Proof.
  intros Hin1 Hin2 Hr1 Hr2 Hp Hnd. unfold _extract_per_spectrum.
  rewrite Hin1, Hin2, Hr1, Hr2. cbn [bind negb].
  assert (E : sort_by_freq d1 = sort_by_freq d2).
  { apply strict_sorted_unique.
    - now apply sort_by_freq_strict.
    - apply sort_by_freq_strict.
      eapply Permutation_NoDup; [|exact Hnd]. now apply Permutation_map.
    - rewrite <- (sort_by_freq_perm d1), <- (sort_by_freq_perm d2). exact Hp. }
  now rewrite E.
Qed.

Lemma extract_per_spectrum_order_witness :
  _extract_per_spectrum "gain-ripple" ripple_entry
  = _extract_per_spectrum "gain-ripple"
      (YObj [("gain-ripple",
              YArr [YObj [("frequency", YInt 191300000000000); ("gain-ripple", YDec 1)];
                    YObj [("frequency", YInt 196000000000000); ("gain-ripple", YDec 2)]])]).
Proof.
  apply (extract_per_spectrum_order "gain-ripple" _ _
           [(196000000000000%Z, 2); (191300000000000%Z, 1)]
           [(191300000000000%Z, 1); (196000000000000%Z, 2)]);
    try reflexivity.
  - apply perm_swap.
  - repeat constructor; simpl; intuition discriminate.
Defined.

Lemma extract_per_spectrum_length_witness :
  (yang_in "gain-ripple" single_point_entry = Ok false /\ length [0] = 1%nat) \/
  (yang_in "gain-ripple" single_point_entry = Ok true /\ length [0] = 96%nat).
Proof.
  apply (extract_per_spectrum_length "gain-ripple" single_point_entry [0]). reflexivity.
Defined.

Lemma segment_within (y0 y1 : Q) (x0 x1 x : Z) :
  (x0 <= x < x1)%Z -> y0 <= y1 ->
  y0 <= (y1 - y0) / inject_Z (x1 - x0) * inject_Z (x - x0) + y0 /\
  (y1 - y0) / inject_Z (x1 - x0) * inject_Z (x - x0) + y0 <= y1.
Proof.
  intros Hx Hy.
  assert (Hd : 0 < inject_Z (x1 - x0)) by (unfold Qlt; simpl; lia).
  assert (He0 : 0 <= inject_Z (x - x0)) by (unfold Qle; simpl; lia).
  assert (He1 : inject_Z (x - x0) <= inject_Z (x1 - x0)) by (unfold Qle; simpl; lia).
  set (d := inject_Z (x1 - x0)) in *. set (e := inject_Z (x - x0)) in *.
  assert (Ht0 : 0 <= e / d) by (apply Qle_shift_div_l; [assumption | lra]).
  assert (Ht1 : e / d <= 1) by (apply Qle_shift_div_r; [assumption | lra]).
  assert (E : (y1 - y0) / d * e + y0 == y0 + (y1 - y0) * (e / d)) by (field; lra).
  rewrite E. set (t := e / d) in *. split; nra.
Qed.

Lemma segment_within_down (y0 y1 : Q) (x0 x1 x : Z) :
  (x0 <= x < x1)%Z -> y1 <= y0 ->
  y1 <= (y1 - y0) / inject_Z (x1 - x0) * inject_Z (x - x0) + y0 /\
  (y1 - y0) / inject_Z (x1 - x0) * inject_Z (x - x0) + y0 <= y0.
Proof.
  intros Hx Hy.
  assert (Hd : 0 < inject_Z (x1 - x0)) by (unfold Qlt; simpl; lia).
  assert (He0 : 0 <= inject_Z (x - x0)) by (unfold Qle; simpl; lia).
  assert (He1 : inject_Z (x - x0) <= inject_Z (x1 - x0)) by (unfold Qle; simpl; lia).
  set (d := inject_Z (x1 - x0)) in *. set (e := inject_Z (x - x0)) in *.
  assert (Ht0 : 0 <= e / d) by (apply Qle_shift_div_l; [assumption | lra]).
  assert (Ht1 : e / d <= 1) by (apply Qle_shift_div_r; [assumption | lra]).
  assert (E : (y1 - y0) / d * e + y0 == y0 + (y1 - y0) * (e / d)) by (field; lra).
  rewrite E. set (t := e / d) in *. split; nra.
Qed.

Lemma within_samples_cons p pts q : within_samples pts q -> within_samples (p :: pts) q.
Proof.
  intros (lo & hi & Hlo & Hhi & H). exists lo, hi.
  repeat split; try (now right); apply H.
Qed.

Lemma interp_from_within x x0 y0 rest :
  StronglySorted freq_le ((x0, y0) :: rest) -> (x0 <= x)%Z ->
  within_samples ((x0, y0) :: rest) (interp_from x x0 y0 rest).
Proof.
  revert x0 y0; induction rest as [|[x1 y1] rest IH]; intros x0 y0 Hs Hx.
  - exists y0, y0. cbn. repeat split; auto; apply Qle_refl.
  - cbn [interp_from]. inversion Hs as [|? ? Hs' Hall]; subst.
    destruct (Z.ltb_spec x x1).
    + destruct (Z.eqb_spec x x0) as [->|Hne].
      { exists y0, y0. cbn. repeat split; auto; apply Qle_refl. }
      destruct (Qlt_le_dec y0 y1) as [Hlt | Hle].
      * exists y0, y1. cbn [map snd]. split; [now left|]. split; [right; now left|].
        apply segment_within; [lia | now apply Qlt_le_weak].
      * exists y1, y0. cbn [map snd]. split; [right; now left|]. split; [now left|].
        apply segment_within_down; [lia | assumption].
    + apply within_samples_cons. apply IH; [assumption | lia].
Qed.

Lemma interp_at_within pts x :
  pts <> [] -> StronglySorted freq_le pts -> within_samples pts (interp_at pts x).
Proof.
  destruct pts as [|[x0 y0] rest]; [congruence|]. intros _ Hs. cbn [interp_at].
  destruct (Z.ltb_spec x x0).
  - exists y0, y0. cbn. repeat split; auto; apply Qle_refl.
  - apply interp_from_within; [assumption | lia].
Qed.

(** X3. The interpolator never leaves the range of the samples: each of
    the values it returns lies between two of the sample values. *)
Theorem extract_per_spectrum_within (key : string) (y : yang) (data : list (Z * Q))
        (l : list Q) :
  yang_in key y = Ok true -> read_points key y = Ok data ->
  _extract_per_spectrum key y = Ok l ->
  Forall (within_samples data) l.
Proof.
  intros Hin Hread H.
  destruct data as [|p data'] eqn:Ed.
  { unfold _extract_per_spectrum in H. rewrite Hin, Hread in H. discriminate H. }
  rewrite <- Ed in *.
  rewrite (extract_present key y data Hin Hread) in H by (subst; discriminate).
  apply Ok_inj in H. subst l. apply Forall_forall. intros q Hq.
  apply in_map_iff in Hq as (x & <- & _).
  destruct (interp_at_within (sort_by_freq data) x) as (lo & hi & Hlo & Hhi & Hb).
  - intros E. apply (f_equal (@length _)) in E.
    rewrite <- (Permutation_length (sort_by_freq_perm data)) in E.
    subst data. discriminate E.
  - apply sort_by_freq_sorted.
  - exists lo, hi. split; [|split; [|exact Hb]].
    + eapply Permutation_in; [|exact Hlo].
      apply Permutation_map, Permutation_sym, sort_by_freq_perm.
    + eapply Permutation_in; [|exact Hhi].
      apply Permutation_map, Permutation_sym, sort_by_freq_perm.
Qed.

Lemma extract_per_spectrum_within_witness :
  exists l, _extract_per_spectrum "gain-ripple" decimal_ripple_entry = Ok l /\
            Forall (within_samples [(196000000000000%Z, 2); (191300000000000%Z, 1);
                                    (193000000000000%Z, 3 # 2); (193000000000000%Z, 4)]) l.
Proof.
  eexists. split; [vm_compute; reflexivity|].
  apply (extract_per_spectrum_within "gain-ripple" decimal_ripple_entry); reflexivity.
Defined.

End SpectrumMore.

(** ** Storing a loaded amplifier type *)

Section StoreLoadedEdfa.
Variable estimate_nf_model : string -> Q -> Q -> Q -> Q -> result (Q * Q * Q).

(** What a noise-figure branch of the transform assigns. *)
Lemma classify_nf_shape name ms nf :
  classify_nf estimate_nf_model name (YObj ms) = Ok nf ->
  exists k rest,
    filter (dict_has ms) (tl nf_keys) = k :: rest /\
    ((k = POLYNOMIAL_NF /\ exists a b c d,
         nf = {| l_type_def := VStr "advanced_model"; l_nf_model := VNone;
                 l_nf_fit_coeff := VFloats [a; b; c; d] |}) \/
     (k = OPENROADM_ILA /\ exists a b c d,
         nf = {| l_type_def := VStr "openroadm";
                 l_nf_model := Model_openroadm_ila [a; b; c; d];
                 l_nf_fit_coeff := VNone |}) \/
     (k = OPENROADM_PREAMP /\
      nf = {| l_type_def := VStr "openroadm_preamp"; l_nf_model := VNone;
              l_nf_fit_coeff := VNone |}) \/
     (k = OPENROADM_BOOSTER /\
      nf = {| l_type_def := VStr "openroadm_booster"; l_nf_model := VNone;
              l_nf_fit_coeff := VNone |}) \/
     (k = MIN_MAX_NF /\ exists nf1 nf2 dp nf_min nf_max,
         nf = {| l_type_def := VStr "variable_gain";
                 l_nf_model := Model_vg nf1 nf2 dp nf_min nf_max;
                 l_nf_fit_coeff := VNone |}) \/
     (k = RAMAN_APPROX /\ exists v,
         nf = {| l_type_def := VStr "advanced_model"; l_nf_model := VNone;
                 l_nf_fit_coeff := VFloats [0; 0; 0; v] |})).
Proof.
  unfold classify_nf, nf_keys. cbn [tl filter yang_in bind]. intros H.
  destruct (dict_has ms POLYNOMIAL_NF).
  { apply bind_ok in H as (model & _ & H). apply bind_ok in H as (abcd & Habcd & H).
    unfold read_abcd in Habcd. bind_inv Habcd. injection Habcd as <-. injection H as <-.
    do 2 eexists. split; [reflexivity|]. left. split; [reflexivity|]. eauto. }
  destruct (dict_has ms OPENROADM_ILA).
  { apply bind_ok in H as (model & _ & H). apply bind_ok in H as (abcd & Habcd & H).
    unfold read_abcd in Habcd. bind_inv Habcd. injection Habcd as <-. injection H as <-.
    do 2 eexists. split; [reflexivity|]. right; left. split; [reflexivity|]. eauto. }
  destruct (dict_has ms OPENROADM_PREAMP).
  { injection H as <-. do 2 eexists. split; [reflexivity|]. do 2 right; left. auto. }
  destruct (dict_has ms OPENROADM_BOOSTER).
  { injection H as <-. do 2 eexists. split; [reflexivity|]. do 3 right; left. auto. }
  destruct (dict_has ms MIN_MAX_NF).
  { bind_inv H.
    repeat match goal with x : (_ * _)%type |- _ => destruct x end.
    injection H as <-.
    do 2 eexists. split; [reflexivity|]. do 4 right; left. split; [reflexivity|]. eauto 6. }
  destruct (dict_has ms RAMAN_APPROX).
  { bind_inv H. injection H as <-.
    do 2 eexists. split; [reflexivity|]. do 5 right. split; [reflexivity|]. eauto. }
  discriminate.
Qed.

(** X4. What the store writes for a record the transform has built: the
    composite, polynomial-NF, OpenROADM-ILA and min-max-NF sub-structures
    come back as themselves, a raman-approximation comes back as a
    polynomial-NF, and for OpenROADM-preamp and OpenROADM-booster no
    sub-structure is written at all. *)
Theorem store_of_transformed_models (edfa : yang) (amp : pyobj) (name : string) :
  _transform_edfa estimate_nf_model edfa = Ok amp ->
  exists entry k rest,
    present_models edfa = k :: rest /\
    _store_equipment_edfa name amp = Ok entry /\
    present_models entry = stored_models_for k.
Proof.
  intros H. destruct edfa as [| | | | | ms |]; try discriminate H.
  unfold _transform_edfa in H. apply bind_ok in H as (nm & _ & H).
  unfold present_models, nf_keys. cbn [yang_in bind filter] in *.
  destruct (dict_has ms COMPOSITE).
  - bind_inv H. injection H as <-.
    eexists. exists COMPOSITE. eexists. split; [reflexivity|]. split; reflexivity.
  - apply bind_ok in H as (nf & Hnf & H).
    apply classify_nf_shape in Hnf as (k & rest & Hk & Hshape).
    bind_inv H. injection H as <-. unfold nf_keys in Hk. cbn [tl filter] in Hk.
    rewrite Hk.
    destruct Hshape as [(-> & a' & b' & c' & d' & ->) | [(-> & a' & b' & c' & d' & ->) |
                        [(-> & ->) | [(-> & ->) |
                        [(-> & n1 & n2 & dp & mn & mx & ->) | (-> & v & ->)]]]]];
      eexists; do 2 eexists; (split; [reflexivity|]); split; reflexivity.
Qed.

(** X5. A record built from an OpenROADM-preamp or OpenROADM-booster entry
    cannot be loaded again from what the store writes for it: the stored
    entry has no noise-figure sub-structure, and the transform raises its
    unrecognized-model error on it. *)
Theorem openroadm_stage_not_reloadable (edfa : yang) (amp : pyobj) (name k : string)
        (rest : list string) :
  _transform_edfa estimate_nf_model edfa = Ok amp ->
  present_models edfa = k :: rest ->
  k = OPENROADM_PREAMP \/ k = OPENROADM_BOOSTER ->
  exists entry,
    _store_equipment_edfa name amp = Ok entry /\
    _transform_edfa estimate_nf_model entry = Raise (unrecognized_model name).
Proof.
  intros H Hk Hstage. destruct edfa as [| | | | | ms |]; try discriminate H.
  unfold _transform_edfa in H. apply bind_ok in H as (nm & _ & H).
  unfold present_models, nf_keys in Hk. cbn [yang_in bind filter] in *.
  destruct (dict_has ms COMPOSITE).
  { injection Hk as <- _. destruct Hstage; discriminate. }
  apply bind_ok in H as (nf & Hnf & H).
  apply classify_nf_shape in Hnf as (k' & rest' & Hk' & Hshape).
  unfold nf_keys in Hk'. cbn [tl filter] in Hk'. rewrite Hk' in Hk. injection Hk as -> ->.
  bind_inv H. injection H as <-.
  destruct Hshape as [(-> & _) | [(-> & _) | [(_ & ->) | [(_ & ->) | [(-> & _) | (-> & _)]]]]];
    try (destruct Hstage; discriminate);
    eexists; split; reflexivity.
Qed.

End StoreLoadedEdfa.

Lemma store_of_transformed_models_witness :
  exists entry k rest,
    present_models preamp_entry = k :: rest /\
    _store_equipment_edfa "amp" loaded_preamp = Ok entry /\
    present_models entry = stored_models_for k.
Proof.
  apply (store_of_transformed_models constant_estimate preamp_entry). reflexivity.
Defined.


Lemma openroadm_stage_not_reloadable_witness :
  exists entry,
    _store_equipment_edfa "amp" loaded_preamp = Ok entry /\
    _transform_edfa constant_estimate entry = Raise (unrecognized_model "amp").
Proof.
  apply (openroadm_stage_not_reloadable constant_estimate preamp_entry loaded_preamp
           "amp" OPENROADM_PREAMP []); [reflexivity | reflexivity | now left].
Defined.

(** ** Loading a stored amplifier type *)

Section StoredEdfaReloaded.
Variable estimate_nf_model : string -> Q -> Q -> Q -> Q -> result (Q * Q * Q).

Lemma py_str_float v q : yang_float (py_str v) = Ok q -> v = VFloat q.
Proof. destruct v as [| [|] | | | | | | | | |]; cbn; intros H; congruence. Qed.

Lemma advanced_or_nothing {A} (td : pyval) (X : result (list A)) (model : list A) :
  match td with
  | VStr "advanced_model" => X
  | _ => Ok []
  end = Ok model ->
  model = [] \/ X = Ok model.
Proof.
  intros H. destruct td as [| | s | | | | | | | |]; try (left; congruence).
  repeat (match type of H with
          | context [match ?s with EmptyString => _ | String _ _ => _ end] =>
              destruct s as [|[[|] [|] [|] [|] [|] [|] [|] [|]] ?]
          end; try (left; congruence)).
  now right.
Qed.

Lemma dict_has_cons_ne {V} (d : odict V) (k k' : string) (v : V) :
  k <> k' -> dict_has ((k', v) :: d) k = dict_has d k.
Proof.
  intros H. unfold dict_has. cbn [dict_get].
  destruct (String.eqb_spec k k'); [contradiction | reflexivity].
Qed.

(** The store never writes a composite for a record that is not one. *)
Lemma store_nf_model_no_composite amp model :
  store_nf_model amp = Ok model -> dict_has model COMPOSITE = false.
Proof.
  unfold store_nf_model. intros H. apply bind_ok in H as (m & _ & H).
  destruct m;
    try (apply bind_ok in H as (td & _ & H);
         apply advanced_or_nothing in H as [-> | H]; [reflexivity|];
         apply bind_ok in H as (fit & _ & H);
         destruct fit; try discriminate H;
         apply bind_ok in H as (r & _ & H); injection H as <-; reflexivity).
  - injection H as <-. reflexivity.
  - destruct (Qlt_le_dec nf0 3); injection H as <-; reflexivity.
  - apply bind_ok in H as (r & _ & H). injection H as <-. reflexivity.
  - injection H as <-. reflexivity.
  - injection H as <-. reflexivity.
Qed.

(** X6. What comes back when the entry stored for an amplifier type is
    transformed again: the name it was stored under, its minimal gain and
    its dual-stage model exactly, and, for a type that is not a
    composite, its maximal flat gain and maximal output power exactly and
    its frequency band up to the division and multiplication by 1e12. *)
Theorem transform_of_stored_fields (name : string) (amp amp' : pyobj) (entry : yang) :
  _store_equipment_edfa name amp = Ok entry ->
  _transform_edfa estimate_nf_model entry = Ok amp' ->
  getattr amp' "type_variety" = Ok (VStr name) /\
  getattr amp' "gain_min" = getattr amp "gain_min" /\
  getattr amp' "dual_stage_model" = getattr amp "dual_stage_model" /\
  (getattr amp "dual_stage_model" = Ok VNone ->
   getattr amp' "gain_flatmax" = getattr amp "gain_flatmax" /\
   getattr amp' "p_max" = getattr amp "p_max" /\
   exists lo lo' hi hi',
     getattr amp "f_min" = Ok (VFloat lo) /\ getattr amp' "f_min" = Ok (VFloat lo') /\
     getattr amp "f_max" = Ok (VFloat hi) /\ getattr amp' "f_max" = Ok (VFloat hi') /\
     lo' == lo /\ hi' == hi).
Proof.
  intros Hs Ht. unfold _store_equipment_edfa in Hs.
  apply bind_ok in Hs as (gmin & Hgmin & Hs).
  apply bind_ok in Hs as (dsm & Hdsm & Hs).
  destruct dsm; try discriminate Hs.
  - (* not a composite *)
    apply bind_ok in Hs as (fmin & Hfmin & Hs). apply bind_ok in Hs as (lo & Hlo & Hs).
    apply bind_ok in Hs as (fmax & Hfmax & Hs). apply bind_ok in Hs as (hi & Hhi & Hs).
    apply bind_ok in Hs as (gflat & Hgflat & Hs).
    apply bind_ok in Hs as (pmax & Hpmax & Hs).
    apply bind_ok in Hs as (voa & Hvoa & Hs).
    apply bind_ok in Hs as (model & Hmodel & Hs).
    apply store_nf_model_no_composite in Hmodel.
    injection Hs as <-.
    unfold _transform_edfa, member_str, member_float in Ht.
    cbn [yang_member yang_in app dict_get bind yang_str String.eqb Ascii.eqb
         Bool.eqb] in Ht.
    rewrite !dict_has_cons_ne in Ht by discriminate.
    rewrite Hmodel in Ht.
    apply bind_ok in Ht as (nf & _ & Ht).
    apply bind_ok in Ht as (gflat' & Hgf & Ht).
    apply bind_ok in Ht as (lo' & Hlo' & Ht).
    apply bind_ok in Ht as (hi' & Hhi' & Ht).
    apply bind_ok in Ht as (pmax' & Hpm & Ht).
    apply bind_ok in Ht as (gr & _ & Ht). apply bind_ok in Ht as (dg & _ & Ht).
    apply bind_ok in Ht as (nr & _ & Ht).
    apply bind_ok in Ht as (gmin' & Hgm & Ht).
    injection Ht as <-.
    apply py_str_float in Hgf, Hpm, Hgm. subst gflat pmax gmin.
    injection Hlo' as <-. injection Hhi' as <-.
    unfold float_of in Hlo, Hhi.
    destruct fmin; try discriminate Hlo. destruct fmax; try discriminate Hhi.
    injection Hlo as ->. injection Hhi as ->.
    rewrite Hgmin, Hdsm, Hgflat, Hpmax, Hfmin, Hfmax.
    split; [reflexivity|]. split; [reflexivity|]. split; [reflexivity|].
    intros _. split; [reflexivity|]. split; [reflexivity|].
    exists lo, (lo / THZ * THZ), hi, (hi / THZ * THZ).
    repeat split; unfold THZ; field.
  - (* a composite *)
    injection Hs as <-.
    unfold _transform_edfa, member_str, member_float in Ht.
    cbn in Ht.
    destruct (yang_float (py_str gmin)) as [g|] eqn:Eg; [|discriminate Ht].
    apply py_str_float in Eg. subst gmin. injection Ht as <-.
    rewrite Hgmin, Hdsm.
    split; [reflexivity|]. split; [reflexivity|]. split; [reflexivity|].
    intros H. discriminate H.
Qed.

End StoredEdfaReloaded.

Lemma transform_of_stored_fields_witness :
  exists amp',
    _transform_edfa constant_estimate
      (YObj [("type", YStr "high_detail"); ("gain-min", YDec 15);
             ("frequency-min", YDec (191350000000000 / THZ));
             ("frequency-max", YDec (196100000000000 / THZ));
             ("gain-flatmax", YDec 25); ("max-power-out", YDec 21);
             ("has-output-voa", YBool false);
             ("polynomial-NF",
              YObj [("a", YDec (1 # 1000)); ("b", YDec (1 # 100));
                    ("c", YDec (1 # 10)); ("d", YDec 6)])]) = Ok amp' /\
    getattr amp' "type_variety" = Ok (VStr "high_detail") /\
    getattr amp' "gain_min" = getattr manual_amp "gain_min".
Proof.
  eexists. split; [cbv - [Qmult Qdiv Qinv]; reflexivity|].
  refine (let H := transform_of_stored_fields constant_estimate "high_detail" manual_amp
                     _ _ eq_refl _ in conj (proj1 H) (proj1 (proj2 H))).
  cbv - [Qmult Qdiv Qinv]. reflexivity.
Defined.

(** ** What the resolver leaves alone *)

Section ResolverFrame.

Lemma prefix_append (p s : string) : String.prefix p (p ++ s) = true.
Proof.
  induction p as [|c p IH]; [now destruct s|]. cbn.
  destruct (ascii_dec c c); [exact IH | contradiction].
Qed.

Lemma prefixed_not_own (prefix a : string) :
  prefix = "preamp_" \/ prefix = "booster_" -> own_attribute (prefix ++ a) = false.
Proof.
  intros [-> | ->]; unfold own_attribute.
  - now rewrite prefix_append.
  - rewrite (prefix_append "booster_" a). apply andb_false_r.
Qed.

Lemma extends_refl amps : extends amps amps.
Proof. split; [reflexivity|]. intros n o H. exists o. auto. Qed.

Lemma extends_trans a b c : extends a b -> extends b c -> extends a c.
Proof.
  intros [Hk1 H1] [Hk2 H2]. split; [congruence|].
  intros n o Hn. destruct (H1 n o Hn) as (o1 & Hn1 & Hin1 & Hown1).
  destruct (H2 n o1 Hn1) as (o2 & Hn2 & Hin2 & Hown2).
  exists o2. repeat split; auto.
  intros x Hx. now rewrite Hown2, Hown1.
Qed.

Lemma setattr_in_extends amps dst prefix attr v :
  prefix = "preamp_" \/ prefix = "booster_" ->
  extends amps (setattr_in amps dst (prefix ++ attr) v).
Proof.
  intros Hp. rewrite setattr_in_update. split; [apply update_entry_keys|].
  intros n o Hn. destruct (String.eqb_spec n dst) as [-> | Hne].
  - rewrite update_entry_get_same. unalias. rewrite Hn. cbn [option_map].
    eexists. split; [reflexivity|]. split.
    + intros a Ha. now apply dict_keys_set_incl.
    + intros a Ha. apply dict_get_set_other. intros ->.
      rewrite prefixed_not_own in Ha by assumption. discriminate.
  - rewrite update_entry_get_other by assumption. exists o. auto.
Qed.

Lemma setattr_in_other amps dst k v n :
  n <> dst -> dict_get (setattr_in amps dst k v) n = dict_get amps n.
Proof. intros H. rewrite setattr_in_update. now apply update_entry_get_other. Qed.

Lemma copy_attrs_extends r prefix src dst used :
  prefix = "preamp_" \/ prefix = "booster_" ->
  forall amps amps' res,
    copy_attrs r prefix src dst used amps = (amps', res) ->
    extends amps amps' /\ (forall n, n <> dst -> dict_get amps' n = dict_get amps n).
Proof.
  intros Hp. induction r as [|r IH]; intros amps amps' res H; cbn [copy_attrs] in H.
  - destruct (dict_get amps src); [destruct (negb _)|];
      injection H as <- _; split; auto using extends_refl.
  - destruct (dict_get amps src) as [d|]; [destruct (negb _)|];
      try (injection H as <- _; split; auto using extends_refl).
    destruct (nth_error d (used - S r)) as [[attr v]|];
      [|injection H as <- _; split; auto using extends_refl].
    apply IH in H as [He Ho]. split.
    + eapply extends_trans; [|exact He]. now apply setattr_in_extends.
    + intros n Hn. rewrite Ho by assumption. now apply setattr_in_other.
Qed.

Lemma copy_prefixed_extends prefix src dst amps amps' res :
  prefix = "preamp_" \/ prefix = "booster_" ->
  copy_prefixed prefix src dst amps = (amps', res) ->
  extends amps amps' /\ (forall n, n <> dst -> dict_get amps' n = dict_get amps n).
Proof.
  intros Hp H. unfold copy_prefixed in H.
  destruct (dict_get amps src) as [d|].
  - now apply (copy_attrs_extends _ _ _ _ _ Hp) in H.
  - injection H as <- _. split; auto using extends_refl.
Qed.

Lemma fixup_entry_frame name amps amps' res :
  fixup_entry name amps = (amps', res) ->
  extends amps amps' /\ keeps_plain amps amps'.
Proof.
  intros H. unfold fixup_entry in H.
  assert (Hsame : forall x, (amps, x) = (amps', res) ->
                            extends amps amps' /\ keeps_plain amps amps').
  { intros x E. injection E as <- _. split; [apply extends_refl|]. now intros n o Hn _. }
  destruct (dict_get amps name) as [amp|] eqn:En; [|now apply Hsame in H].
  destruct (getattr amp "dual_stage_model") as [v|e] eqn:Ea; [|now apply Hsame in H].
  destruct v; try (now apply Hsame in H).
  destruct (dict_get amps preamp_variety); [|now apply Hsame in H].
  destruct (dict_get amps booster_variety); [|now apply Hsame in H].
  destruct (copy_prefixed "preamp_" preamp_variety name amps) as [amps1 r1] eqn:E1.
  apply copy_prefixed_extends in E1 as [He1 Ho1]; [|now left].
  assert (Hplain : forall cur, (forall n, n <> name -> dict_get cur n = dict_get amps n) ->
                               keeps_plain amps cur).
  { intros cur Hcur n o Hn Hpl. destruct (String.eqb_spec n name) as [-> | Hne].
    - unalias. rewrite En in Hn. injection Hn as ->.
      unfold plain, DSM in Hpl. congruence.
    - now rewrite Hcur. }
  destruct r1 as [u|e].
  - apply copy_prefixed_extends in H as [He2 Ho2]; [|now right]. split.
    + eapply extends_trans; eassumption.
    + apply Hplain. intros n Hn. now rewrite Ho2, Ho1.
  - injection H as <- _. split; [assumption | now apply Hplain].
Qed.

Lemma fixup_loop_frame names :
  forall amps amps' res,
    fixup_loop names amps = (amps', res) ->
    extends amps amps' /\ keeps_plain amps amps'.
Proof.
  induction names as [|name names IH]; intros amps amps' res H; cbn [fixup_loop] in H.
  - injection H as <- _. split; [apply extends_refl | now intros n o Hn _].
  - destruct (fixup_entry name amps) as [amps1 r] eqn:E.
    apply fixup_entry_frame in E as [He Hp].
    destruct r as [u|e].
    + apply IH in H as [He' Hp']. split.
      * eapply extends_trans; eassumption.
      * intros n o Hn Hpl. apply Hp'; [now apply Hp | assumption].
    + injection H as <- _. auto.
Qed.

(** X7. Whether the resolver returns or raises, the table it leaves has
    the same names in the same order; every entry that is not a composite
    is as it was; no entry has lost an attribute; and no attribute has
    changed except under a name that begins with preamp_ or booster_. *)
Theorem fixup_dual_stage_frame (amps amps' : amp_table) (res : result amp_table) :
  _fixup_dual_stage amps = (amps', res) ->
  dict_keys amps' = dict_keys amps /\
  (forall n o, dict_get amps n = Some o -> plain o -> dict_get amps' n = Some o) /\
  (forall n o,
      dict_get amps n = Some o ->
      exists o',
        dict_get amps' n = Some o' /\
        (forall a, In a (dict_keys o) -> In a (dict_keys o')) /\
        (forall a, own_attribute a = true -> dict_get o' a = dict_get o a)).
Proof.
  intros H. unfold _fixup_dual_stage in H.
  destruct (fixup_loop (dict_keys amps) amps) as [amps1 r] eqn:E.
  injection H as <- _. apply fixup_loop_frame in E as [[Hk He] Hp].
  split; [exact Hk|]. split; [exact Hp | exact He].
Qed.

Lemma fixup_dual_stage_frame_witness :
  dict_keys (fst (_fixup_dual_stage dangling_table)) = ["C1"; "C2"; "A"; "B"] /\
  dict_get (fst (_fixup_dual_stage dangling_table)) "A" = Some (fixed_gain "A" 5).
Proof.
  destruct (fixup_dual_stage_frame dangling_table
              (fst (_fixup_dual_stage dangling_table))
              (snd (_fixup_dual_stage dangling_table))
              (surjective_pairing _)) as (Hk & Hp & _).
  split; [exact Hk|]. apply Hp; reflexivity.
Defined.

End ResolverFrame.

(** ** What the resolver copies *)

Section ResolverCopies.

Lemma append_eqb (p a k : string) : String.eqb (p ++ a) (p ++ k) = String.eqb a k.
Proof. induction p as [|c p IH]; cbn; [reflexivity|]. now rewrite Ascii.eqb_refl. Qed.

Lemma prefixed_get (p : string) (d : pyobj) (a : string) :
  dict_get (prefixed p d) (p ++ a) = dict_get d a.
Proof.
  induction d as [|[k v] d IH]; cbn; [reflexivity|].
  rewrite append_eqb. destruct (String.eqb a k); [reflexivity | exact IH].
Qed.

Lemma prefixed_rev (p : string) (d : pyobj) : rev (prefixed p d) = prefixed p (rev d).
Proof. unfold prefixed. now rewrite map_rev. Qed.

Lemma dict_get_rev (d : pyobj) (k : string) :
  NoDup (dict_keys d) -> dict_get (rev d) k = dict_get d k.
Proof.
  intros Hnd. destruct (dict_get d k) as [v|] eqn:E.
  - apply dict_get_first.
    + unfold dict_keys. rewrite map_rev. now apply NoDup_rev.
    + apply in_rev. rewrite rev_involutive. now apply dict_get_In.
  - apply dict_get_None. apply dict_get_None in E. intros H. apply E.
    unfold dict_keys in *. rewrite map_rev in H. now apply in_rev in H.
Qed.

Lemma booster_not_preamp (d : pyobj) (a : string) :
  dict_get (prefixed "booster_" d) ("preamp_" ++ a) = None.
Proof. induction d as [|[k v] d IH]; cbn; [reflexivity | exact IH]. Qed.

Lemma enrich_preamp (A B o : pyobj) (a : string) (v : pyval) :
  NoDup (dict_keys A) ->
  dict_get A a = Some v -> dict_get (enrich A B o) ("preamp_" ++ a) = Some v.
Proof.
  intros Hnd Ha. unfold enrich. rewrite !assign_get, !prefixed_rev.
  rewrite booster_not_preamp, prefixed_get, dict_get_rev by assumption.
  unalias. now rewrite Ha.
Qed.

Lemma enrich_booster (A B o : pyobj) (a : string) (v : pyval) :
  NoDup (dict_keys B) ->
  dict_get B a = Some v -> dict_get (enrich A B o) ("booster_" ++ a) = Some v.
Proof.
  intros Hnd Ha. unfold enrich. rewrite assign_get, prefixed_rev.
  rewrite prefixed_get, dict_get_rev by assumption.
  unalias. now rewrite Ha.
Qed.

(** X8. On a table with distinct names whose composites are made of
    entries that are not composites, the resolver returns, and a composite
    then has every attribute of its preamp under the name prefixed with
    preamp_ and every attribute of its booster under the name prefixed
    with booster_, with the stage's value. *)
Theorem fixup_dual_stage_copies
        (amps : amp_table) (n p b : string) (o A B : pyobj) :
  NoDup (dict_keys amps) ->
  flat_table amps ->
  dict_get amps n = Some o ->
  getattr o DSM = Ok (Model_dual_stage p b) ->
  dict_get amps p = Some A ->
  dict_get amps b = Some B ->
  exists amps' o',
    _fixup_dual_stage amps = (amps', Ok amps') /\
    dict_get amps' n = Some o' /\
    (forall a v, getattr A a = Ok v -> getattr o' ("preamp_" ++ a) = Ok v) /\
    (forall a v, getattr B a = Ok v -> getattr o' ("booster_" ++ a) = Ok v).
Proof.
  intros Hnd Hflat Hn Ho HA HB.
  exists (resolved amps), (enrich A B o).
  split; [now apply fixup_dual_stage_flat|].
  split.
  { rewrite resolved_get. unalias. rewrite Hn. cbn [option_map].
    now rewrite (resolve_composite amps o p b A B). }
  assert (HndA : NoDup (dict_keys A)).
  { apply dict_get_In in HA. now destruct (Hflat _ _ HA). }
  assert (HndB : NoDup (dict_keys B)).
  { apply dict_get_In in HB. now destruct (Hflat _ _ HB). }
  split; intros a v Hv; unfold getattr in *.
  - destruct (dict_get A a) as [v0|] eqn:E; [|discriminate]. injection Hv as ->.
    now rewrite (enrich_preamp A B o a v).
  - destruct (dict_get B a) as [v0|] eqn:E; [|discriminate]. injection Hv as ->.
    now rewrite (enrich_booster A B o a v).
Qed.

Lemma fixup_dual_stage_copies_witness :
  exists amps' o',
    _fixup_dual_stage abc_table = (amps', Ok amps') /\
    dict_get amps' "C" = Some o' /\
    (forall a v, getattr (fixed_gain "A" 5) a = Ok v -> getattr o' ("preamp_" ++ a) = Ok v) /\
    (forall a v, getattr (fixed_gain "B" 6) a = Ok v -> getattr o' ("booster_" ++ a) = Ok v).
Proof.
  apply (fixup_dual_stage_copies abc_table "C" "A" "B" (composite "C" "A" "B")).
  - repeat constructor; cbn; intuition discriminate.
  - intros n o [E|[E|[E|[]]]]; injection E as <- <-.
    + split; [now left|]. repeat constructor; cbn; intuition discriminate.
    + split; [now left|]. repeat constructor; cbn; intuition discriminate.
    + split; [|repeat constructor; cbn; intuition discriminate].
      right. exists "A", "B", (fixed_gain "A" 5), (fixed_gain "B" 6).
      repeat split; reflexivity.
  - reflexivity.
  - reflexivity.
  - reflexivity.
  - reflexivity.
Defined.

End ResolverCopies.

(** ** A composite that names itself *)

Section ResolverSelf.

Lemma string_length_append (s t : string) :
  String.length (s ++ t) = (String.length s + String.length t)%nat.
Proof. induction s as [|c s IH]; cbn; [reflexivity | now rewrite IH]. Qed.

Lemma longest_key (l : list string) :
  l <> [] ->
  exists k, In k l /\ forall k', In k' l -> (String.length k' <= String.length k)%nat.
Proof.
  induction l as [|k l IH]; [congruence|]. intros _.
  destruct l as [|k1 l].
  - exists k. split; [now left|]. intros k' [<-|[]]. lia.
  - destruct IH as (m & Hin & Hmax); [discriminate|].
    destruct (Nat.le_gt_cases (String.length k) (String.length m)) as [Hle|Hgt].
    + exists m. split; [now right|]. intros k' [<-|H]; [assumption | now apply Hmax].
    + exists k. split; [now left|]. intros k' [<-|H]; [lia|].
      specialize (Hmax k' H). lia.
Qed.

Lemma dict_keys_nth (d : pyobj) (j : nat) (attr : string) (v : pyval) :
  nth_error d j = Some (attr, v) -> nth_error (dict_keys d) j = Some attr.
Proof. intros H. unfold dict_keys. now rewrite nth_error_map, H. Qed.

Lemma dict_keys_len (d : pyobj) : length (dict_keys d) = length d.
Proof. apply length_map. Qed.

(** Copying an object's attributes onto the object itself: the walk
    stops with the size error at the first key whose prefixed name is
    new. *)
Lemma copy_attrs_self (prefix name : string) (used : nat) :
  forall (r : nat) (amps : amp_table) (d : pyobj),
    dict_get amps name = Some d ->
    length d = used ->
    (r <= used)%nat ->
    (exists j attr,
        (used - r <= j)%nat /\
        nth_error (dict_keys d) j = Some attr /\
        ~ In (prefix ++ attr)%string (dict_keys d)) ->
    snd (copy_attrs r prefix name name used amps) = Raise changed_size.
Proof.
  induction r as [|r IH]; intros amps d Hd Hlen Hr (j & attr & Hj & Hnth & Hnew).
  - exfalso. assert (j < length (dict_keys d))%nat.
    { apply nth_error_Some. congruence. }
    rewrite dict_keys_len in H. lia.
  - cbn [copy_attrs]. unalias. rewrite Hd, Hlen, Nat.eqb_refl. cbn [negb].
    destruct (nth_error d (used - S r)) as [[attr0 v0]|] eqn:E.
    2:{ apply nth_error_None in E. lia. }
    pose proof (dict_keys_nth _ _ _ _ E) as Ek.
    assert (Hd' : dict_get (setattr_in amps name (prefix ++ attr0) v0) name
                  = Some (dict_set d (prefix ++ attr0) v0)).
    { rewrite setattr_in_update, update_entry_get_same. unalias. now rewrite Hd. }
    destruct (in_dec string_dec (prefix ++ attr0)%string (dict_keys d)) as [Hin|Hout].
    + pose proof (dict_keys_set_in d _ v0 Hin) as Hk.
      apply (IH _ (dict_set d (prefix ++ attr0) v0)).
      * exact Hd'.
      * rewrite <- !dict_keys_len in *. unalias. now rewrite Hk.
      * lia.
      * exists j, attr. unalias. rewrite Hk. repeat split; try assumption.
        assert (j <> used - S r)%nat.
        { intros ->. unalias. rewrite Ek in Hnth. injection Hnth as ->. contradiction. }
        lia.
    + pose proof (dict_keys_set_new d _ v0 Hout) as Hk.
      assert (Hlen' : length (dict_set d (prefix ++ attr0) v0) = S used).
      { rewrite <- !dict_keys_len in *. unalias. rewrite Hk, length_app. cbn. lia. }
      assert (Hneq : Nat.eqb (S used) used = false) by (apply Nat.eqb_neq; lia).
      destruct r; cbn [copy_attrs]; unalias; rewrite Hd', Hlen', Hneq; reflexivity.
Qed.

Lemma copy_prefixed_self (prefix name : string) (amps : amp_table) (d : pyobj) :
  (0 < String.length prefix)%nat ->
  dict_get amps name = Some d -> d <> [] ->
  snd (copy_prefixed prefix name name amps) = Raise changed_size.
Proof.
  intros Hp Hd Hne. unfold copy_prefixed. unalias. rewrite Hd.
  apply (copy_attrs_self prefix name (length d) (length d) amps d Hd eq_refl (le_n _)).
  destruct (longest_key (dict_keys d)) as (k & Hin & Hmax).
  { destruct d; [congruence | discriminate]. }
  destruct (In_nth_error _ _ Hin) as [j Hj].
  exists j, k. split; [lia|]. split; [exact Hj|].
  intros H. apply Hmax in H. rewrite string_length_append in H. lia.
Qed.

Lemma fixup_loop_plain_prefix (names rest : list string) (amps : amp_table) :
  (forall m, In m names -> exists o, dict_get amps m = Some o /\ plain o) ->
  fixup_loop (names ++ rest) amps = fixup_loop rest amps.
Proof.
  induction names as [|m names IH]; intros H; [reflexivity|].
  cbn [app fixup_loop]. destruct (H m (or_introl eq_refl)) as (o & Hm & Hpl).
  rewrite (fixup_entry_plain m o amps Hm Hpl). apply IH.
  intros m' Hm'. apply H. now right.
Qed.

(** X9. A composite that names itself as its preamp makes the resolver
    raise the error of a dictionary that changes size while it is
    iterated over, when the entries before it are not composites and its
    booster is in the table. *)
Theorem fixup_dual_stage_self_preamp
        (pre post : amp_table) (n b : string) (o : pyobj) :
  Forall (fun e => plain (snd e)) pre ->
  ~ In n (dict_keys pre) ->
  getattr o DSM = Ok (Model_dual_stage n b) ->
  In b (dict_keys (pre ++ (n, o) :: post)) ->
  snd (_fixup_dual_stage (pre ++ (n, o) :: post)) = Raise changed_size.
Proof.
  intros Hpre Hn Ho Hb.
  set (amps := pre ++ (n, o) :: post) in *.
  assert (Hget : dict_get amps n = Some o).
  { unfold amps. rewrite dict_get_app.
    apply dict_get_None in Hn. unalias. rewrite Hn. cbn. now rewrite String.eqb_refl. }
  assert (Hloop : fixup_loop (dict_keys amps) amps
                  = fixup_loop (n :: dict_keys post) amps).
  { unfold amps at 1. unfold dict_keys. rewrite map_app. cbn [map fst].
    apply fixup_loop_plain_prefix. intros m Hm.
    destruct (dict_get pre m) as [om|] eqn:E.
    - exists om. split.
      + unfold amps. rewrite dict_get_app. unalias. now rewrite E.
      + apply dict_get_In in E. rewrite Forall_forall in Hpre. exact (Hpre _ E).
    - apply dict_get_None in E. contradiction. }
  unfold _fixup_dual_stage. unalias. rewrite Hloop. cbn [fixup_loop].
  assert (Hentry : snd (fixup_entry n amps) = Raise changed_size).
  { unfold fixup_entry. unalias. rewrite Hget. unfold DSM in Ho. rewrite Ho, Hget.
    destruct (dict_get amps b) as [ob|] eqn:Eb.
    2:{ apply dict_get_None in Eb. contradiction. }
    pose proof (copy_prefixed_self "preamp_" n amps o) as Hc.
    destruct (copy_prefixed "preamp_" n n amps) as [amps1 r1].
    cbn [snd] in Hc. rewrite Hc; [reflexivity | cbn; lia | exact Hget |].
    intros ->. discriminate. }
  destruct (fixup_entry n amps) as [amps1 r]. cbn [snd] in Hentry. subst r.
  reflexivity.
Qed.

Lemma fixup_dual_stage_self_preamp_witness :
  snd (_fixup_dual_stage
         ([("A", fixed_gain "A" 5)] ++ ("C", composite "C" "C" "A") :: []))
  = Raise changed_size.
Proof.
  apply (fixup_dual_stage_self_preamp _ _ "C" "A").
  - repeat constructor.
  - cbn. intuition discriminate.
  - reflexivity.
  - cbn. now left.
Defined.

End ResolverSelf.

(** ** The passes of the loader *)

Section LoaderPasses.
Variable default_location : result Location.

Lemma set_edge_In es u v w e :
  In e (set_edge es u v w) -> In e es \/ snd e = w.
Proof.
  induction es as [|[[u' v'] w'] es IH]; cbn.
  - intros [<-|[]]. now right.
  - destruct (Nat.eqb u u' && Nat.eqb v v'); cbn.
    + intros [<-|H]; [now right | left; now right].
    + intros [<-|H]; [left; now left|]. destruct (IH H); [left; now right | now right].
Qed.

Lemma map_update_nth {A B} (g : A -> B) (f : A -> A) (l : list A) (i : nat) :
  (forall a, g (f a) = g a) -> map g (update_nth l i f) = map g l.
Proof.
  intros Hg. revert i. induction l as [|a l IH]; intros [|i]; cbn; try reflexivity.
  - now rewrite Hg.
  - now rewrite IH.
Qed.

Lemma set_per_degree_uid t p n : uid (set_per_degree t p n) = uid n.
Proof. now destruct n. Qed.

Lemma set_per_degree_variant t p n : variant_of (set_per_degree t p n) = variant_of n.
Proof. now destruct n. Qed.

Lemma second_pass_refl st : second_pass_step st st.
Proof. repeat split; auto. Qed.

Lemma second_pass_trans a b c :
  second_pass_step a b -> second_pass_step b c -> second_pass_step a c.
Proof.
  intros (Hf1 & Hn1 & Hu1 & Hv1 & He1) (Hf2 & Hn2 & Hu2 & Hv2 & He2).
  repeat split; try congruence.
  intros e He. destruct (He2 e He) as [H|[H|H]].
  - now apply He1.
  - right. now left.
  - right. right. now rewrite <- Hf1.
Qed.

Lemma add_link_step link st st' : add_link link st = Ok st' -> second_pass_step st st'.
Proof.
  intros H. unfold add_link in H.
  apply bind_ok in H as ([source target] & Hends & H).
  apply bind_ok in H as (f & Hf & H). destruct f.
  - apply bind_ok in H as (this_node & Hid & H).
    apply bind_ok in H as (u & Hu & H).
    apply bind_ok in H as (v & Hv & H).
    apply bind_ok in H as (last & Hlast & H).
    apply bind_ok in H as (w & Hw & H).
    apply bind_ok in H as (v' & Hv' & H).
    apply bind_ok in H as (t & Ht & H).
    injection H as <-. cbn. repeat split; try reflexivity.
    intros e He. apply set_edge_In in He as [He|He]; [|right; now left].
    apply set_edge_In in He as [He|He]; [now left|].
    right. right. destruct (fiber st) as [x|]; [|discriminate].
    injection Hlast as ->. exists last. split; [reflexivity|]. now rewrite He.
  - apply bind_ok in H as (p & Hp & H). destruct p.
    2:{ injection H as <-. apply second_pass_refl. }
    apply bind_ok in H as (u & Hu & H).
    apply bind_ok in H as (t & Ht & H).
    apply bind_ok in H as (patch & Hpatch & H).
    apply bind_ok in H as (has & Hhas & H). destruct has.
    + apply bind_ok in H as (power & Hpower & H).
      apply bind_ok in H as (src & Hsrc & H).
      destruct src; try discriminate. injection H as <-. cbn.
      repeat split; try reflexivity.
      * apply map_update_nth, set_per_degree_uid.
      * apply map_update_nth, set_per_degree_variant.
      * intros e He. apply set_edge_In in He as [He|He]; [now left | right; now left].
    + injection H as <-. cbn. repeat split; try reflexivity.
      intros e He. apply set_edge_In in He as [He|He]; [now left | right; now left].
Qed.

(** X10. The second pass over the links leaves the local [fiber] and
    the map of the names as they are, keeps the names and the variants of
    the nodes, and every edge it adds or reweighs has the weight 0.01 or
    the length of the one fiber the local [fiber] holds: no other length
    is ever read. *)
Theorem add_links_frame (links : list yang) (st st' : locals) :
  add_links links st = Ok st' ->
  fiber st' = fiber st /\ nodes st' = nodes st /\
  map uid (g_nodes (network st')) = map uid (g_nodes (network st)) /\
  map variant_of (g_nodes (network st')) = map variant_of (g_nodes (network st)) /\
  forall e, In e (g_edges (network st')) ->
            In e (g_edges (network st)) \/ snd e = 1 # 100 \/
            exists last, fiber st = Some last /\ member_float last "length" = Ok (snd e).
Proof.
  change (add_links links st = Ok st' -> second_pass_step st st').
  revert st. induction links as [|link links IH]; intros st H; cbn [add_links] in H.
  - injection H as <-. apply second_pass_refl.
  - apply bind_ok in H as (st1 & H1 & H).
    apply (second_pass_trans st st1 st'); [exact (add_link_step _ _ _ H1) | exact (IH _ H)].
Qed.

Lemma create_fiber_step equipment link st st' :
  create_fiber default_location equipment link st = Ok st' ->
  (fiber_of link = None /\ st' = st) \/
  (exists f el,
      fiber_of link = Some f /\ is_Fiber el = true /\
      member_str link "link-id" = Ok (uid el) /\
      network st' = {| g_nodes := g_nodes (network st) ++ [el];
                       g_edges := g_edges (network st) |} /\
      nodes st' = dict_set (nodes st) (uid el) (length (g_nodes (network st))) /\
      fiber st' = Some f).
Proof.
  intros H. unfold create_fiber in H.
  apply bind_ok in H as ([source target] & Hends & H).
  apply bind_ok in H as (f & Hf & H).
  assert (Hobj : exists ms, link = YObj ms).
  { unfold link_ends in Hends. apply bind_ok in Hends as (s & Hs & _).
    destruct link; try discriminate. now eexists. }
  destruct Hobj as [ms ->]. cbn in Hf. injection Hf as <-.
  unfold dict_has in H. cbn [fiber_of].
  destruct (dict_get ms "tip-photonic-topology:fiber") as [fib|] eqn:Efib.
  - right. apply bind_ok in H as (fib' & Hfib & H).
    cbn in Hfib. rewrite Efib in Hfib. injection Hfib as <-.
    bind_inv H. injection H as <-. cbn.
    eexists fib, (Fiber _ _ _ _). split; [reflexivity|]. split; [reflexivity|].
    cbn [uid]. split; [eassumption|]. repeat split.
  - left. split; [reflexivity|].
    apply bind_ok in H as (p & Hp & H). destruct p; [now injection H | discriminate].
Qed.

(** X11. The first pass over the links appends one Fiber node for each
    link with a fiber sub-structure, under the link's identifier and in
    the order of the links, adds no edge, and leaves in the local [fiber]
    the fiber sub-structure of the last such link. *)
Theorem create_fibers_last_fiber
        (equipment : equipment) (links : list yang) (st st' : locals) :
  create_fibers default_location equipment links st = Ok st' ->
  fiber st' = last_fiber links (fiber st) /\
  g_edges (network st') = g_edges (network st) /\
  exists els,
    g_nodes (network st') = g_nodes (network st) ++ els /\
    forallb is_Fiber els = true /\
    map (fun el => Ok (uid el)) els
    = map (fun link => member_str link "link-id") (filter has_fiber links).
Proof.
  revert st. induction links as [|link links IH]; intros st H; cbn [create_fibers] in H.
  - injection H as <-. repeat split. exists []. now rewrite app_nil_r.
  - apply bind_ok in H as (st1 & H1 & H).
    apply create_fiber_step in H1.
    destruct (IH _ H) as (Hf & He & els & Hn & Hall & Hids).
    cbn [last_fiber fold_left filter]. unfold has_fiber.
    destruct H1 as [[Hnone ->] | (f & el & Hsome & Hel & Hid & Hnet & Hnodes & Hfib)].
    + rewrite Hnone. repeat split; try assumption. now exists els.
    + rewrite Hsome. rewrite Hfib in Hf. rewrite Hnet in He, Hn. cbn in He, Hn.
      repeat split; try assumption.
      exists (el :: els). rewrite <- app_assoc in Hn. split; [exact Hn|].
      cbn. rewrite Hel, Hall, Hid, Hids. now split.
Qed.

Lemma register_indexed st el : indexed st -> indexed (register st el).
Proof.
  intros Hst u r. unfold register. cbn.
  destruct (String.eqb_spec u (uid el)) as [-> | Hne].
  - rewrite dict_get_set_same. intros E. injection E as <-.
    exists el. split; [|reflexivity].
    rewrite nth_error_app2 by lia. now rewrite Nat.sub_diag.
  - rewrite dict_get_set_other by assumption. intros E.
    destruct (Hst u r E) as (el' & Hnth & Hu). exists el'. split; [|assumption].
    rewrite nth_error_app1; [exact Hnth|]. apply nth_error_Some. congruence.
Qed.

(** X12. The pass over the nodes appends the elements it builds to the
    graph in the order of the document, adds no edge, and leaves a name
    that none of them carries as it was; afterwards each of their names
    stands for one of them that carries it. *)
Theorem load_nodes_lookup (equipment : equipment) (l : list yang) (st st' : locals) :
  indexed st ->
  load_nodes equipment l st = Ok st' ->
  indexed st' /\
  fiber st' = fiber st /\
  g_edges (network st') = g_edges (network st) /\
  exists els,
    mapM (load_node equipment) l = Ok els /\
    g_nodes (network st') = g_nodes (network st) ++ els /\
    (forall u, ~ In u (map uid els) -> dict_get (nodes st') u = dict_get (nodes st) u) /\
    (forall el, In el els ->
                exists el', node_named st' (uid el) = Ok el' /\
                            uid el' = uid el /\ In el' els).
Proof.
  revert st. induction l as [|node l IH]; intros st Hst H; cbn [load_nodes] in H.
  - injection H as <-. repeat split; try assumption.
    exists []. cbn. rewrite app_nil_r. repeat split. intros el [].
  - apply bind_ok in H as (el & Hel & H).
    destruct (IH _ (register_indexed st el Hst) H)
      as (Hidx & Hf & He & els & Hm & Hn & Hout & Hlook).
    split; [assumption|]. split; [exact Hf|]. split; [exact He|].
    exists (el :: els). cbn [mapM]. rewrite Hel, Hm. cbn [bind].
    split; [reflexivity|]. split.
    { rewrite Hn. unfold register. cbn. now rewrite <- app_assoc. }
    split.
    { intros u Hu. cbn in Hu. rewrite Hout by tauto.
      unfold register. cbn. apply dict_get_set_other. intros ->. tauto. }
    assert (Hth : forall el0, In el0 els ->
              exists el', node_named st' (uid el0) = Ok el' /\
                          uid el' = uid el0 /\ In el' (el :: els)).
    { intros el0 Hin. destruct (Hlook el0 Hin) as (el' & A & B & C).
      exists el'. repeat split; try assumption. now right. }
    intros el0 [<- | Hin]; [|now apply Hth].
    destruct (in_dec string_dec (uid el) (map uid els)) as [Hdup | Hnew].
    + apply in_map_iff in Hdup as (el1 & Hu1 & Hin1).
      rewrite <- Hu1. now apply Hth.
    + exists el. split; [|split; [reflexivity | now left]].
      unfold node_named, dict_item. rewrite (Hout _ Hnew).
      unfold register at 1. cbn. rewrite dict_get_set_same. cbn [bind].
      unfold node_at. rewrite Hn. unfold register. cbn.
      rewrite <- app_assoc. rewrite nth_error_app2 by lia.
      now rewrite Nat.sub_diag.
Qed.

End LoaderPasses.

Lemma add_links_frame_witness :
  exists st',
    add_links [patch_cord "p" "X" "Y" 3] two_roadms = Ok st' /\
    map uid (g_nodes (network st')) = ["X"; "Y"] /\
    forall e, In e (g_edges (network st')) -> snd e = 1 # 100.
Proof.
  eexists. split; [vm_compute; reflexivity|].
  destruct (add_links_frame [patch_cord "p" "X" "Y" 3] two_roadms _ eq_refl)
    as (_ & _ & Hu & _ & He).
  split; [exact Hu|].
  intros e Hin. destruct (He e Hin) as [[]|[H|(last & Hl & _)]];
    [exact H | discriminate Hl].
Defined.

Lemma create_fibers_last_fiber_witness :
  exists st',
    create_fibers (Ok origin) library
                  [fiber_link "F1" "X" "Y" 80; fiber_link "F2" "Y" "X" 50] two_roadms
    = Ok st' /\
    fiber st' = fiber_of (fiber_link "F2" "Y" "X" 50) /\
    g_edges (network st') = [].
Proof.
  eexists. split; [vm_compute; reflexivity|].
  destruct (create_fibers_last_fiber (Ok origin) library
              [fiber_link "F1" "X" "Y" 80; fiber_link "F2" "Y" "X" 50] two_roadms _ eq_refl)
    as (Hf & He & _).
  split; [exact Hf | exact He].
Defined.

Lemma load_nodes_lookup_witness :
  exists st',
    load_nodes library [roadm_node "X"; located_roadm; roadm_node "X"]
               {| network := empty_graph; nodes := []; fiber := None |} = Ok st' /\
    indexed st' /\
    g_edges (network st') = [] /\
    map uid (g_nodes (network st')) = ["X"; "R"; "X"] /\
    map metadata (g_nodes (network st'))
    = [None; Some {| latitude := 50; longitude := 1442 # 100 |}; None].
Proof.
  eexists. split; [vm_compute; reflexivity|].
  assert (Hempty : indexed {| network := empty_graph; nodes := []; fiber := None |})
    by (intros u r H; discriminate H).
  destruct (load_nodes_lookup library [roadm_node "X"; located_roadm; roadm_node "X"]
              {| network := empty_graph; nodes := []; fiber := None |} _
              Hempty eq_refl) as (Hi & _ & He & _).
  split; [exact Hi|]. split; [exact He|]. split; reflexivity.
Defined.

(** ** Nodes and links written by the store, read by the loader *)

Section StoredNodes.

(** X13. The loader reads the node entry the store wrote back as a node
    of the same kind, name and type, without a location: a Transceiver
    as it is; an amplifier with the parameters of its type in the
    library at hand and its operational settings, a tilt that was not
    set coming back as 0; a ROADM with the target power of its type in
    the library, whatever its own was, and no per-degree power; an
    attenuator with its loss, when it has one. *)
Theorem store_load_node
        (equipment equipment' : equipment) (network : DiGraph) (i : nat)
        (n n' : element) (entry : yang) :
  store_node equipment network i n = (n', Ok (ToNodes entry)) ->
  match n' with
  | Transceiver u t _ => load_node equipment' entry = Ok (Transceiver u t None)
  | Edfa u t _ _ op =>
      forall tv edfas spec,
        t = Some tv ->
        dict_get equipment' "Edfa" = Some edfas -> dict_get edfas tv = Some spec ->
        load_node equipment' entry
        = Ok (Edfa u t spec None (reloaded_operational op))
  | Roadm u t _ _ =>
      forall tv roadms spec target,
        t = Some tv ->
        dict_get equipment' "Roadm" = Some roadms -> dict_get roadms tv = Some spec ->
        dict_get spec "target_pch_out_db" = Some target ->
        load_node equipment' entry
        = Ok (Roadm u t {| target_pch_out_db := target; per_degree_pch_out_db := [] |}
                    None)
  | Fused u loss => loss <> None -> load_node equipment' entry = Ok (Fused u loss)
  | _ => True
  end.
Proof.
  intros H.
  destruct n as [u tv md | u tv ps md op | u tv ps md | u loss | u tv ps md | u];
    cbn [store_node] in H.
  - destruct tv as [t|].
    + injection H as <- <-. reflexivity.
    + destruct (txps <- dict_item equipment "Transceiver" ;; next (dict_keys txps));
        [|discriminate].
      injection H as <- <-. reflexivity.
  - injection H as <- H. intros t edfas spec -> Hedfas Hspec.
    cbn [get_type_variety type_variety bind] in H. injection H as <-.
    unfold load_node, dict_item.
    destruct op as [[gt|] [tt|] [ov|] [dp|]]; cbn; unalias;
      rewrite Hedfas; cbn; unalias; rewrite Hspec; reflexivity.
  - destruct tv as [t|]; [|discriminate]. injection H as <- <-.
    intros t' roadms spec target E Hroadms Hspec Htarget. injection E as <-.
    unfold load_node, dict_item. cbn. unalias. rewrite Hroadms. cbn. unalias.
    rewrite Hspec. cbn. unfold new_Roadm, dict_item. unalias.
    now rewrite Htarget.
  - injection H as <- <-. intros Hloss.
    destruct loss as [q|]; [reflexivity | congruence].
  - injection H as _ H. bind_inv H. discriminate.
  - discriminate.
Qed.

Lemma store_load_node_witness :
  exists entry,
    store_node library patched 0 booster_node = (booster_node, Ok (ToNodes entry)) /\
    load_node library entry
    = Ok (Edfa "B" (Some "std_gain")
               (Amp [("type_variety", VStr "std_gain"); ("dual_stage_model", VNone)])
               None
               {| gain_target := Some 20; tilt_target := Some 0;
                  out_voa := None; delta_p := Some 1 |}).
Proof.
  eexists. split; [reflexivity|].
  exact (store_load_node library library patched 0 booster_node booster_node _ eq_refl
                         "std_gain" _ _ eq_refl eq_refl eq_refl).
Defined.

Lemma store_node_typed_by equipment network i n n' r :
  store_node equipment network i n = (n', r) -> typed_by equipment n n'.
Proof.
  intros H.
  destruct n as [u tv md | u tv ps md op | u tv ps md | u loss | u tv ps md | u];
    cbn [store_node] in H;
    try (injection H as <- _; now left).
  - destruct tv as [t|]; [injection H as <- _; now left|].
    unfold dict_item in H.
    destruct (dict_get equipment "Transceiver") as [txps|] eqn:Et;
      cbn [bind] in H; [|injection H as <- _; now left].
    destruct (dict_keys txps) as [|first rest] eqn:Ek; cbn [next] in H;
      injection H as <- _; [now left|].
    right. exists u, md, first, txps, rest. auto.
  - destruct tv; injection H as <- _; now left.
Qed.

Lemma store_nodes_typed_by equipment network todo :
  forall i nodes links todo' r,
    store_nodes equipment network i todo nodes links = (todo', r) ->
    Forall2 (typed_by equipment) todo todo'.
Proof.
  induction todo as [|n todo IH]; intros i nodes links todo' r H; cbn [store_nodes] in H.
  - injection H as <- _. constructor.
  - destruct (store_node equipment network i n) as [n' r0] eqn:En.
    apply store_node_typed_by in En.
    destruct r0 as [[y|y]|e].
    + destruct (store_nodes equipment network (S i) todo (nodes ++ [y]) links)
        as [rest' r'] eqn:Er.
      injection H as <- _. constructor; [assumption | now apply IH in Er].
    + destruct (store_nodes equipment network (S i) todo nodes (links ++ [y]))
        as [rest' r'] eqn:Er.
      injection H as <- _. constructor; [assumption | now apply IH in Er].
    + injection H as <- _. constructor; [assumption|].
      clear. induction todo; constructor; [now left | assumption].
Qed.

Lemma Forall2_nth {A B} (R : A -> B -> Prop) (l : list A) (l' : list B) :
  Forall2 R l l' ->
  forall i a, nth_error l i = Some a -> exists b, nth_error l' i = Some b /\ R a b.
Proof.
  induction 1 as [|a0 b0 l l' Hab _ IH]; intros [|i] a Hi; cbn in *; try discriminate.
  - injection Hi as <-. eauto.
  - now apply IH.
Qed.

(** X14. Whether the store of a topology returns or raises, the graph
    it leaves has the edges it had and as many nodes, and each node is
    as it was, except that a Transceiver without a type may have been
    given the first type of the library. *)
Theorem store_topology_frame
        (equipment : equipment) (network network' : DiGraph) (r : result yang) :
  _store_topology equipment network = (network', r) ->
  g_edges network' = g_edges network /\
  length (g_nodes network') = length (g_nodes network) /\
  forall i n,
    nth_error (g_nodes network) i = Some n ->
    exists n', nth_error (g_nodes network') i = Some n' /\ typed_by equipment n n'.
Proof.
  intros H. unfold _store_topology in H.
  destruct (store_nodes equipment network 0 (g_nodes network) [] []) as [ns r0] eqn:E.
  injection H as <- _. cbn [g_edges g_nodes].
  apply store_nodes_typed_by in E.
  split; [reflexivity|]. split.
  - symmetry. exact (Forall2_length E).
  - exact (Forall2_nth _ _ _ E).
Qed.

Lemma store_topology_frame_witness :
  g_edges (fst (_store_topology library fiber_chain)) = g_edges fiber_chain /\
  length (g_nodes (fst (_store_topology library fiber_chain))) = 4%nat.
Proof.
  destruct (store_topology_frame library fiber_chain
              (fst (_store_topology library fiber_chain))
              (snd (_store_topology library fiber_chain))
              (surjective_pairing _)) as (He & Hn & _).
  split; [exact He | exact Hn].
Defined.

(** X15. The link entry the store writes for a Fiber node has no
    loss-per-km leaf, which the first pass of the loader reads from
    every fiber link: applied to the entry as it was written, the pass
    raises the error of the missing member, in any library and any
    state. *)
Theorem stored_fiber_link_lacks_loss
        (default_location : result Location) (equipment equipment' : equipment)
        (network : DiGraph) (i : nat) (n n' : element) (link : yang) (st : locals) :
  store_node equipment network i n = (n', Ok (ToLinks link)) ->
  create_fiber default_location equipment' link st
  = Raise (NonexistentInstance "loss-per-km").
Proof.
  intros H.
  destruct n as [u tv md | u tv ps md op | u tv ps md | u loss | u tv ps md | u];
    cbn [store_node] in H.
  - destruct tv; [discriminate|].
    destruct (txps <- dict_item equipment "Transceiver" ;; next (dict_keys txps));
      discriminate.
  - injection H as _ H. bind_inv H. discriminate.
  - destruct tv; discriminate.
  - discriminate.
  - injection H as _ H. bind_inv H. injection H as <-.
    rewrite json_yang_link_one_extra by discriminate. reflexivity.
  - discriminate.
Qed.

Lemma stored_fiber_link_lacks_loss_witness :
  exists link,
    store_node library patched 2 (fiber_el "F") = (fiber_el "F", Ok (ToLinks link)) /\
    create_fiber (Ok origin) library link two_roadms
    = Raise (NonexistentInstance "loss-per-km").
Proof.
  eexists. split; [reflexivity|].
  exact (stored_fiber_link_lacks_loss (Ok origin) library library patched 2
                                      (fiber_el "F") (fiber_el "F") _ two_roadms eq_refl).
Defined.

End StoredNodes.

(** ** Fiber types *)

Section FiberTypes.
Variable round64 : Q -> Q.
Variables FIBER_DISPERSION FIBER_DISPERSION_SLOPE FIBER_GAMMA FIBER_PMD_COEF : Q.

Local Abbreviation transform_fiber :=
  (Fiber_type._transform_fiber
     round64 FIBER_DISPERSION FIBER_DISPERSION_SLOPE FIBER_GAMMA FIBER_PMD_COEF).
Local Abbreviation transform_raman_fiber :=
  (Fiber_type._transform_raman_fiber
     round64 FIBER_DISPERSION FIBER_DISPERSION_SLOPE FIBER_GAMMA FIBER_PMD_COEF).
Local Abbreviation store_equipment_fiber :=
  (Fiber_type._store_equipment_fiber
     round64 FIBER_DISPERSION FIBER_DISPERSION_SLOPE FIBER_GAMMA FIBER_PMD_COEF).

Lemma stored_raman_entries_read (pairs : list (yang * Q)) :
  forall entries,
    mapM Fiber_type.store_raman_entry pairs = Ok entries ->
    (exists crs, mapM (fun x => yang_member x "cr") entries = Ok crs) /\
    (exists fos, mapM (fun x => member_float x "delta-frequency") entries = Ok fos).
Proof.
  induction pairs as [|[cr freq] pairs IH]; intros entries H; cbn [mapM] in H.
  - injection H as <-. split; eexists; reflexivity.
  - apply bind_ok in H as (x & Hx & H). apply bind_ok in H as (xs & Hxs & H).
    injection H as <-. destruct (IH _ Hxs) as [[crs Hcrs] [fos Hfos]].
    unfold Fiber_type.store_raman_entry in Hx.
    apply bind_ok in Hx as (c & Hc & Hx). injection Hx as <-.
    cbn [mapM]. rewrite Hcrs, Hfos. split; eexists; reflexivity.
Qed.

(** X16. Applied to the entry the store of a fiber type wrote, as it
    was written, the transform of a fiber type raises the error of a
    missing member: the store writes the slope under dispersion-slope,
    the transform reads chromatic-dispersion-slope.  The transform of a
    Raman fiber type raises it as well, and on the entry of a fiber type
    without Raman data the error of the missing raman-efficiency. *)
Theorem stored_fiber_not_transformable (name : string) (f : Ji.fiber) (e : yang) :
  store_equipment_fiber name f = Ok e ->
  transform_fiber e = Raise (NonexistentInstance "chromatic-dispersion-slope") /\
  transform_raman_fiber e
  = Raise (NonexistentInstance
             match f with
             | Ji.Fiber _ => "raman-efficiency"
             | Ji.RamanFiber _ _ _ => "chromatic-dispersion-slope"
             end).
Proof.
  intros H. unfold Fiber_type._store_equipment_fiber in H.
  apply bind_ok in H as (d0 & Hd0 & H). apply bind_ok in H as (a0 & Ha0 & H).
  apply bind_ok in H as (g0 & Hg0 & H). apply bind_ok in H as (a2 & Ha2 & H).
  apply bind_ok in H as (p0 & Hp0 & H). apply bind_ok in H as (a4 & Ha4 & H).
  apply bind_ok in H as (res & Hres & H).
  assert (Hshape :
            exists rest,
              res = [("type", YStr name);
                     ("chromatic-dispersion", YDec (round64 (a0 / FIBER_DISPERSION)));
                     ("gamma", YDec (round64 (a2 / FIBER_GAMMA)));
                     ("pmd-coefficient", YDec (round64 (a4 / FIBER_PMD_COEF)))] ++ rest /\
              (rest = [] \/ exists v, rest = [("dispersion-slope", v)])).
  { destruct (getattr (Ji.fiber_attrs f) "dispersion_slope") as [s|err].
    - apply bind_ok in Hres as (s' & Hs & Hres). injection Hres as <-.
      eexists. split; [reflexivity|]. right. eexists. reflexivity.
    - destruct err; try discriminate. injection Hres as <-.
      exists []. split; [reflexivity | now left]. }
  destruct Hshape as (rest & -> & Hrest).
  destruct f as [attrs | attrs cr fo].
  - injection H as <-.
    destruct Hrest as [-> | [v ->]]; split; reflexivity.
  - apply bind_ok in H as (entries & Hentries & H). injection H as <-.
    destruct (stored_raman_entries_read _ _ Hentries) as [[crs Hcrs] [fos Hfos]].
    destruct Hrest as [-> | [v ->]]; split; try reflexivity;
      unfold Fiber_type._transform_raman_fiber, Fiber_type.over_raman_efficiency;
      cbn; rewrite Hcrs; cbn; rewrite Hfos; reflexivity.
Qed.

(** X17. A fiber type that the transform built is accepted by the
    store, when the scale factors are not zero; the entry has the type
    name it is stored under; its dispersion, its nonlinear coefficient
    and its PMD coefficient are those of the entry that was transformed,
    multiplied by the scale factor and divided by it again, each time
    rounded; and it has no leaf under the name the transform reads the
    slope from. *)
Theorem store_of_transformed_fiber (name : string) (y : yang) (f : Ji.fiber) :
  ~ FIBER_DISPERSION == 0 -> ~ FIBER_DISPERSION_SLOPE == 0 ->
  ~ FIBER_GAMMA == 0 -> ~ FIBER_PMD_COEF == 0 ->
  transform_fiber y = Ok f ->
  exists e,
    store_equipment_fiber name f = Ok e /\
    member_str e "type" = Ok name /\
    rescaled_leaf round64 FIBER_DISPERSION y "chromatic-dispersion" e /\
    rescaled_leaf round64 FIBER_GAMMA y "gamma" e /\
    rescaled_leaf round64 FIBER_PMD_COEF y "pmd-coefficient" e /\
    yang_in "chromatic-dispersion-slope" e = Ok false.
Proof.
  intros Hd Hs Hg Hp H. unfold Fiber_type._transform_fiber in H.
  apply bind_ok in H as (t & Ht & H). apply bind_ok in H as (common & Hc & H).
  injection H as <-. unfold Fiber_type._extract_common_fiber in Hc.
  apply bind_ok in Hc as (d & Ed & Hc). apply bind_ok in Hc as (s & Es & Hc).
  apply bind_ok in Hc as (g & Eg & Hc). apply bind_ok in Hc as (p & Ep & Hc).
  injection Hc as <-.
  eexists. split; [reflexivity|]. split; [reflexivity|].
  unfold rescaled_leaf.
  split; [exists d; split; [exact Ed | reflexivity]|].
  split; [exists g; split; [exact Eg | reflexivity]|].
  split; [exists p; split; [exact Ep | reflexivity]|].
  reflexivity.
Qed.

Lemma raman_entries_stored (entries : list yang) :
  forall crs fos entries',
    mapM (fun x => yang_member x "cr") entries = Ok crs ->
    mapM (fun x => member_float x "delta-frequency") entries = Ok fos ->
    mapM Fiber_type.store_raman_entry (combine crs fos) = Ok entries' ->
    Forall2 raman_entry_stored entries entries'.
Proof.
  induction entries as [|x entries IH]; intros crs fos entries' Hc Hf Hs;
    cbn [mapM] in Hc, Hf.
  - injection Hc as <-. cbn in Hs. injection Hs as <-. constructor.
  - apply bind_ok in Hc as (c & Ec & Hc). apply bind_ok in Hc as (cs & Ecs & Hc).
    injection Hc as <-.
    apply bind_ok in Hf as (q & Eq & Hf). apply bind_ok in Hf as (qs & Eqs & Hf).
    injection Hf as <-.
    cbn [combine mapM] in Hs.
    apply bind_ok in Hs as (x' & Ex' & Hs). apply bind_ok in Hs as (xs' & Exs' & Hs).
    injection Hs as <-.
    constructor; [|now apply (IH cs qs)].
    unfold Fiber_type.store_raman_entry in Ex'.
    apply bind_ok in Ex' as (c' & Ec' & Ex'). injection Ex' as <-.
    split.
    + exists c, c'. repeat split; assumption.
    + exists q. split; [assumption | reflexivity].
Qed.

(** X18. When a Raman fiber type that the transform built is stored,
    the entries of raman-efficiency come out in their order, each with
    its coefficient and with its frequency offset divided by the
    terahertz factor: the transform reads the offset as it is, the store
    divides it. *)
Theorem raman_offsets_rescaled (name : string) (y e : yang) (f : Ji.fiber) :
  transform_raman_fiber y = Ok f ->
  store_equipment_fiber name f = Ok e ->
  exists entries entries',
    (l <- yang_member y "raman-efficiency" ;; yang_iter l) = Ok entries /\
    (l <- yang_member e "raman-efficiency" ;; yang_iter l) = Ok entries' /\
    Forall2 raman_entry_stored entries entries'.
Proof.
  intros H Hs. unfold Fiber_type._transform_raman_fiber in H.
  apply bind_ok in H as (t & Ht & H).
  apply bind_ok in H as (crs & Hcrs & H).
  apply bind_ok in H as (fos & Hfos & H).
  apply bind_ok in H as (common & Hc & H). injection H as <-.
  unfold Fiber_type._extract_common_fiber in Hc. bind_inv Hc. injection Hc as <-.
  unfold Fiber_type.over_raman_efficiency in Hcrs, Hfos.
  apply bind_ok in Hcrs as (l & Hl & Hcrs). apply bind_ok in Hcrs as (entries & Hit & Hcrs).
  apply bind_ok in Hfos as (l' & Hl' & Hfos).
  apply bind_ok in Hfos as (entries2 & Hit' & Hfos).
  assert (l' = l) by congruence. subst l'.
  assert (entries2 = entries) by congruence. subst entries2.
  unfold Fiber_type._store_equipment_fiber in Hs. cbn in Hs.
  apply bind_ok in Hs as (entries' & Hentries & Hs). injection Hs as <-.
  exists entries, entries'. split; [now rewrite Hl|]. split; [reflexivity|].
  now apply (raman_entries_stored entries crs fos).
Qed.

End FiberTypes.

Lemma stored_fiber_not_transformable_witness :
  exists e,
    Fiber_type._store_equipment_fiber
      to_thousandths 1 1 1 1 "SSMF"
      (Ji.Fiber [("dispersion", VFloat 17); ("gamma", VFloat 1); ("pmd_coef", VFloat 0)])
    = Ok e /\
    Fiber_type._transform_fiber to_thousandths 1 1 1 1 e
    = Raise (NonexistentInstance "chromatic-dispersion-slope").
Proof.
  eexists. split; [reflexivity|].
  exact (proj1 (stored_fiber_not_transformable
                  to_thousandths 1 1 1 1 "SSMF"
                  (Ji.Fiber [("dispersion", VFloat 17); ("gamma", VFloat 1);
                             ("pmd_coef", VFloat 0)])
                  _ eq_refl)).
Defined.

Lemma store_of_transformed_fiber_witness :
  exists f e,
    Fiber_type._transform_fiber to_thousandths 1000 10 2 3 raman_fiber_entry = Ok f /\
    Fiber_type._store_equipment_fiber to_thousandths 1000 10 2 3 "other" f = Ok e /\
    member_str e "type" = Ok "other" /\
    rescaled_leaf to_thousandths 3 raman_fiber_entry "pmd-coefficient" e /\
    yang_in "chromatic-dispersion-slope" e = Ok false.
Proof.
  eexists.
  destruct (store_of_transformed_fiber
              to_thousandths 1000 10 2 3 "other" raman_fiber_entry _
              ltac:(unfold Qeq; cbn; lia) ltac:(unfold Qeq; cbn; lia)
              ltac:(unfold Qeq; cbn; lia) ltac:(unfold Qeq; cbn; lia) eq_refl)
    as (e & Hs & Ht & _ & _ & Hp & Hin).
  exists e. split; [reflexivity|]. split; [exact Hs|]. split; [exact Ht|].
  split; [exact Hp | exact Hin].
Defined.

(** A PMD coefficient of 0.0007, multiplied by 3 and divided by 3 with
    the results rounded down to the thousandth, is written as 0. *)
Example rounded_leaf_not_restored :
  exists f e,
    Fiber_type._transform_fiber to_thousandths 1000 10 2 3 fine_fiber_entry = Ok f /\
    Fiber_type._store_equipment_fiber to_thousandths 1000 10 2 3 "SSMF" f = Ok e /\
    member_float fine_fiber_entry "pmd-coefficient" = Ok (7 # 10000) /\
    member_float e "pmd-coefficient" = Ok (0 # 1000).
Proof. do 2 eexists. repeat split; vm_compute; reflexivity. Qed.

Lemma raman_offsets_rescaled_witness :
  exists f e entries',
    Fiber_type._transform_raman_fiber to_thousandths 1000 10 2 3 raman_fiber_entry = Ok f /\
    Fiber_type._store_equipment_fiber to_thousandths 1000 10 2 3 "SSMF" f = Ok e /\
    (l <- yang_member e "raman-efficiency" ;; yang_iter l) = Ok entries' /\
    Forall2 raman_entry_stored [raman_entry 0 0; raman_entry (1 # 10) 5] entries'.
Proof.
  eexists. eexists.
  destruct (raman_offsets_rescaled to_thousandths 1000 10 2 3 "SSMF" raman_fiber_entry _ _
                                   eq_refl eq_refl)
    as (entries & entries' & He & He' & Hall).
  exists entries'. split; [reflexivity|]. split; [reflexivity|].
  split; [exact He'|]. injection He as <-. exact Hall.
Defined.

(** ** ROADM types *)

Section RoadmTypes.

(** X19. A ROADM type that the transform built survives a save and a
    load as it is: the store accepts it, and the transform of the entry
    the store wrote gives the same record, the lists of compatible
    amplifiers in their order. *)
Theorem roadm_round_trip (name : string) (y : yang) (r : Ji.Roadm) :
  Roadm_type._transform_roadm y = Ok r ->
  exists e,
    Roadm_type._store_equipment_roadm name r = Ok e /\
    Roadm_type._transform_roadm e = Ok r.
Proof.
  intros H. unfold Roadm_type._transform_roadm in H.
  bind_inv H. injection H as <-.
  eexists. split; reflexivity.
Qed.

Lemma roadm_round_trip_witness :
  exists r e,
    Roadm_type._transform_roadm roadm_entry = Ok r /\
    Roadm_type._store_equipment_roadm "roadm" r = Ok e /\
    Roadm_type._transform_roadm e = Ok r.
Proof.
  eexists.
  destruct (roadm_round_trip "roadm" roadm_entry _ eq_refl) as (e & Hs & Ht).
  exists e. split; [reflexivity|]. split; [exact Hs | exact Ht].
Defined.

End RoadmTypes.

(** ** Transceiver types *)

Section TransceiverTypes.

Lemma GIGA_cancel (q : Q) : q * GIGA / GIGA == q.
Proof. unfold GIGA. field. Qed.

Lemma THZ_cancel (q : Q) : q * THZ / THZ * THZ == q * THZ.
Proof. unfold THZ. field. Qed.

Lemma mode_reloaded_after (x : yang) (m : odict pyval) :
  Transceiver_type._transform_transceiver_mode x = Ok m ->
  exists x' m',
    Transceiver_type.store_mode m = Ok x' /\
    Transceiver_type._transform_transceiver_mode x' = Ok m' /\
    mode_reloaded m m'.
Proof.
  intros H. unfold Transceiver_type._transform_transceiver_mode in H.
  bind_inv H. injection H as <-.
  eexists. eexists. split; [reflexivity|]. split; [reflexivity|].
  unfold mode_reloaded, same_float, float_at. cbn [dict_keys map fst].
  split; [reflexivity|]. split; [reflexivity|].
  split.
  { eexists. eexists. split; [reflexivity|]. split; [reflexivity|].
    unfold GIGA. field. }
  split; [eexists; eexists; split; [reflexivity|]; split; [reflexivity|]; reflexivity|].
  split; [eexists; eexists; split; [reflexivity|]; split; [reflexivity|]; reflexivity|].
  split; [eexists; eexists; split; [reflexivity|]; split; [reflexivity|]; reflexivity|].
  split.
  { eexists. eexists. split; [reflexivity|]. split; [reflexivity|].
    unfold GIGA. field. }
  split; [eexists; eexists; split; [reflexivity|]; split; [reflexivity|]; reflexivity|].
  eexists. eexists. split; [reflexivity|]. split; [reflexivity|]. reflexivity.
Qed.

Lemma modes_reloaded_after (l : list yang) :
  forall ms,
    mapM Transceiver_type._transform_transceiver_mode l = Ok ms ->
    exists l' ms',
      mapM Transceiver_type.store_mode ms = Ok l' /\
      mapM Transceiver_type._transform_transceiver_mode l' = Ok ms' /\
      Forall2 mode_reloaded ms ms'.
Proof.
  induction l as [|x l IH]; intros ms H; cbn [mapM] in H.
  - injection H as <-. exists [], []. repeat split. constructor.
  - apply bind_ok in H as (m & Hm & H). apply bind_ok in H as (ms0 & Hms & H).
    injection H as <-.
    destruct (mode_reloaded_after x m Hm) as (x' & m' & Hs & Ht & Hr).
    destruct (IH _ Hms) as (l' & ms' & Hs' & Ht' & Hr').
    exists (x' :: l'), (m' :: ms'). cbn [mapM]. rewrite Hs, Hs', Ht, Ht'.
    repeat split. now constructor.
Qed.

(** X20. A transceiver type that the transform built survives a save
    and a load with its modes in their order: the reloaded type has the
    name it was stored under, the frequency band, and mode for mode the
    format, the baud rate, the required OSNR, the roll-off, the
    transmit OSNR, the spacing and the cost of the type that was
    stored; the bit rate comes back cut to whole gigabits per second. *)
Theorem transceiver_reloaded (name : string) (y : yang) (t : Ji.Transceiver) :
  Transceiver_type._transform_transceiver y = Ok t ->
  exists e t',
    Transceiver_type._store_equipment_transceiver name t = Ok e /\
    Transceiver_type._transform_transceiver e = Ok t' /\
    Ji.type_variety t' = name /\
    same_float "min" (Ji.frequency t) (Ji.frequency t') /\
    same_float "max" (Ji.frequency t) (Ji.frequency t') /\
    Forall2 mode_reloaded (Ji.mode t) (Ji.mode t').
Proof.
  intros H. unfold Transceiver_type._transform_transceiver in H.
  apply bind_ok in H as (tv & Htv & H).
  apply bind_ok in H as (fmin & Hmin & H).
  apply bind_ok in H as (fmax & Hmax & H).
  apply bind_ok in H as (lm & Hlm & H).
  apply bind_ok in H as (l & Hl & H).
  apply bind_ok in H as (ms & Hms & H). injection H as <-.
  destruct (modes_reloaded_after l ms Hms) as (l' & ms' & Hs & Ht & Hr).
  eexists. eexists.
  split.
  { unfold Transceiver_type._store_equipment_transceiver. cbn. rewrite Hs.
    reflexivity. }
  split.
  { unfold Transceiver_type._transform_transceiver. cbn. rewrite Ht. reflexivity. }
  split; [reflexivity|].
  unfold same_float, float_at. cbn.
  split; [eexists; eexists; split; [reflexivity|]; split; [reflexivity|];
          apply THZ_cancel|].
  split; [eexists; eexists; split; [reflexivity|]; split; [reflexivity|];
          apply THZ_cancel|].
  exact Hr.
Qed.

End TransceiverTypes.

Lemma transceiver_reloaded_witness :
  exists t e t',
    Transceiver_type._transform_transceiver transceiver_entry = Ok t /\
    Transceiver_type._store_equipment_transceiver "vendorA_trx-type1" t = Ok e /\
    Transceiver_type._transform_transceiver e = Ok t' /\
    Forall2 mode_reloaded (Ji.mode t) (Ji.mode t').
Proof.
  eexists.
  destruct (transceiver_reloaded "vendorA_trx-type1" transceiver_entry _ eq_refl)
    as (e & t' & Hs & Ht & _ & _ & _ & Hm).
  exists e, t'. split; [reflexivity|]. split; [exact Hs|]. split; [exact Ht | exact Hm].
Defined.

(** ** Simulation parameters *)

Section SimulationParameters.
Variable load_json : string -> result yang.
Variables unexpected_keyword_text multiple_values_text : string -> string.
Variable not_a_mapping_text : yang -> string.

Local Abbreviation load_sim_params :=
  (Science_utils.load_sim_params
     load_json unexpected_keyword_text multiple_values_text not_a_mapping_text).

Lemma subscript_object (params : yang) (key : string) (v : yang) :
  Science_utils.subscript params key = Ok v ->
  exists ms, params = YObj ms /\ dict_get ms key = Some v.
Proof.
  destruct params; try discriminate. cbn. unfold dict_item.
  destruct (dict_get members key) eqn:E; [|discriminate].
  intros H. injection H as <-. eauto.
Qed.

Lemma filter_nil_all {A} (f : A -> bool) (l : list A) :
  filter f l = [] -> forall a, In a l -> f a = false.
Proof.
  induction l as [|x l IH]; cbn; [tauto|].
  destruct (f x) eqn:E; [discriminate|].
  intros H a [<-|Ha]; [assumption | now apply IH].
Qed.

(** X21. When the parameters of a simulation are loaded, the file holds
    an object whose only key is params; its value is an object with the
    channels under test and, under the keys raman_parametes and
    nli_parametes, two objects from which the four Raman attributes and
    the five NLI attributes are read, in the order of the classes. *)
Theorem load_sim_params_shape (path : string) (sp : Science_utils.sim_params) :
  load_sim_params path = Ok sp ->
  exists kwargs ms raman nli,
    load_json path = Ok (YObj kwargs) /\
    (forall k, In k (dict_keys kwargs) -> k = "params") /\
    dict_get kwargs "params" = Some (YObj ms) /\
    dict_get ms "list_of_channels_under_test"
    = Some (Science_utils.list_of_channels_under_test sp) /\
    dict_get ms "raman_parametes" = Some (YObj raman) /\
    dict_get ms "nli_parametes" = Some (YObj nli) /\
    read_from raman ["flag_raman"; "space_resolution"; "tolerance"; "verbose"]
              (Science_utils.raman_params sp) /\
    read_from nli ["nli_method_name"; "wdm_grid_size"; "dispersion_tolerance";
                   "phase_shift_tollerance"; "verbose"]
              (Science_utils.nli_params sp).
Proof.
  intros H. unfold Science_utils.load_sim_params in H.
  apply bind_ok in H as (doc & Hdoc & H).
  destruct doc as [| | | | | kwargs |]; try discriminate.
  destruct (filter (fun k => negb (String.eqb k "params")) (dict_keys kwargs))
    as [|k0 rest] eqn:Ef; [|discriminate].
  unfold Science_utils.SimParams in H.
  apply bind_ok in H as (channels & Hch & H).
  apply bind_ok in H as (r & Hr & H).
  apply bind_ok in H as (ro & Hro & H).
  apply bind_ok in H as (n & Hn & H).
  apply bind_ok in H as (no & Hno & H).
  injection H as <-. cbn.
  apply subscript_object in Hch as (ms & Hp & Hch).
  destruct (dict_get kwargs "params") as [p|] eqn:Ep; [|discriminate]. subst p.
  apply subscript_object in Hr as (ms1 & E1 & Hr). injection E1 as <-.
  apply subscript_object in Hn as (ms2 & E2 & Hn). injection E2 as <-.
  unfold Science_utils.RamanParameters in Hro.
  apply bind_ok in Hro as (v1 & Hv1 & Hro). apply bind_ok in Hro as (v2 & Hv2 & Hro).
  apply bind_ok in Hro as (v3 & Hv3 & Hro). apply bind_ok in Hro as (v4 & Hv4 & Hro).
  injection Hro as <-.
  apply subscript_object in Hv1 as (raman & -> & Hv1).
  apply subscript_object in Hv2 as (? & E & Hv2). injection E as <-.
  apply subscript_object in Hv3 as (? & E & Hv3). injection E as <-.
  apply subscript_object in Hv4 as (? & E & Hv4). injection E as <-.
  unfold Science_utils.NLIParameters in Hno.
  apply bind_ok in Hno as (w1 & Hw1 & Hno). apply bind_ok in Hno as (w2 & Hw2 & Hno).
  apply bind_ok in Hno as (w3 & Hw3 & Hno). apply bind_ok in Hno as (w4 & Hw4 & Hno).
  apply bind_ok in Hno as (w5 & Hw5 & Hno).
  injection Hno as <-.
  apply subscript_object in Hw1 as (nli & -> & Hw1).
  apply subscript_object in Hw2 as (? & E & Hw2). injection E as <-.
  apply subscript_object in Hw3 as (? & E & Hw3). injection E as <-.
  apply subscript_object in Hw4 as (? & E & Hw4). injection E as <-.
  apply subscript_object in Hw5 as (? & E & Hw5). injection E as <-.
  exists kwargs, ms, raman, nli.
  split; [exact Hdoc|]. split.
  { intros k Hk. pose proof (filter_nil_all _ _ Ef k Hk) as Hf.
    apply negb_false_iff in Hf. now apply String.eqb_eq in Hf. }
  split; [exact Ep|]. split; [exact Hch|]. split; [exact Hr|]. split; [exact Hn|].
  split; (split; [reflexivity|]); intros k v Hin; cbn in Hin;
    repeat (destruct Hin as [Hin|Hin]; [injection Hin as <- <-; assumption|]);
    destruct Hin.
Qed.

Lemma filter_first {A} (f : A -> bool) (l : list A) (a : A) (rest : list A) :
  filter f l = a :: rest ->
  exists pre post, l = pre ++ a :: post /\ f a = true /\ Forall (fun x => f x = false) pre.
Proof.
  induction l as [|x l IH]; cbn [filter]; [discriminate|].
  destruct (f x) eqn:E.
  - intros H. injection H as -> _. exists [], l. repeat split; [assumption | constructor].
  - intros H. destruct (IH H) as (pre & post & -> & Ha & Hpre).
    exists (x :: pre), post. repeat split; [assumption | now constructor].
Qed.

(** X22. A file whose object has any key other than params is not
    loaded: the constructor is called with the keys of the file as its
    keyword arguments, and raises a TypeError for the first of them
    that is not params: for self that of an argument given twice, for
    any other that of an unexpected keyword argument.  So are rejected
    the files that hold the parameters at their top. *)
Theorem load_sim_params_other_key (path : string) (kwargs : odict yang) (k : string) :
  load_json path = Ok (YObj kwargs) ->
  In k (dict_keys kwargs) -> k <> "params" ->
  exists pre k' post,
    dict_keys kwargs = pre ++ k' :: post /\
    Forall (fun x => x = "params") pre /\ k' <> "params" /\
    load_sim_params path
    = Raise (TypeError (if String.eqb k' "self" then multiple_values_text k'
                        else unexpected_keyword_text k')).
Proof.
  intros Hdoc Hin Hne. unfold Science_utils.load_sim_params. rewrite Hdoc. cbn [bind].
  destruct (filter (fun k => negb (String.eqb k "params")) (dict_keys kwargs))
    as [|k0 rest] eqn:Ef.
  - pose proof (filter_nil_all _ _ Ef k Hin) as Hf.
    apply negb_false_iff in Hf. apply String.eqb_eq in Hf. contradiction.
  - destruct (filter_first _ _ _ _ Ef) as (pre & post & Hk & Hk0 & Hpre).
    exists pre, k0, post. split; [exact Hk|]. split.
    { eapply Forall_impl; [|exact Hpre]. cbn. intros x Hx.
      apply negb_false_iff in Hx. now apply String.eqb_eq in Hx. }
    split; [|reflexivity].
    apply negb_true_iff in Hk0. now apply String.eqb_neq in Hk0.
Qed.

End SimulationParameters.

Lemma load_sim_params_shape_witness :
  exists sp kwargs,
    Science_utils.load_sim_params sim_file unexpected_text multiple_text mapping_text
                                  "sim_params.json" = Ok sp /\
    sim_file "sim_params.json" = Ok (YObj kwargs) /\
    forall k, In k (dict_keys kwargs) -> k = "params".
Proof.
  eexists.
  destruct (load_sim_params_shape sim_file unexpected_text multiple_text mapping_text
                                  "sim_params.json" _ eq_refl)
    as (kwargs & ms & raman & nli & Hdoc & Hkeys & _).
  exists kwargs. split; [reflexivity|]. split; [exact Hdoc | exact Hkeys].
Defined.

Lemma load_sim_params_other_key_witness :
  Science_utils.load_sim_params flat_sim_file unexpected_text multiple_text mapping_text
                                "sim_params.json"
  = Raise (TypeError "__init__() got an unexpected keyword argument 'list_of_channels_under_test'") /\
  Science_utils.load_sim_params self_sim_file unexpected_text multiple_text mapping_text
                                "sim_params.json"
  = Raise (TypeError "__init__() got multiple values for argument 'self'").
Proof.
  split.
  - destruct (load_sim_params_other_key
                flat_sim_file unexpected_text multiple_text mapping_text
                "sim_params.json" _ "raman_parametes" eq_refl)
      as (pre & k' & post & Hk & Hpre & Hne & Hr).
    + cbn. right. now left.
    + discriminate.
    + destruct pre as [|x pre].
      * injection Hk as <- _. exact Hr.
      * injection Hk as <- _. inversion Hpre as [|? ? Hx _]. discriminate Hx.
  - destruct (load_sim_params_other_key
                self_sim_file unexpected_text multiple_text mapping_text
                "sim_params.json" _ "other" eq_refl)
      as (pre & k' & post & Hk & Hpre & Hne & Hr).
    + cbn. right. right. now left.
    + discriminate.
    + destruct pre as [|x [|y pre]].
      * injection Hk as <- _. now contradiction Hne.
      * injection Hk as _ <- _. exact Hr.
      * injection Hk as _ <- _. inversion Hpre as [|? ? _ Hpre']. subst.
        inversion Hpre' as [|? ? Hy _]. discriminate Hy.
Defined.

(** ** The equipment library *)

Section LibraryFacts.
Variable estimate_nf_model : string -> Q -> Q -> Q -> Q -> result (Q * Q * Q).
Variable round64 : Q -> Q.
Variables FIBER_DISPERSION FIBER_DISPERSION_SLOPE FIBER_GAMMA FIBER_PMD_COEF : Q.
Variable validated : yang -> result yang.

Local Abbreviation load_equipment :=
  (Library._load_equipment
     estimate_nf_model
     round64 FIBER_DISPERSION FIBER_DISPERSION_SLOPE FIBER_GAMMA FIBER_PMD_COEF).
Local Abbreviation save :=
  (Library.save_to_json
     round64 FIBER_DISPERSION FIBER_DISPERSION_SLOPE FIBER_GAMMA FIBER_PMD_COEF validated).

Lemma dict_set_In_inv {V} (d : odict V) (k : string) (v : V) (n : string) (v' : V) :
  In (n, v') (dict_set d k v) -> (n, v') = (k, v) \/ In (n, v') d.
Proof.
  induction d as [|[k0 v0] d IH]; cbn.
  - intros [H|[]]. now left.
  - destruct (String.eqb_spec k k0) as [-> | Hne]; cbn.
    + intros [H|H]; [left; now symmetry | right; now right].
    + intros [H|H]; [right; now left|]. destruct (IH H); [now left | right; now right].
Qed.

Lemma dict_keys_set_inv {V} (d : odict V) (k : string) (v : V) (n : string) :
  In n (dict_keys (dict_set d k v)) -> n = k \/ In n (dict_keys d).
Proof.
  intros H. apply in_map_iff in H as ([n0 v0] & <- & Hin).
  apply dict_set_In_inv in Hin as [E|Hin].
  - left. now injection E.
  - right. apply in_map_iff. now exists (n0, v0).
Qed.

Lemma comprehension_values {V} (P : V -> Prop)
      (cond : yang -> result bool) (value : yang -> result V) (l : list yang) :
  (forall x v, value x = Ok v -> P v) ->
  forall d t,
    (forall n v, In (n, v) d -> P v) ->
    Library.comprehension cond value l d = Ok t ->
    forall n v, In (n, v) t -> P v.
Proof.
  intros Hvalue. induction l as [|x l IH]; intros d t Hd H; cbn [Library.comprehension] in H.
  - injection H as <-. exact Hd.
  - apply bind_ok in H as (c & Hc & H). destruct c; [|now apply (IH d)].
    apply bind_ok in H as (k & Hk & H). apply bind_ok in H as (v & Hv & H).
    apply (IH _ _) with (2 := H). intros n v' Hin.
    apply dict_set_In_inv in Hin as [E|Hin]; [|now apply (Hd n)].
    injection E as _ ->. now apply (Hvalue x).
Qed.

Lemma comprehension_keys_incl {V W}
      (cond : yang -> result bool) (value : yang -> result V)
      (value' : yang -> result W) (l : list yang) :
  forall d d' t t',
    incl (dict_keys d') (dict_keys d) ->
    Library.comprehension Library.always value l d = Ok t ->
    Library.comprehension cond value' l d' = Ok t' ->
    incl (dict_keys t') (dict_keys t).
Proof.
  induction l as [|x l IH]; intros d d' t t' Hincl H H'; cbn [Library.comprehension] in H, H'.
  - injection H as <-. injection H' as <-. exact Hincl.
  - cbn in H. apply bind_ok in H as (k & Hk & H). apply bind_ok in H as (v & Hv & H).
    apply bind_ok in H' as (c & Hc & H'). destruct c.
    + apply bind_ok in H' as (k' & Hk' & H'). apply bind_ok in H' as (v' & Hv' & H').
      assert (k' = k) by congruence. subst k'.
      apply (IH _ _ _ _) with (2 := H) (3 := H'). intros n Hn.
      apply dict_keys_set_inv in Hn as [-> | Hn].
      * apply dict_keys_set_key.
      * apply dict_keys_set_incl. now apply Hincl.
    + apply (IH _ _ _ _) with (2 := H) (3 := H'). intros n Hn.
      apply dict_keys_set_incl. now apply Hincl.
Qed.

(** X23. In the library that the load of the equipment returns, every
    name of the table of the Raman fiber types is a name of the table of
    the fiber types; the first table holds Raman fiber types only and the
    second none. *)
Theorem raman_fibers_among_fibers (data sim_data : yang) (lib : Library.equipment_library) :
  load_equipment data sim_data = Ok lib ->
  exists fibers raman,
    Library.Fiber_table lib = Some fibers /\
    Library.RamanFiber_table lib = Some raman /\
    incl (dict_keys raman) (dict_keys fibers) /\
    (forall n f, In (n, f) fibers -> exists a, f = Ji.Fiber a) /\
    (forall n f, In (n, f) raman -> exists a cr fo, f = Ji.RamanFiber a cr fo).
Proof.
  intros H. unfold Library._load_equipment in H.
  apply bind_ok in H as (amps & Hamps & H). apply bind_ok in H as (amps' & Hfix & H).
  apply bind_ok in H as (fibers & Hfibers & H).
  apply bind_ok in H as (raman & Hraman & H).
  apply bind_ok in H as (span & Hspan & H). apply bind_ok in H as (roadms & Hroadms & H).
  apply bind_ok in H as (si & Hsi & H). apply bind_ok in H as (txps & Htxps & H).
  injection H as <-. cbn.
  exists fibers, raman. split; [reflexivity|]. split; [reflexivity|].
  unfold Library.table_of in Hfibers, Hraman.
  apply bind_ok in Hfibers as (l0 & Hl0 & Hfibers).
  apply bind_ok in Hfibers as (l & Hl & Hfibers).
  apply bind_ok in Hraman as (l0' & Hl0' & Hraman).
  apply bind_ok in Hraman as (l' & Hl' & Hraman).
  assert (l0' = l0) by congruence. subst l0'.
  assert (l' = l) by congruence. subst l'.
  split.
  { eapply comprehension_keys_incl; [|exact Hfibers | exact Hraman]. intros n []. }
  split.
  - apply (comprehension_values (fun f => exists a, f = Ji.Fiber a) _ _ l)
      with (3 := Hfibers); [|intros n v []].
    intros x v Hv. unfold Fiber_type._transform_fiber in Hv.
    bind_inv Hv. injection Hv as <-. eauto.
  - apply (comprehension_values (fun f => exists a cr fo, f = Ji.RamanFiber a cr fo) _ _ l)
      with (3 := Hraman); [|intros n v []].
    intros x v Hv. unfold Fiber_type._transform_raman_fiber in Hv.
    bind_inv Hv. injection Hv as <-. eauto.
Qed.

(** X24. In the library that the load of the equipment returns, the
    default Span and the default spectral information agree on the power
    mode: the power range of the one is a list of three floats when the
    power mode of the other is true, and is None when it is false. *)
Theorem power_mode_and_power_range
        (data sim_data : yang) (lib : Library.equipment_library) :
  load_equipment data sim_data = Ok lib ->
  exists span si b,
    Library.Span_table lib = Some [("default", span)] /\
    Library.SI_table lib = Some [("default", si)] /\
    getattr span "power_mode" = Ok (VBool b) /\
    if b then exists start stop step,
        getattr si "power_range_db" = Ok (VFloats [start; stop; step])
    else getattr si "power_range_db" = Ok VNone.
Proof.
  intros H. unfold Library._load_equipment in H.
  apply bind_ok in H as (amps & Hamps & H). apply bind_ok in H as (amps' & Hfix & H).
  apply bind_ok in H as (fibers & Hfibers & H).
  apply bind_ok in H as (raman & Hraman & H).
  apply bind_ok in H as (span & Hspan & H). apply bind_ok in H as (roadms & Hroadms & H).
  apply bind_ok in H as (si & Hsi & H). apply bind_ok in H as (txps & Htxps & H).
  injection H as <-. cbn [Library.Span_table Library.SI_table].
  unfold Library.load_span in Hspan.
  apply bind_ok in Hspan as (b & Hb & Hspan). bind_inv Hspan. injection Hspan as <-.
  unfold Library.load_si in Hsi.
  apply bind_ok in Hsi as (f_min & _ & Hsi). apply bind_ok in Hsi as (f_max & _ & Hsi).
  apply bind_ok in Hsi as (baud & _ & Hsi). apply bind_ok in Hsi as (spacing & _ & Hsi).
  apply bind_ok in Hsi as (power & _ & Hsi). apply bind_ok in Hsi as (range & Hrange & Hsi).
  bind_inv Hsi. injection Hsi as <-.
  eexists. eexists. exists b. split; [reflexivity|]. split; [reflexivity|].
  split; [reflexivity|].
  unfold Library.load_power_range in Hrange. rewrite Hb in Hrange. cbn [bind] in Hrange.
  destruct b.
  - apply bind_ok in Hrange as (x & _ & Hrange). apply bind_ok in Hrange as (y & _ & Hrange).
    apply bind_ok in Hrange as (sweep & _ & Hrange). destruct sweep.
    + bind_inv Hrange. injection Hrange as <-. do 3 eexists. reflexivity.
    + injection Hrange as <-. do 3 eexists. reflexivity.
  - injection Hrange as <-. reflexivity.
Qed.

(** X25. The save of a library checks the tables before anything else:
    when one of Edfa, Fiber, Span, SI, Transceiver and Roadm is missing
    it raises the configuration error that names the first that is, and
    when all are there but the Span table or the SI table has no default
    it raises one configuration error, the same for both, whose text
    names neither; the network is then as it was.  When the save returns,
    the six tables and the two defaults are there. *)
Theorem save_to_json_checks (lib : Library.equipment_library) (network : option DiGraph) :
  (forall k, first_missing lib = Some k ->
             save lib network = (network, Raise (Library.no_table k))) /\
  (first_missing lib = None -> defaults_present lib = false ->
   save lib network = (network, Raise Library.no_default)) /\
  (forall network' doc,
      save lib network = (network', Ok doc) ->
      first_missing lib = None /\ defaults_present lib = true).
Proof.
  unfold Library.save_to_json, Library.check, first_missing, defaults_present,
    required_tables.
  destruct lib as [e f rf sp r si t]. cbn [Library.Edfa_table Library.Fiber_table
    Library.RamanFiber_table Library.Span_table Library.Roadm_table Library.SI_table
    Library.Transceiver_table].
  destruct e as [e|]; cbn;
    [|split; [now intros k [= <-]|]; split; [discriminate | discriminate]].
  destruct f as [f|]; cbn;
    [|split; [now intros k [= <-]|]; split; [discriminate | discriminate]].
  destruct sp as [sp|]; cbn;
    [|split; [now intros k [= <-]|]; split; [discriminate | discriminate]].
  destruct si as [si|]; cbn;
    [|split; [now intros k [= <-]|]; split; [discriminate | discriminate]].
  destruct t as [t|]; cbn;
    [|split; [now intros k [= <-]|]; split; [discriminate | discriminate]].
  destruct r as [r|]; cbn;
    [|split; [now intros k [= <-]|]; split; [discriminate | discriminate]].
  split; [discriminate|].
  unfold Library.has_default.
  destruct (dict_has sp "default") eqn:Esp; cbn.
  - destruct (dict_has si "default") eqn:Esi; cbn.
    + split; [discriminate|]. intros _ _ _. now split.
    + split; [reflexivity | discriminate].
  - split; [reflexivity | discriminate].
Qed.

End LibraryFacts.

Lemma raman_fibers_among_fibers_witness :
  exists lib fibers raman,
    Library._load_equipment constant_estimate to_thousandths 1000 10 2 3
                            equipment_document (simulation_options power_sweep)
    = Ok lib /\
    Library.Fiber_table lib = Some fibers /\
    Library.RamanFiber_table lib = Some raman /\
    incl (dict_keys raman) (dict_keys fibers).
Proof.
  eexists.
  destruct (raman_fibers_among_fibers
              constant_estimate to_thousandths 1000 10 2 3
              equipment_document (simulation_options power_sweep) _ eq_refl)
    as (fibers & raman & Hf & Hr & Hincl & _).
  exists fibers, raman. split; [reflexivity|]. split; [exact Hf|].
  split; [exact Hr | exact Hincl].
Defined.

Lemma power_mode_and_power_range_witness :
  exists lib span si,
    Library._load_equipment constant_estimate to_thousandths 1000 10 2 3
                            equipment_document (simulation_options gain_mode)
    = Ok lib /\
    Library.Span_table lib = Some [("default", span)] /\
    Library.SI_table lib = Some [("default", si)].
Proof.
  eexists.
  destruct (power_mode_and_power_range
              constant_estimate to_thousandths 1000 10 2 3
              equipment_document (simulation_options gain_mode) _ eq_refl)
    as (span & si & b & Hspan & Hsi & _).
  exists span, si. split; [reflexivity|]. split; [exact Hspan | exact Hsi].
Defined.

Lemma save_to_json_checks_witness :
  Library.save_to_json to_thousandths 1000 10 2 3 (fun raw => Ok raw) no_roadms (Some patched)
  = (Some patched, Raise (Library.no_table "Roadm")).
Proof.
  exact (proj1 (save_to_json_checks to_thousandths 1000 10 2 3 (fun raw => Ok raw) no_roadms
                                    (Some patched))
               "Roadm" eq_refl).
Defined.

(** ** What the save of a library writes *)

Section SavedLibrary.
Variable round64 : Q -> Q.
Variables FIBER_DISPERSION FIBER_DISPERSION_SLOPE FIBER_GAMMA FIBER_PMD_COEF : Q.
Variable validated : yang -> result yang.

Local Abbreviation save :=
  (Library.save_to_json
     round64 FIBER_DISPERSION FIBER_DISPERSION_SLOPE FIBER_GAMMA FIBER_PMD_COEF validated).
Local Abbreviation raw_equipment :=
  (Library.raw_equipment
     round64 FIBER_DISPERSION FIBER_DISPERSION_SLOPE FIBER_GAMMA FIBER_PMD_COEF).
Local Abbreviation store_fiber :=
  (Library.store_fiber
     round64 FIBER_DISPERSION FIBER_DISPERSION_SLOPE FIBER_GAMMA FIBER_PMD_COEF).

Lemma save_ok lib network network' doc :
  save lib network = (network', Ok doc) ->
  exists c raw raw',
    Library.check lib = Ok c /\ raw_equipment c = Ok raw /\
    validated (YObj raw') = Ok doc /\
    forall k, k <> "ietf-network:networks" -> dict_get raw' k = dict_get raw k.
Proof.
  unfold Library.save_to_json. intros H.
  destruct (Library.check lib) as [c|e]; [|discriminate].
  destruct (raw_equipment c) as [raw|e] eqn:Er; [|discriminate].
  destruct network as [g|].
  - destruct (_store_topology (Library.for_topology c) g) as [g' r].
    injection H as _ H. apply bind_ok in H as (networks & _ & H).
    exists c, raw, (dict_set raw "ietf-network:networks" networks).
    split; [reflexivity|]. split; [exact Er|]. split; [exact H|].
    intros k Hk. now apply dict_get_set_other.
  - injection H as _ H. exists c, raw, raw.
    split; [reflexivity|]. split; [exact Er|]. split; [exact H|]. reflexivity.
Qed.

Lemma check_ok lib c :
  Library.check lib = Ok c ->
  Library.Edfa_table lib = Some (Library.edfas c) /\
  Library.Fiber_table lib = Some (Library.fibers c) /\
  Library.raman_fibers c = raman_of lib /\
  exists spans, Library.Span_table lib = Some spans /\
                dict_get spans "default" = Some (Library.span c).
Proof.
  unfold Library.check, Library.present. intros H.
  destruct (Library.Edfa_table lib) as [e|]; [|discriminate].
  destruct (Library.Fiber_table lib) as [f|]; [|discriminate].
  destruct (Library.Span_table lib) as [sp|]; [|discriminate].
  destruct (Library.SI_table lib) as [si|]; [|discriminate].
  destruct (Library.Transceiver_table lib) as [t|]; [|discriminate].
  destruct (Library.Roadm_table lib) as [r|]; [|discriminate].
  cbn [bind] in H.
  apply bind_ok in H as (u & _ & H). apply bind_ok in H as (u' & _ & H).
  apply bind_ok in H as (span & Hspan & H). apply bind_ok in H as (spectrum & _ & H).
  injection H as <-. cbn. repeat split.
  exists sp. split; [reflexivity|]. unfold dict_item in Hspan.
  destruct (dict_get sp "default"); [now injection Hspan as -> | discriminate].
Qed.

Lemma allowed_inline_filter (table : amp_table) :
  forall names,
    Library.allowed_inline table = Ok names ->
    names = map (fun kv => YStr (fst kv)) (filter design_allowed table).
Proof.
  induction table as [|[k v] table IH]; intros names H; cbn [Library.allowed_inline] in H.
  - now injection H as <-.
  - apply bind_ok in H as (a & Ha & H). apply bind_ok in H as (ks & Hks & H).
    injection H as <-. cbn [filter]. unfold design_allowed at 1. cbn [snd]. rewrite Ha.
    rewrite (IH _ Hks). now destruct (Library.truthy a).
Qed.

Lemma store_simulation_autodesign edfas span spectrum sim :
  Library.store_simulation edfas span spectrum = Ok sim ->
  exists ad pm,
    yang_member sim "autodesign" = Ok ad /\
    getattr span "power_mode" = Ok pm /\
    yang_in "power-mode" ad = Ok (Library.truthy pm) /\
    yang_in "gain-mode" ad = Ok (negb (Library.truthy pm)) /\
    yang_member ad "allowed-inline-edfa"
    = Ok (YArr (map (fun kv => YStr (fst kv)) (filter design_allowed edfas))).
Proof.
  unfold Library.store_simulation. intros H.
  do 7 (let x := fresh "x" in let Hx := fresh "Hx" in apply bind_ok in H as (x & Hx & H)).
  apply bind_ok in H as (allowed & Hallowed & H).
  do 7 (let x := fresh "x" in let Hx := fresh "Hx" in apply bind_ok in H as (x & Hx & H)).
  apply bind_ok in H as (pm & Hpm & H).
  apply bind_ok in H as (ad & Had & H). injection H as <-.
  apply allowed_inline_filter in Hallowed. subst allowed.
  exists (YObj ad), pm. split; [reflexivity|]. split; [exact Hpm|].
  destruct (Library.truthy pm).
  - bind_inv Had. injection Had as <-. repeat split.
  - injection Had as <-. repeat split.
Qed.

(** X26. In the document the save of a library hands to the schema
    library, the section of the automatic design has the member
    power-mode when the power mode of the default Span is true and the
    member gain-mode when it is not, never both; and it lists as the
    amplifiers allowed in line the names of the amplifier types whose
    design flag is true, in the order of the table. *)
Theorem saved_autodesign
        (lib : Library.equipment_library) (network network' : option DiGraph)
        (doc : yang) :
  save lib network = (network', Ok doc) ->
  exists raw sim ad edfas spans span pm,
    validated (YObj raw) = Ok doc /\
    dict_get raw "tip-photonic-simulation:simulation" = Some sim /\
    yang_member sim "autodesign" = Ok ad /\
    Library.Edfa_table lib = Some edfas /\
    Library.Span_table lib = Some spans /\
    dict_get spans "default" = Some span /\
    getattr span "power_mode" = Ok pm /\
    yang_in "power-mode" ad = Ok (Library.truthy pm) /\
    yang_in "gain-mode" ad = Ok (negb (Library.truthy pm)) /\
    yang_member ad "allowed-inline-edfa"
    = Ok (YArr (map (fun kv => YStr (fst kv)) (filter design_allowed edfas))).
Proof.
  intros H. apply save_ok in H as (c & raw & raw' & Hc & Hraw & Hdoc & Hsame).
  apply check_ok in Hc as (He & _ & _ & spans & Hsp & Hdef).
  unfold Library.raw_equipment in Hraw.
  do 5 (let x := fresh "x" in let Hx := fresh "Hx" in
        apply bind_ok in Hraw as (x & Hx & Hraw)).
  apply bind_ok in Hraw as (sim & Hsim & Hraw). injection Hraw as <-.
  apply store_simulation_autodesign in Hsim as (ad & pm & H1 & H2 & H3 & H4 & H5).
  exists raw', sim, ad, (Library.edfas c), spans, (Library.span c), pm.
  split; [exact Hdoc|]. split; [now rewrite Hsame by discriminate|].
  repeat split; assumption.
Qed.

Lemma stored_fiber_type (name : string) (f : Ji.fiber) (e : yang) :
  store_fiber name f = Ok e -> member_str e "type" = Ok name.
Proof.
  unfold Library.store_fiber, Fiber_type._store_equipment_fiber. intros H.
  do 6 (let x := fresh "x" in let Hx := fresh "Hx" in apply bind_ok in H as (x & Hx & H)).
  apply bind_ok in H as (res & Hres & H).
  assert (Htype : forall k v, k <> "type" -> dict_get (dict_set res k v) "type" = Some (YStr name)
                              /\ dict_get res "type" = Some (YStr name)).
  { intros k v Hk. rewrite dict_get_set_other by congruence.
    destruct (getattr (Ji.fiber_attrs f) "dispersion_slope") as [s|err].
    - apply bind_ok in Hres as (s' & _ & Hres). injection Hres as <-. now split.
    - destruct err; try discriminate. injection Hres as <-. now split. }
  destruct f as [attrs | attrs cr fo].
  - injection H as <-. unfold member_str, yang_member.
    now rewrite (proj2 (Htype "x" YNull ltac:(discriminate))).
  - apply bind_ok in H as (entries & _ & H). injection H as <-.
    unfold member_str, yang_member.
    now rewrite (proj1 (Htype "raman-efficiency" (YArr entries) ltac:(discriminate))).
Qed.

Lemma store_all_types {A} (f : string -> A -> result yang) (table : odict A) :
  (forall k v e, f k v = Ok e -> member_str e "type" = Ok k) ->
  forall entries,
    Library.store_all f table = Ok entries ->
    map (fun e => member_str e "type") entries = map Ok (map fst table).
Proof.
  intros Hf. unfold Library.store_all.
  induction table as [|[k v] table IH]; intros entries H; cbn [mapM] in H.
  - now injection H as <-.
  - apply bind_ok in H as (e & He & H). apply bind_ok in H as (es & Hes & H).
    injection H as <-. cbn. rewrite (Hf _ _ _ He). now rewrite (IH _ Hes).
Qed.

Lemma filter_keys_nodup {A} (p : string * A -> bool) (l : odict A) :
  NoDup (dict_keys l) -> NoDup (dict_keys (filter p l)).
Proof.
  unfold dict_keys. induction l as [|[k v] l IH]; cbn; intros H; [constructor|].
  inversion H as [|? ? Hout Hnd]; subst.
  destruct (p (k, v)); cbn; [|now apply IH].
  constructor; [|now apply IH].
  intros Hin. apply Hout. apply in_map_iff in Hin as (kv & <- & Hin).
  apply filter_In in Hin as [Hin _]. now apply in_map.
Qed.

Lemma nodup_append (l l' : list string) :
  NoDup l -> NoDup l' -> (forall a, In a l -> ~ In a l') -> NoDup (l ++ l').
Proof.
  induction l as [|a l IH]; cbn; intros Hl Hl' Hd; [assumption|].
  inversion Hl as [|? ? Hout Hnd]; subst. constructor.
  - intros Hin. apply in_app_or in Hin as [Hin|Hin]; [contradiction|].
    apply (Hd a); [now left | assumption].
  - apply IH; try assumption. intros b Hb. apply Hd. now right.
Qed.

(** X27. The fiber list of the document the save hands to the schema
    library has, in this order, an entry for each fiber type whose name
    is not in the table of the Raman fiber types and an entry for each
    Raman fiber type, under the names of the tables; when the names of
    each table are distinct no name is written twice. *)
Theorem saved_fiber_names
        (lib : Library.equipment_library) (network network' : option DiGraph)
        (doc : yang) :
  save lib network = (network', Ok doc) ->
  exists raw fibers entries,
    validated (YObj raw) = Ok doc /\
    Library.Fiber_table lib = Some fibers /\
    dict_get raw "tip-photonic-equipment:fiber" = Some (YArr entries) /\
    map (fun e => member_str e "type") entries
    = map Ok (stored_fiber_names fibers (raman_of lib)) /\
    (NoDup (dict_keys fibers) -> NoDup (dict_keys (raman_of lib)) ->
     NoDup (stored_fiber_names fibers (raman_of lib))).
Proof.
  intros H. apply save_ok in H as (c & raw & raw' & Hc & Hraw & Hdoc & Hsame).
  apply check_ok in Hc as (_ & Hf & Hr & _).
  unfold Library.raw_equipment in Hraw.
  apply bind_ok in Hraw as (amps & _ & Hraw).
  apply bind_ok in Hraw as (plain_fibers & Hplain & Hraw).
  apply bind_ok in Hraw as (with_raman & Hwith & Hraw).
  do 3 (let x := fresh "x" in let Hx := fresh "Hx" in
        apply bind_ok in Hraw as (x & Hx & Hraw)).
  injection Hraw as <-.
  exists raw', (Library.fibers c), (plain_fibers ++ with_raman).
  split; [exact Hdoc|]. split; [exact Hf|].
  split; [now rewrite Hsame by discriminate|].
  rewrite <- Hr. unfold stored_fiber_names. split.
  - rewrite !map_app.
    rewrite (store_all_types _ _ stored_fiber_type _ Hplain).
    now rewrite (store_all_types _ _ stored_fiber_type _ Hwith).
  - intros Hnd Hnd'. apply nodup_append.
    + now apply (filter_keys_nodup _ (Library.fibers c)).
    + exact Hnd'.
    + intros a Hin Hin'. apply in_map_iff in Hin as ([k v] & <- & Hin).
      apply filter_In in Hin as [_ Hin]. cbn in Hin, Hin'.
      apply negb_true_iff in Hin. unfold dict_has in Hin.
      destruct (dict_get (Library.raman_fibers c) k) eqn:E; [discriminate|].
      apply dict_get_None in E. contradiction.
Qed.

End SavedLibrary.

Lemma saved_autodesign_witness :
  exists lib doc sim ad,
    Library._load_equipment constant_estimate to_thousandths 1000 10 2 3
                            equipment_document (simulation_options gain_mode)
    = Ok lib /\
    Library.save_to_json to_thousandths 1000 10 2 3 (fun raw => Ok raw) lib None = (None, Ok doc) /\
    yang_member doc "tip-photonic-simulation:simulation" = Ok sim /\
    yang_member sim "autodesign" = Ok ad /\
    yang_in "gain-mode" ad = Ok true /\
    yang_in "power-mode" ad = Ok false.
Proof.
  eexists. eexists.
  match goal with
  | |- exists sim ad, ?A /\ _ => assert (Hlib : A) by (vm_compute; reflexivity)
  end.
  match goal with
  | |- exists sim ad, _ /\ ?B /\ _ => assert (Hsave : B) by (vm_compute; reflexivity)
  end.
  destruct (saved_autodesign to_thousandths 1000 10 2 3 (fun raw => Ok raw) _ None None _ Hsave)
    as (raw & sim & ad & edfas & spans & span & pm & Hdoc & Hsim & Had & He & Hsp
        & Hdef & Hpm & Hp & Hg & _).
  exists sim, ad. split; [exact Hlib|]. split; [exact Hsave|].
  injection Hdoc as Hdoc. cbn in Hsp. injection Hsp as <-.
  cbn in Hdef. injection Hdef as <-. cbn in Hpm. injection Hpm as <-.
  split; [rewrite <- Hdoc; cbn; now rewrite Hsim|].
  split; [exact Had|]. split; [exact Hg | exact Hp].
Defined.

Lemma saved_fiber_names_witness :
  exists lib doc entries,
    Library._load_equipment constant_estimate to_thousandths 1000 10 2 3
                            equipment_document (simulation_options power_sweep)
    = Ok lib /\
    Library.save_to_json to_thousandths 1000 10 2 3 (fun raw => Ok raw) lib None = (None, Ok doc) /\
    yang_member doc "tip-photonic-equipment:fiber" = Ok (YArr entries) /\
    map (fun e => member_str e "type") entries = [Ok "NZDF"; Ok "SSMF"].
Proof.
  eexists. eexists.
  match goal with
  | |- exists entries, ?A /\ _ => assert (Hlib : A) by (vm_compute; reflexivity)
  end.
  match goal with
  | |- exists entries, _ /\ ?B /\ _ => assert (Hsave : B) by (vm_compute; reflexivity)
  end.
  destruct (saved_fiber_names to_thousandths 1000 10 2 3 (fun raw => Ok raw) _ None None _ Hsave)
    as (raw & fibers & entries & Hdoc & Hf & Hraw & Hnames & _).
  exists entries. split; [exact Hlib|]. split; [exact Hsave|].
  injection Hdoc as Hdoc. cbn in Hf. injection Hf as <-.
  split; [rewrite <- Hdoc; cbn; now rewrite Hraw | exact Hnames].
Defined.

(** ** The simulation options, saved and loaded *)

Section SimulationRoundTrip.

(** X28. The default Span and the default spectral information that the
    load built from a simulation section are written back by the save as
    a section from which the load builds the same Span and a spectral
    information with the same power range and the same values of its
    floats. *)
Theorem simulation_round_trip
        (sim_data : yang) (span si : pyobj) (edfas : amp_table) (names : list yang) :
  Library.load_span sim_data = Ok span ->
  Library.load_si sim_data = Ok si ->
  Library.allowed_inline edfas = Ok names ->
  exists sim' si',
    Library.store_simulation edfas span si = Ok sim' /\
    Library.load_span sim' = Ok span /\
    Library.load_si sim' = Ok si' /\
    dict_keys si' = dict_keys si /\
    getattr si' "power_range_db" = getattr si "power_range_db" /\
    Forall (fun k => same_float k si si') si_floats.
Proof.
  intros Hspan Hsi Hnames.
  unfold Library.load_span in Hspan.
  apply bind_ok in Hspan as (b & Hb & Hspan). bind_inv Hspan. injection Hspan as <-.
  unfold Library.load_si in Hsi.
  apply bind_ok in Hsi as (f_min & _ & Hsi). apply bind_ok in Hsi as (f_max & _ & Hsi).
  apply bind_ok in Hsi as (baud & _ & Hsi). apply bind_ok in Hsi as (spacing & _ & Hsi).
  apply bind_ok in Hsi as (power & _ & Hsi). apply bind_ok in Hsi as (range & Hrange & Hsi).
  apply bind_ok in Hsi as (roll & _ & Hsi). apply bind_ok in Hsi as (margin & _ & Hsi).
  apply bind_ok in Hsi as (tx & _ & Hsi). injection Hsi as <-.
  assert (Hfloats :
            forall r (si' : pyobj),
              si' = Library.SI
                      [("f_min", VFloat (f_min * THZ / THZ * THZ));
                       ("f_max", VFloat (f_max * THZ / THZ * THZ));
                       ("baud_rate", VFloat (baud * GIGA / GIGA * GIGA));
                       ("spacing", VFloat (spacing * GIGA / GIGA * GIGA));
                       ("power_dbm", VFloat power);
                       ("power_range_db", r);
                       ("roll_off", VFloat roll);
                       ("sys_margins", VFloat margin);
                       ("tx_osnr", VFloat tx)] ->
              Forall (fun k => same_float k
                                 (Library.SI
                                    [("f_min", VFloat (f_min * THZ));
                                     ("f_max", VFloat (f_max * THZ));
                                     ("baud_rate", VFloat (baud * GIGA));
                                     ("spacing", VFloat (spacing * GIGA));
                                     ("power_dbm", VFloat power);
                                     ("power_range_db", range);
                                     ("roll_off", VFloat roll);
                                     ("sys_margins", VFloat margin);
                                     ("tx_osnr", VFloat tx)]) si') si_floats).
  { intros r si' ->. unfold si_floats, same_float, float_at.
    repeat constructor; cbn; eexists; eexists;
      (split; [reflexivity|]); (split; [reflexivity|]);
      try reflexivity; unfold THZ, GIGA; field. }
  unfold Library.load_power_range in Hrange. rewrite Hb in Hrange. cbn [bind] in Hrange.
  unfold Library.store_simulation. cbn. rewrite Hnames. cbn.
  destruct b; cbn.
  - apply bind_ok in Hrange as (x & _ & Hrange). apply bind_ok in Hrange as (y & _ & Hrange).
    apply bind_ok in Hrange as (sweep & _ & Hrange).
    destruct sweep.
    + bind_inv Hrange. injection Hrange as <-. cbn.
      eexists. eexists. split; [reflexivity|]. split; [reflexivity|].
      split; [reflexivity|]. split; [reflexivity|]. split; [reflexivity|].
      eapply Hfloats. reflexivity.
    + injection Hrange as <-. cbn.
      eexists. eexists. split; [reflexivity|]. split; [reflexivity|].
      split; [reflexivity|]. split; [reflexivity|]. split; [reflexivity|].
      eapply Hfloats. reflexivity.
  - injection Hrange as <-. cbn.
    eexists. eexists. split; [reflexivity|]. split; [reflexivity|].
    split; [reflexivity|]. split; [reflexivity|]. split; [reflexivity|].
    eapply Hfloats. reflexivity.
Qed.

End SimulationRoundTrip.

Lemma simulation_round_trip_witness :
  exists span si sim' si',
    Library.load_span (simulation_options power_sweep) = Ok span /\
    Library.load_si (simulation_options power_sweep) = Ok si /\
    Library.store_simulation [("high_detail", manual_amp)] span si = Ok sim' /\
    Library.load_span sim' = Ok span /\
    Library.load_si sim' = Ok si' /\
    getattr si' "power_range_db" = getattr si "power_range_db".
Proof.
  eexists. eexists.
  destruct (simulation_round_trip (simulation_options power_sweep) _ _
                                  [("high_detail", manual_amp)] _
                                  eq_refl eq_refl eq_refl)
    as (sim' & si' & Hs & Hspan & Hsi & _ & Hr & _).
  exists sim', si'. split; [reflexivity|]. split; [reflexivity|].
  split; [exact Hs|]. split; [exact Hspan|]. split; [exact Hsi | exact Hr].
Defined.

(** ** Networks that are not photonic topologies *)

Section SkippedNetworks.
Variable default_location : result Location.

Lemma load_net_skipped equipment net st :
  skipped net = true -> load_net default_location equipment net st = Ok st.
Proof.
  unfold skipped, photonic, load_net. intros H.
  destruct (yang_in "network-types" net) as [[|]|e]; cbn in *; try discriminate.
  - destruct (yang_member net "network-types") as [types|e]; cbn in *;
      [|discriminate].
    destruct (yang_in "tip-photonic-topology:photonic-topology" types) as [[|]|e];
      cbn in *; try discriminate. reflexivity.
  - reflexivity.
Qed.

Lemma load_nets_skipped equipment nets :
  forall st,
    load_nets default_location equipment nets st
    = load_nets default_location equipment
                (filter (fun net => negb (skipped net)) nets) st.
Proof.
  induction nets as [|net nets IH]; intros st; [reflexivity|].
  cbn [load_nets filter]. destruct (skipped net) eqn:E; cbn [negb load_nets].
  - rewrite (load_net_skipped _ _ _ E). cbn [bind]. apply IH.
  - destruct (load_net default_location equipment net st); cbn [bind];
      [apply IH | reflexivity].
Qed.

(** X29. The networks of a document that have no network types, or
    whose network types do not include the photonic topology, add
    nothing to what the load of the network gives: without them the
    load returns the same graph, or raises the same error. *)
Theorem load_network_skips (equipment : equipment) (nets : list yang) :
  _load_network default_location (networks_document nets) equipment
  = _load_network default_location
                  (networks_document (filter (fun net => negb (skipped net)) nets))
                  equipment.
Proof.
  unfold _load_network, networks_document. cbn.
  now rewrite load_nets_skipped.
Qed.

End SkippedNetworks.

(** ** The document of a topology *)

Section TopologyDocument.

Lemma store_node_entry_name equipment network i n n' out :
  store_node equipment network i n = (n', Ok out) ->
  match out with
  | ToNodes entry => is_Fiber n = false /\ member_str entry "node-id" = Ok (uid n)
  | ToLinks entry => is_Fiber n = true /\ member_str entry "link-id" = Ok (uid n)
  end.
Proof.
  intros H.
  destruct n as [u tv md | u tv ps md op | u tv ps md | u loss | u tv ps md | u];
    cbn [store_node] in H.
  - destruct tv.
    + injection H as _ <-. now split.
    + destruct (txps <- dict_item equipment "Transceiver" ;; next (dict_keys txps));
        [|discriminate].
      injection H as _ <-. now split.
  - injection H as _ H. bind_inv H. injection H as <-. now split.
  - destruct tv; [|discriminate]. injection H as _ <-. now split.
  - injection H as _ <-. now split.
  - injection H as _ H. bind_inv H. injection H as <-. split; [reflexivity|].
    now apply json_yang_link_ends.
  - discriminate.
Qed.

Lemma store_nodes_names equipment network todo :
  forall i nodes links todo' nodes' links',
    store_nodes equipment network i todo nodes links = (todo', Ok (nodes', links')) ->
    exists ns ls,
      nodes' = nodes ++ ns /\ links' = links ++ ls /\
      names_under "node-id" ns = map (fun n => Ok (uid n)) (filter not_Fiber todo) /\
      names_under "link-id" ls = map (fun n => Ok (uid n)) (filter is_Fiber todo).
Proof.
  induction todo as [|n todo IH]; intros i nodes links todo' nodes' links' H;
    cbn [store_nodes] in H.
  - injection H as _ <- <-. exists [], []. now rewrite !app_nil_r.
  - destruct (store_node equipment network i n) as [n' [out|e]] eqn:En;
      [|discriminate].
    apply store_node_entry_name in En. destruct out as [entry|entry];
      destruct En as [Hf Hname].
    + destruct (store_nodes equipment network (S i) todo (nodes ++ [entry]) links)
        as [rest' r'] eqn:Er.
      injection H as _ ->. apply IH in Er as (ns & ls & -> & -> & Hns & Hls).
      exists (entry :: ns), ls. rewrite <- app_assoc.
      split; [reflexivity|]. split; [reflexivity|].
      unfold not_Fiber at 1. cbn [filter]. rewrite Hf. cbn [negb map names_under].
      rewrite Hname. split; [f_equal; exact Hns | exact Hls].
    + destruct (store_nodes equipment network (S i) todo nodes (links ++ [entry]))
        as [rest' r'] eqn:Er.
      injection H as _ ->. apply IH in Er as (ns & ls & -> & -> & Hns & Hls).
      exists ns, (entry :: ls). rewrite <- app_assoc.
      split; [reflexivity|]. split; [reflexivity|].
      unfold not_Fiber at 1. cbn [filter]. rewrite Hf. cbn [negb map names_under].
      rewrite Hname. split; [exact Hns | f_equal; exact Hls].
Qed.

Lemma store_edges_patches network es :
  forall links links',
    store_edges network es links = Ok links' ->
    exists ps,
      links' = links ++ ps /\
      Forall (fun l => yang_in "tip-photonic-topology:patch" l = Ok true) ps.
Proof.
  induction es as [|[u v] es IH]; intros links links' H; cbn [store_edges] in H.
  - injection H as <-. exists []. now rewrite app_nil_r.
  - apply bind_ok in H as (a & Ha & H). apply bind_ok in H as (b & Hb & H).
    destruct (is_Fiber a); destruct (is_Fiber b); try discriminate;
      try now apply IH.
    apply IH in H as (ps & -> & Hps). exists (patch_link a b :: ps).
    rewrite <- app_assoc. split; [reflexivity|]. constructor; [|exact Hps].
    now apply json_yang_link_ends.
Qed.

(** X30. When the store of a topology returns, the document has one
    network, a photonic topology, whose node entries are the nodes of
    the graph that are not Fibers, in the order of the graph and under
    their names, and whose link entries are first one link for each
    Fiber, in that order and under its name, and then patch links
    only. *)
Theorem store_topology_document
        (equipment : equipment) (network network' : DiGraph) (doc : yang) :
  _store_topology equipment network = (network', Ok doc) ->
  exists nodes fiber_links patch_links,
    doc = topology_document nodes (fiber_links ++ patch_links) /\
    names_under "node-id" nodes
    = map (fun n => Ok (uid n)) (filter not_Fiber (g_nodes network)) /\
    names_under "link-id" fiber_links
    = map (fun n => Ok (uid n)) (filter is_Fiber (g_nodes network)) /\
    Forall (fun l => yang_in "tip-photonic-topology:patch" l = Ok true) patch_links.
Proof.
  intros H. unfold _store_topology in H.
  destruct (store_nodes equipment network 0 (g_nodes network) [] []) as [ns r] eqn:E.
  injection H as _ H. apply bind_ok in H as ([nodes links] & -> & H).
  apply bind_ok in H as (links' & Hedges & H). injection H as <-.
  apply store_nodes_names in E as (nodes0 & ls & -> & -> & Hns & Hls).
  apply store_edges_patches in Hedges as (ps & -> & Hps).
  exists nodes0, ls, ps. cbn [app]. repeat split; assumption.
Qed.

Lemma store_topology_document_witness :
  exists doc nodes fiber_links patch_links,
    _store_topology library patched = (patched, Ok doc) /\
    doc = topology_document nodes (fiber_links ++ patch_links) /\
    names_under "node-id" nodes = [Ok "T"; Ok "X"; Ok "Y"] /\
    names_under "link-id" fiber_links = [Ok "F"].
Proof.
  eexists.
  destruct (store_topology_document library patched patched _ eq_refl)
    as (nodes & fiber_links & patch_links & Hdoc & Hn & Hl & _).
  exists nodes, fiber_links, patch_links.
  split; [reflexivity|]. split; [exact Hdoc|]. split; [exact Hn | exact Hl].
Defined.

End TopologyDocument.

(** ** The graph after a save *)

Section SavedGraph.
Variable round64 : Q -> Q.
Variables FIBER_DISPERSION FIBER_DISPERSION_SLOPE FIBER_GAMMA FIBER_PMD_COEF : Q.
Variable validated : yang -> result yang.

Local Abbreviation save :=
  (Library.save_to_json
     round64 FIBER_DISPERSION FIBER_DISPERSION_SLOPE FIBER_GAMMA FIBER_PMD_COEF validated).

Lemma check_transceivers lib c :
  Library.check lib = Ok c ->
  Library.Transceiver_table lib = Some (Library.transceivers c).
Proof.
  unfold Library.check, Library.present. intros H.
  destruct (Library.Edfa_table lib) as [e|]; [|discriminate].
  destruct (Library.Fiber_table lib) as [f|]; [|discriminate].
  destruct (Library.Span_table lib) as [sp|]; [|discriminate].
  destruct (Library.SI_table lib) as [si|]; [|discriminate].
  destruct (Library.Transceiver_table lib) as [t|]; [|discriminate].
  destruct (Library.Roadm_table lib) as [r|]; [|discriminate].
  cbn [bind] in H.
  apply bind_ok in H as (u & _ & H). apply bind_ok in H as (u' & _ & H).
  apply bind_ok in H as (span & _ & H). apply bind_ok in H as (spectrum & _ & H).
  now injection H as <-.
Qed.

(** The node entries the pass over the nodes has written are in the
    list it returns. *)
Lemma store_nodes_emitted equipment network todo :
  forall i nodes links todo' nodes' links',
    store_nodes equipment network i todo nodes links = (todo', Ok (nodes', links')) ->
    (forall x, In x nodes -> In x nodes') /\
    (forall k n n' entry,
        nth_error todo k = Some n ->
        store_node equipment network (i + k) n = (n', Ok (ToNodes entry)) ->
        In entry nodes').
Proof.
  induction todo as [|n0 todo IH]; intros i nodes links todo' nodes' links' H;
    cbn [store_nodes] in H.
  - injection H as _ <- <-. split; [auto|]. intros [|k]; discriminate.
  - destruct (store_node equipment network i n0) as [n0' [out|e]] eqn:En;
      [|discriminate].
    destruct out as [y|y].
    + destruct (store_nodes equipment network (S i) todo (nodes ++ [y]) links)
        as [rest' r'] eqn:Er.
      injection H as _ ->. destruct (IH _ _ _ _ _ _ Er) as [Hin Hk].
      split.
      * intros x Hx. apply Hin, in_or_app. now left.
      * intros [|k] n n' entry Hn Hs; cbn [nth_error] in Hn.
        -- injection Hn as <-. rewrite Nat.add_0_r, En in Hs. injection Hs as _ <-.
           apply Hin, in_or_app. right. now left.
        -- apply (Hk k n n'); [exact Hn|].
           now replace (S i + k)%nat with (i + S k)%nat by lia.
    + destruct (store_nodes equipment network (S i) todo nodes (links ++ [y]))
        as [rest' r'] eqn:Er.
      injection H as _ ->. destruct (IH _ _ _ _ _ _ Er) as [Hin Hk].
      split; [exact Hin|].
      intros [|k] n n' entry Hn Hs; cbn [nth_error] in Hn.
      * injection Hn as <-. rewrite Nat.add_0_r, En in Hs. discriminate Hs.
      * apply (Hk k n n'); [exact Hn|].
        now replace (S i + k)%nat with (i + S k)%nat by lia.
Qed.

(** C10. When the library has a Transceiver table with a first key and
    the save of a library and a graph returns, the graph it leaves to
    its caller is the graph it was given with every Transceiver node
    that had no type_variety now carrying that first key; the edges are
    untouched.  The document the save hands to the schema library has
    the node entry of such a node, with that key as its model. *)
Theorem save_to_json_sets_transceiver_type
        (lib : Library.equipment_library) (g : DiGraph) (net' : option DiGraph)
        (doc : yang) (txps : odict Ji.Transceiver) (first : string) (rest : list string) :
  Library.Transceiver_table lib = Some txps ->
  dict_keys txps = first :: rest ->
  save lib (Some g) = (net', Ok doc) ->
  exists g' raw nodes links,
    net' = Some g' /\
    g_nodes g' = map (with_default_type first) (g_nodes g) /\
    g_edges g' = g_edges g /\
    validated (YObj raw) = Ok doc /\
    dict_get raw "ietf-network:networks" = Some (topology_document nodes links) /\
    (forall i u md,
        nth_error (g_nodes g) i = Some (Transceiver u None md) ->
        nth_error (g_nodes g') i = Some (Transceiver u (Some first) md) /\
        In (YObj [("node-id", YStr u);
                  ("tip-photonic-topology:transceiver", YObj [("model", YStr first)])])
           nodes).
Proof.
  intros Ht Hk H. unfold Library.save_to_json in H.
  destruct (Library.check lib) as [c|e] eqn:Ec; [|discriminate].
  destruct (Library.raw_equipment _ _ _ _ _ c) as [raw|e]; [|discriminate].
  apply check_transceivers in Ec. rewrite Ht in Ec. injection Ec as Ec.
  assert (Hfor : dict_get (Library.for_topology c) "Transceiver"
                 = Some (map (fun kv => (fst kv, [])) txps))
    by (rewrite Ec; reflexivity).
  assert (Hkeys : dict_keys (map (fun kv : string * Ji.Transceiver => (fst kv, @nil (string * pyval))) txps)
                  = first :: rest).
  { rewrite <- Hk. unfold dict_keys. rewrite map_map. reflexivity. }
  destruct (_store_topology (Library.for_topology c) g) as [g' r] eqn:Es.
  injection H as <- H. apply bind_ok in H as (networks & -> & H).
  destruct (store_topology_sets_transceiver_type _ _ _ _ _ _ _ Hfor Hkeys Es)
    as (Hn & He & Hnode).
  unfold _store_topology in Es.
  destruct (store_nodes (Library.for_topology c) g 0 (g_nodes g) [] []) as [ns r] eqn:En.
  injection Es as _ Es. apply bind_ok in Es as ([nodes links] & -> & Es).
  apply bind_ok in Es as (links' & _ & Es). injection Es as <-.
  exists g', (dict_set raw "ietf-network:networks" (topology_document nodes links')),
         nodes, links'.
  split; [reflexivity|]. split; [exact Hn|]. split; [exact He|]. split; [exact H|].
  split; [apply dict_get_set_same|].
  intros i u md Hi. destruct (Hnode i u md Hi) as [Hi' Hs]. split; [exact Hi'|].
  apply (proj2 (store_nodes_emitted _ _ _ _ _ _ _ _ _ En) i _ _ _ Hi Hs).
Qed.

End SavedGraph.

Lemma save_to_json_sets_transceiver_type_witness :
  exists lib g' doc,
    Library._load_equipment constant_estimate to_thousandths 1000 10 2 3
                            equipment_document (simulation_options gain_mode)
    = Ok lib /\
    Library.save_to_json to_thousandths 1000 10 2 3 (fun raw => Ok raw) lib
                         (Some untyped_transceiver)
    = (Some g', Ok doc) /\
    map uid (g_nodes g') = ["T"; "X"] /\
    map type_variety (g_nodes g') = [Some "vendorA_trx-type1"; Some "roadm"] /\
    map type_variety (g_nodes untyped_transceiver) = [None; Some "roadm"].
Proof.
  eexists.
  match goal with
  | |- exists g' doc, ?A /\ _ => assert (Hlib : A) by (vm_compute; reflexivity)
  end.
  do 2 eexists. split; [exact Hlib|].
  match goal with
  | |- ?B /\ _ => assert (Hsave : B) by (vm_compute; reflexivity)
  end.
  split; [exact Hsave|].
  match type of Hlib with
  | _ = Ok ?lib =>
      destruct (save_to_json_sets_transceiver_type
                  to_thousandths 1000 10 2 3 (fun raw => Ok raw) lib untyped_transceiver _ _
                  _ "vendorA_trx-type1" [] eq_refl eq_refl Hsave)
        as (g' & raw & nodes & links & Hg & Hn & _)
  end.
  injection Hg as <-. rewrite Hn. repeat split.
Defined.

(** ** The pass over the edges *)

Section EdgePass.

Lemma store_node_storable equipment network i n :
  storable equipment network i n = true ->
  exists n' out, store_node equipment network i n = (n', Ok out).
Proof.
  intros H.
  destruct n as [u [tv|] md | u [tv|] ps md op | u [tv|] ps md | u loss | u [tv|] ps md | u];
    cbn [storable is_some andb] in H; try discriminate; cbn [store_node].
  - eauto.
  - unfold dict_item. destruct (dict_get equipment "Transceiver") as [[|[k v] txps]|];
      try discriminate. cbn. eauto.
  - cbn. eauto.
  - eauto.
  - eauto.
  - destruct (predecessors network i) as [|p ps']; [discriminate|].
    destruct (successors network i) as [|s ss']; [discriminate|].
    apply andb_prop in H as [Hp Hs].
    apply Nat.ltb_lt in Hp. apply Nat.ltb_lt in Hs.
    unfold node_at. cbn [next bind].
    destruct (nth_error (g_nodes network) p) as [a|] eqn:Ea;
      [|apply nth_error_None in Ea; lia].
    destruct (nth_error (g_nodes network) s) as [b|] eqn:Eb;
      [|apply nth_error_None in Eb; lia].
    cbn. eauto.
Qed.

(** The pass over storable nodes returns. *)
Lemma store_nodes_storable equipment network todo :
  forall i nodes links,
    storable_from equipment network i todo = true ->
    exists todo' nodes' links',
      store_nodes equipment network i todo nodes links = (todo', Ok (nodes', links')).
Proof.
  induction todo as [|n todo IH]; intros i nodes links H.
  - cbn. eauto.
  - unfold storable_from in H. cbn [length seq combine forallb fst snd] in H.
    apply andb_prop in H as [Hn H].
    destruct (store_node_storable _ _ _ _ Hn) as (n' & out & En).
    cbn [store_nodes]. rewrite En. destruct out as [entry|entry].
    + destruct (IH (S i) (nodes ++ [entry]) links H) as (t' & ns' & ls' & E).
      rewrite E. eauto.
    + destruct (IH (S i) nodes (links ++ [entry]) H) as (t' & ns' & ls' & E).
      rewrite E. eauto.
Qed.

Lemma typed_by_same equipment a a' b b' :
  typed_by equipment a a' -> typed_by equipment b b' ->
  is_Fiber a' = is_Fiber a /\ is_Fiber b' = is_Fiber b /\
  patch_link a' b' = patch_link a b /\ fiber_to_fiber a' b' = fiber_to_fiber a b.
Proof.
  intros [->|(u & md & t & txps & rest & -> & -> & _)]
         [->|(u' & md' & t' & txps' & rest' & -> & -> & _)];
    repeat split; reflexivity.
Qed.

Lemma node_at_typed equipment ns ns' E E' u :
  Forall2 (typed_by equipment) ns ns' ->
  match node_at {| g_nodes := ns; g_edges := E |} u,
        node_at {| g_nodes := ns'; g_edges := E' |} u with
  | Ok a, Ok a' => typed_by equipment a a'
  | Raise e, Raise e' => e = e'
  | _, _ => False
  end.
Proof.
  intros H. unfold node_at. cbn [g_nodes]. revert u.
  induction H as [|a a' l l' Ha _ IH]; intros [|u]; cbn [nth_error]; auto.
  apply IH.
Qed.

(** The types the pass over the nodes fills in make no difference to
    the pass over the edges. *)
Lemma store_edges_typed equipment ns ns' E es :
  Forall2 (typed_by equipment) ns ns' ->
  forall links,
    store_edges {| g_nodes := ns'; g_edges := E |} es links
    = store_edges {| g_nodes := ns; g_edges := E |} es links.
Proof.
  intros H. induction es as [|[u v] es IH]; intros links; [reflexivity|].
  cbn [store_edges].
  pose proof (node_at_typed equipment ns ns' E E u H) as Hu.
  pose proof (node_at_typed equipment ns ns' E E v H) as Hv.
  destruct (node_at {| g_nodes := ns; g_edges := E |} u) as [a|e],
           (node_at {| g_nodes := ns'; g_edges := E |} u) as [a'|e'];
    try contradiction; [|now subst]. cbn [bind].
  destruct (node_at {| g_nodes := ns; g_edges := E |} v) as [b|e],
           (node_at {| g_nodes := ns'; g_edges := E |} v) as [b'|e'];
    try contradiction; [|now subst]. cbn [bind].
  destruct (typed_by_same equipment a a' b b' Hu Hv) as (-> & -> & -> & ->).
  now rewrite !IH.
Qed.

Lemma edges_typed equipment ns ns' E :
  Forall2 (typed_by equipment) ns ns' ->
  edges {| g_nodes := ns'; g_edges := E |} = edges {| g_nodes := ns; g_edges := E |}.
Proof. intros H. unfold edges. cbn [g_nodes]. now rewrite (Forall2_length H). Qed.

(** What the pass over the edges has done when it returns. *)
Lemma store_edges_returned network es :
  forall links links',
    store_edges network es links = Ok links' ->
    exists pairs,
      mapM (edge_ends network) es = Ok pairs /\
      forallb (fun ab => negb (fiber_pair ab)) pairs = true /\
      links' = links ++ map (fun ab => patch_link (fst ab) (snd ab))
                            (filter patch_pair pairs).
Proof.
  induction es as [|[u v] es IH]; intros links links' H; cbn [store_edges] in H.
  - injection H as <-. exists []. cbn. now rewrite app_nil_r.
  - apply bind_ok in H as (a & Ha & H). apply bind_ok in H as (b & Hb & H).
    cbn [mapM]. unfold edge_ends at 1. cbn [fst snd]. rewrite Ha, Hb. cbn [bind].
    destruct (is_Fiber a) eqn:Efa; destruct (is_Fiber b) eqn:Efb; try discriminate;
      apply IH in H as (pairs & -> & Hall & ->); exists ((a, b) :: pairs);
      (split; [reflexivity|]);
      assert (Hf : fiber_pair (a, b) = false)
        by (unfold fiber_pair; cbn [fst snd]; now rewrite Efa, Efb);
      assert (Hp : patch_pair (a, b) = negb (is_Fiber a) && negb (is_Fiber b))
        by reflexivity;
      rewrite Efa, Efb in Hp; cbn [forallb filter]; rewrite Hf, Hp;
      cbn [negb andb map fst snd]; (split; [exact Hall|]); try reflexivity.
    now rewrite <- app_assoc.
Qed.

Lemma patch_link_ends a b :
  Loader.link_ends (patch_link a b) = Ok (uid a, uid b) /\
  yang_in "tip-photonic-topology:patch" (patch_link a b) = Ok true.
Proof.
  unfold patch_link.
  destruct (json_yang_link_ends
              ("patch{" ++ uid a ++ ", " ++ uid b ++ "}") (uid a) (uid b)
              "tip-photonic-topology:patch"
              (YObj match a with
                    | Roadm _ _ p _ =>
                        [("roadm-target-egress-per-channel-power",
                          py_str match dict_get (per_degree_pch_out_db p) (uid b) with
                                 | Some v => v
                                 | None => target_pch_out_db p
                                 end)]
                    | _ => []
                    end)) as (H1 & _ & H3); try discriminate.
  split; assumption.
Qed.

(** C9 (amended). The store of a topology, once its pass over the nodes
    is through.  The first edge of the graph that joins two Fiber nodes
    makes it raise a NetworkTopologyError whose message names the two
    identifiers.  With no such edge it returns; and whenever it returns,
    no edge joins two Fibers and the links of the document are the link
    entries of the Fibers, one for each, followed by one patch link for
    each edge neither end of which is a Fiber, in the order of the
    edges, from the source's identifier to the target's.  An edge with
    one Fiber end gets no entry. *)
Theorem store_topology_edges (equipment : equipment) (network : DiGraph) :
  (forall pre a b post,
      storable_nodes equipment network = true ->
      mapM (edge_ends network) (edges network) = Ok (pre ++ (a, b) :: post) ->
      forallb (fun ab => negb (fiber_pair ab)) pre = true ->
      is_Fiber a = true -> is_Fiber b = true ->
      snd (_store_topology equipment network)
      = Raise (NetworkTopologyError
                 ("Fiber connected to a Fiber: " ++ uid a ++ ", " ++ uid b))) /\
  (forall pairs,
      storable_nodes equipment network = true ->
      mapM (edge_ends network) (edges network) = Ok pairs ->
      forallb (fun ab => negb (fiber_pair ab)) pairs = true ->
      exists doc, snd (_store_topology equipment network) = Ok doc) /\
  (forall network' doc,
      _store_topology equipment network = (network', Ok doc) ->
      exists pairs nodes fiber_links,
        mapM (edge_ends network) (edges network) = Ok pairs /\
        forallb (fun ab => negb (fiber_pair ab)) pairs = true /\
        length fiber_links = count_fibers (g_nodes network) /\
        doc = topology_document nodes
                (fiber_links ++ map (fun ab => patch_link (fst ab) (snd ab))
                                    (filter patch_pair pairs))) /\
  (forall a b,
      Loader.link_ends (patch_link a b) = Ok (uid a, uid b) /\
      yang_in "tip-photonic-topology:patch" (patch_link a b) = Ok true).
Proof.
  assert (Hsame : forall ns r,
             store_nodes equipment network 0 (g_nodes network) [] [] = (ns, r) ->
             forall links,
               store_edges {| g_nodes := ns; g_edges := g_edges network |}
                           (edges {| g_nodes := ns; g_edges := g_edges network |}) links
               = store_edges network (edges network) links).
  { intros ns r E links. apply store_nodes_typed_by in E.
    rewrite (edges_typed equipment _ _ _ E), (store_edges_typed equipment _ _ _ _ E).
    now destruct network. }
  split; [|split; [|split]].
  - intros pre a b post Hst Hm Hall Ha Hb. unfold _store_topology.
    destruct (store_nodes_storable equipment network (g_nodes network) 0 [] [] Hst)
      as (ns & nodes & links & E).
    rewrite E. cbn [snd bind]. rewrite (Hsame _ _ E).
    rewrite (store_edges_fiber_pair network _ pre a b post links Hm Hall Ha Hb).
    reflexivity.
  - intros pairs Hst Hm Hall. unfold _store_topology.
    destruct (store_nodes_storable equipment network (g_nodes network) 0 [] [] Hst)
      as (ns & nodes & links & E).
    rewrite E. cbn [snd bind]. rewrite (Hsame _ _ E).
    rewrite (store_edges_no_fiber_pair network _ pairs links Hm Hall).
    cbn [bind]. eauto.
  - intros network' doc H. unfold _store_topology in H.
    destruct (store_nodes equipment network 0 (g_nodes network) [] []) as [ns r] eqn:E.
    specialize (Hsame ns r eq_refl).
    injection H as _ H. apply bind_ok in H as ([nodes links] & -> & H).
    apply bind_ok in H as (links' & Hedges & H). injection H as <-.
    rewrite Hsame in Hedges.
    apply store_edges_returned in Hedges as (pairs & Hm & Hall & ->).
    apply store_nodes_counts in E as [Hl _]. cbn [length Nat.add] in Hl.
    exists pairs, nodes, links. repeat split; assumption.
  - apply patch_link_ends.
Qed.

End EdgePass.

(** C9 (counterexample). In [merging_fiber] the link entry of the Fiber
    F goes from X to Z; it does not stand for the edge from Y into F,
    and the document has no patch link for that edge. *)
Lemma uncovered_edge_without_patch : ~ patch_for_every_uncovered_edge.
Proof.
  intros H.
  let r := eval vm_compute in (_store_topology library merging_fiber) in
  match r with
  | (?g, Ok (YObj [(_, YArr [YObj [_; _; (_, YArr ?ns); (_, YArr ?ls)]])])) =>
      destruct (H library merging_fiber g ns ls 1%nat 3%nat (roadm_el "Y") (fiber_el "F"))
        as (link & Hin & Hp & _)
  end.
  - vm_compute. reflexivity.
  - vm_compute. right. now left.
  - intros (f & n & Hn & Hf & [[Hv Hpre] | [Hu Hsuc]]); cbn [fst snd] in *.
    + subst f. vm_compute in Hpre. discriminate Hpre.
    + subst f. vm_compute in Hn. injection Hn as <-. discriminate Hf.
  - reflexivity.
  - reflexivity.
  - destruct Hin as [<- | []]. vm_compute in Hp. discriminate Hp.
Qed.

Lemma store_topology_edges_witness :
  snd (_store_topology library fiber_chain)
  = Raise (NetworkTopologyError "Fiber connected to a Fiber: F1, F2") /\
  (exists doc, snd (_store_topology library patched) = Ok doc) /\
  (exists nodes fiber_links,
      snd (_store_topology library patched)
      = Ok (topology_document nodes
              (fiber_links
                 ++ [patch_link (Transceiver "T" (Some "vendorA_trx-type1") None)
                                (roadm_el "X");
                     patch_link (roadm_el "X") (roadm_el "Y")])) /\
      length fiber_links = 1%nat) /\
  (exists nodes fiber_links,
      snd (_store_topology library merging_fiber)
      = Ok (topology_document nodes (fiber_links ++ [])) /\
      length fiber_links = 1%nat).
Proof.
  split; [|split; [|split]].
  - apply (proj1 (store_topology_edges library fiber_chain)
             [(roadm_el "X", fiber_el "F1")] (fiber_el "F1") (fiber_el "F2")
             [(fiber_el "F2", roadm_el "Y")]); reflexivity.
  - apply (proj1 (proj2 (store_topology_edges library patched))
             [(Transceiver "T" (Some "vendorA_trx-type1") None, roadm_el "X");
              (roadm_el "X", fiber_el "F"); (roadm_el "X", roadm_el "Y");
              (fiber_el "F", roadm_el "Y")]); reflexivity.
  - destruct (proj1 (proj2 (proj2 (store_topology_edges library patched)))
                _ _ (surjective_pairing (_store_topology library patched)))
      as (pairs & nodes & fiber_links & Hm & _ & Hl & Hdoc).
    vm_compute in Hm. injection Hm as <-.
    exists nodes, fiber_links. split; [|exact Hl].
    exact (f_equal Ok Hdoc).
  - destruct (proj1 (proj2 (proj2 (store_topology_edges library merging_fiber)))
                _ _ (surjective_pairing (_store_topology library merging_fiber)))
      as (pairs & nodes & fiber_links & Hm & _ & Hl & Hdoc).
    vm_compute in Hm. injection Hm as <-.
    exists nodes, fiber_links. split; [|exact Hl].
    exact (f_equal Ok Hdoc).
Defined.
